(** * Trade reconciliation engine: a shallow embedding of [src/utils/parser.ts]

    The engine turns a trade blotter and a valuation history into a daily
    portfolio simulation with HIFO tax lots.  This file embeds the functions
    of [parser.ts] (second, complete version of the pipeline) and proves the
    properties stated about them.

    Layout: JavaScript numbers, strings and objects first; then the data model
    of [types/trade.ts]; then the functions in source order; then the
    theorems, one claim at a time, and further properties of the engine, of
    the history sheet parser and of the side bar of
    [components/Dashboard.tsx]; last, the claims about tax lots and realized
    P&L, stated on the states the simulation goes through. *)

From Stdlib Require Import ZArith QArith Qabs Lqa Lia Bool Ascii String.
From Stdlib Require Import Floats.PrimFloat.
From Stdlib Require Import Sorting.Sorted Sorting.Permutation.
From Stdlib Require OrderedTypeEx.
From Stdlib Require Import Floats.SpecFloat Floats.FloatOps Floats.FloatAxioms.
From stdpp Require Import base list strings relations.

Set Default Proof Using "Type".
#[local] Set Warnings "-inexact-float".

(** ** JavaScript numbers

    Every [number] of the source is an IEEE binary64 value.  The functions
    below use nothing but [+ - * /], [Math.abs], [<], [<=] and truthiness, so
    the embedding is written once over that interface and instantiated twice:
    with primitive binary64 floats (what the engine runs on) and with exact
    rationals (the arithmetic the accounting identities are stated in). *)

Class JsNumber (num : Type) := {
  nzero : num;                         (* 0 *)
  none_ : num;                         (* 1.0 *)
  nhundred : num;                      (* 100 *)
  nlot_eps : num;                      (* 0.000001 *)
  nheld_eps : num;                     (* 0.00001 *)
  EUR_TO_USD : num;                    (* 1.17 *)
  nadd : num -> num -> num;
  nsub : num -> num -> num;
  nmul : num -> num -> num;
  ndiv : num -> num -> num;
  nabs : num -> num;                   (* Math.abs *)
  nneg : num -> num;                   (* unary minus *)
  nltb : num -> num -> bool;           (* a < b *)
  nleb : num -> num -> bool;           (* a <= b *)
  nfalsy : num -> bool                 (* !a : true on 0 and on NaN *)
}.

Definition ngtb {num} `{JsNumber num} (a b : num) : bool := nltb b a.
Definition ngeb {num} `{JsNumber num} (a b : num) : bool := nleb b a.

(** [a || 0] on numbers. *)
Definition orZero {num} `{JsNumber num} (a : num) : num :=
  if nfalsy a then nzero else a.

(** Binary64: the kernel's primitive floats, rounding to nearest even as
    JavaScript does.  Decimal literals denote the nearest double. *)
#[export] Instance Float64 : JsNumber float := {|
  nzero := 0%float;
  none_ := 1%float;
  nhundred := 100%float;
  nlot_eps := 0.000001%float;
  nheld_eps := 0.00001%float;
  EUR_TO_USD := 1.17%float;
  nadd := PrimFloat.add;
  nsub := PrimFloat.sub;
  nmul := PrimFloat.mul;
  ndiv := PrimFloat.div;
  nabs := PrimFloat.abs;
  nneg := PrimFloat.opp;
  nltb := PrimFloat.ltb;
  nleb := PrimFloat.leb;
  nfalsy := fun a => negb (PrimFloat.ltb 0%float a || PrimFloat.ltb a 0%float)
|}.

(** Exact rationals, kept in lowest terms so that equal values are equal
    terms.  There is no NaN and no infinity here: [x / 0] is [0] as in
    [QArith], so statements over this instance that divide assume a non-zero
    divisor. *)
Definition Qltb (a b : Q) : bool := negb (Qle_bool b a).

#[export] Instance Exact : JsNumber Q := {|
  nzero := 0%Q;
  none_ := 1%Q;
  nhundred := 100%Q;
  nlot_eps := (1 # 1000000)%Q;
  nheld_eps := (1 # 100000)%Q;
  EUR_TO_USD := (117 # 100)%Q;
  nadd := fun a b => Qred (a + b);
  nsub := fun a b => Qred (a - b);
  nmul := fun a b => Qred (a * b);
  ndiv := fun a b => Qred (a / b);
  nabs := fun a => Qred (Qabs a);
  nneg := fun a => Qred (- a);
  nltb := Qltb;
  nleb := Qle_bool;
  nfalsy := fun a => Qeq_bool a 0
|}.

(** ** JavaScript strings

    Strings are byte strings; [toUpperCase] is the ASCII one. *)

Definition nonEmpty (s : string) : bool := negb (String.eqb s "").

Definition upperAscii (c : ascii) : ascii :=
  let n := nat_of_ascii c in
  if (97 <=? n)%nat && (n <=? 122)%nat then ascii_of_nat (n - 32) else c.

Fixpoint toUpperCase (s : string) : string :=
  match s with
  | EmptyString => EmptyString
  | String c r => String (upperAscii c) (toUpperCase r)
  end.

(** [s.includes(sub)] *)
Definition includes (s sub : string) : bool :=
  match String.index 0 sub s with Some _ => true | None => false end.

(** [arr.includes(x)] on an array of strings. *)
Definition inList (x : string) (l : list string) : bool :=
  existsb (String.eqb x) l.

(** ** JavaScript objects used as maps

    [Record<string, V>] is kept as an association list in insertion order,
    which is the order [Object.keys] and [Object.values] enumerate string
    keys in.  A key is bound at most once: [aset] overwrites in place.

    Two things an association list does not do, a plain object does.  It
    answers [obj[k]] with an inherited value when [k] names a property of
    [Object.prototype] ([inheritedKey]); and it enumerates the keys that are
    array indices first, in ascending numeric order ([arrayIndex]).  Where
    the code creates [obj[k]] behind a test [!obj[k]] with [k] taken from the
    data, the model tests [inheritedKey] first; statements about the order
    of keys carry the hypothesis that no key is an array index. *)

(** The properties every plain object inherits from [Object.prototype]:
    each is a function, or the prototype itself, hence truthy. *)
Definition inheritedKey (k : string) : bool :=
  inList k [ "constructor"; "hasOwnProperty"; "isPrototypeOf";
             "propertyIsEnumerable"; "toLocaleString"; "toString"; "valueOf";
             "__proto__"; "__defineGetter__"; "__defineSetter__";
             "__lookupGetter__"; "__lookupSetter__" ].

Fixpoint allDigits (s : string) : bool :=
  match s with
  | EmptyString => true
  | String c r =>
      let n := nat_of_ascii c in
      (48 <=? n)%nat && (n <=? 57)%nat && allDigits r
  end.

Fixpoint decimalValue (acc : N) (s : string) : N :=
  match s with
  | EmptyString => acc
  | String c r => decimalValue (10 * acc + N.of_nat (nat_of_ascii c - 48)) r
  end.

(** An array index: the canonical decimal form of an integer from 0 to
    4294967294. *)
Definition arrayIndex (k : string) : bool :=
  match k with
  | EmptyString => false
  | String c r =>
      allDigits k
      && (negb (Ascii.eqb c "0"%char) || String.eqb r "")
      && (String.length k <=? 10)%nat
      && (decimalValue 0 k <=? 4294967294)%N
  end.

Section AList.
Context {V : Type}.

Fixpoint aget (m : list (string * V)) (k : string) : option V :=
  match m with
  | [] => None
  | (k', v) :: r => if String.eqb k k' then Some v else aget r k
  end.

Fixpoint aset (m : list (string * V)) (k : string) (v : V) : list (string * V) :=
  match m with
  | [] => [(k, v)]
  | (k', v') :: r =>
      if String.eqb k k' then (k', v) :: r else (k', v') :: aset r k v
  end.

Definition ahas (m : list (string * V)) (k : string) : bool :=
  match aget m k with Some _ => true | None => false end.

End AList.

(** ** [Array.prototype.sort]

    The sort is stable (ECMAScript 2019).  With a consistent comparator every
    stable sort returns the same array, so insertion sort stands for it;
    [after x y] says that the comparator is positive on [(x, y)].  With an
    inconsistent comparator (one that returns NaN on some pairs only) the
    order is implementation-defined and this definition is one possible
    outcome. *)

Section Sort.
Context {A : Type} (after : A -> A -> bool).

Fixpoint insertBy (x : A) (l : list A) : list A :=
  match l with
  | [] => [x]
  | y :: r => if after x y then y :: insertBy x r else x :: y :: r
  end.

Fixpoint sortBy (l : list A) : list A :=
  match l with
  | [] => []
  | x :: r => insertBy x (sortBy r)
  end.

(** [x] may stay in front of [y]. *)
Definition notAfter (x y : A) : Prop := after x y = false.

End Sort.

(** [s.trim()]: ASCII white space only. *)
Definition isSpace (c : ascii) : bool :=
  let n := nat_of_ascii c in
  (n =? 32)%nat || ((9 <=? n)%nat && (n <=? 13)%nat).

Fixpoint trimStart (s : string) : string :=
  match s with
  | String c r => if isSpace c then trimStart r else s
  | EmptyString => EmptyString
  end.

Fixpoint trimEnd (s : string) : string :=
  match s with
  | EmptyString => EmptyString
  | String c r =>
      match trimEnd r with
      | EmptyString => if isSpace c then EmptyString else String c EmptyString
      | r' => String c r'
      end
  end.

Definition trim (s : string) : string := trimEnd (trimStart s).

(** [s.replace(pat, '')] with a string pattern: the first occurrence is
    removed. *)
Definition removeFirst (s pat : string) : string :=
  match String.index 0 pat s with
  | Some i =>
      String.append (String.substring 0 i s)
        (String.substring (i + String.length pat) (String.length s) s)
  | None => s
  end.

(** [s.replace(/[$,()]/g, '')] *)
Fixpoint stripMoney (s : string) : string :=
  match s with
  | EmptyString => EmptyString
  | String c r =>
      if inList (String c EmptyString) ["$"; ","; "("; ")"]
      then stripMoney r else String c (stripMoney r)
  end.

(** [s.split('|')] *)
Fixpoint splitPipe (s : string) : list string :=
  match s with
  | EmptyString => [EmptyString]
  | String c r =>
      if Ascii.eqb c "|"%char then EmptyString :: splitPipe r
      else match splitPipe r with
           | [] => [String c EmptyString]
           | w :: ws => String c w :: ws
           end
  end.

(** ** The JavaScript runtime

    Built-ins whose results the engine takes as they come: number parsing and
    printing, [Date], the regular-expression engine.  They are parameters of
    the embedding. *)

Class JsRuntime (num : Type) := {
  (* parseFloat(s), NaN included *)
  parseFloat : string -> num;
  (* String(n) and n.toString() *)
  numberToString : num -> string;
  (* new Date(Math.round((n - 25569) * 86400 * 1000)).toISOString().split('T')[0] *)
  serialToISODate : num -> string;
  (* new Date(s): None when the date is invalid, else toISOString().split('T')[0] *)
  stringToISODate : string -> option string;
  (* /^[A-Z]{1,7}\s*\d{6}[CP]\d{8}$/.test(s) *)
  optOccRe : string -> bool;
  (* /\b(CALL|PUT|OPTION|OPTN)\b/i.test(s) *)
  callPutWordRe : string -> bool;
  (* /\b\d+(\.\d+)?\s*[CP]\b/i.test(s) *)
  strikeCpRe : string -> bool
}.

(** [new Date(s).getTime()], the key of the two date sorts: milliseconds
    since the epoch, [None] standing for NaN (invalid date). *)
Class JsDate := {
  dateTime : string -> option Z
}.

(** ** Data model ([types/trade.ts] and the [TaxLot] interface) *)

Definition loc := nat.

Section Engine.
Context {num : Type} `{JsNumber num}.

Record Trade := mkTrade {
  tradeId : string;
  description : string;
  ticker : string;
  tradeDate : string;
  txnType : string;
  quantity : num;
  price : num;
  currency : string;
  netProceeds : num;
  fees : num;
  commissions : num
}.

Record TaxLot := mkTaxLot {
  lot_date : string;
  lot_shares : num;
  costPerShare : num;
  totalCost : num
}.

Record PositionHistoryPoint := mkPoint {
  hp_date : string;
  hp_price : num;
  hp_shares : num;
  avgCostBasis : num;
  hp_realizedPnL : num;
  hp_unrealizedPnL : num;
  hp_totalPnL : num
}.

Record Position := mkPosition {
  pos_ticker : string;
  pos_shares : num;
  averageCost : num;
  pos_realizedPnL : num;
  pos_unrealizedPnL : num;
  pos_totalPnL : num;
  pos_maxSizePercentAUM : num;
  avgSizePercentAUM : num;
  isSmallPosition : bool;
  pos_trades : list Trade;
  pos_history : list PositionHistoryPoint
}.

(** The value type of [currentHoldings]: [{ shares, price }]. *)
Record Holding := mkHolding {
  h_shares : num;
  h_price : num
}.

(** [PortfolioState.holdings] is a reference to an object: the snapshot and
    the running [currentHoldings] are told apart by their locations in the
    store below. *)
Record PortfolioState := mkPortfolioState {
  ps_date : string;
  ps_holdings : loc;
  ps_cash : num;
  ps_aum : num
}.

(** The element type of [positionStates] in [simulatePortfolio]. *)
Record PosState := mkPosState {
  st_shares : num;
  lots : list TaxLot;
  st_realizedPnL : num;
  st_history : list PositionHistoryPoint;
  sumSizePercentAUM : num;
  daysPresent : num;
  maxSizePercentAUM : num
}.

(** ** The object store

    [currentHoldings] and every [{ shares, price }] object in it are mutated
    in place while snapshots that were pushed earlier stay reachable, so these
    objects live in a store: a list of objects, a location being an index and
    allocation an append.  Lots, position states and trades are never shared
    between two owners and are kept as values. *)

Inductive obj :=
  | OHolding (v : Holding)                     (* { shares, price } *)
  | OHoldings (entries : list (string * loc)). (* Record<string, {shares, price}> *)

Definition entriesOf (h : list obj) (l : loc) : list (string * loc) :=
  match h !! l with Some (OHoldings es) => es | _ => [] end.

Definition holdingAt (h : list obj) (l : loc) : Holding :=
  match h !! l with Some (OHolding v) => v | _ => mkHolding nzero nzero end.

(** What an observer reads through a reference to a holdings object. *)
Definition readHoldings (h : list obj) (l : loc) : list (string * Holding) :=
  map (fun kv => (kv.1, holdingAt h kv.2)) (entriesOf h l).

(** [JSON.parse(JSON.stringify(o))] on a holdings object: a fresh object with
    a fresh [{ shares, price }] per key.  Finite numbers survive the round
    trip unchanged, and the copy is written for them; NaN and the infinities,
    which JSON writes as [null], are copied as they are here. *)
Fixpoint copyEntries (h : list obj) (src : list obj) (es : list (string * loc))
  : list obj * list (string * loc) :=
  match es with
  | [] => (h, [])
  | (k, l) :: r =>
      let fresh := length h in
      let '(h', r') := copyEntries (h ++ [OHolding (holdingAt src l)]) src r in
      (h', (k, fresh) :: r')
  end.

Definition jsonClone (h : list obj) (l : loc) : list obj * loc :=
  let '(h', es) := copyEntries h h (entriesOf h l) in
  (h' ++ [OHoldings es], length h').

(** ** [simulatePortfolio]: tax lots *)

Definition BUY_TYPES : list string := ["Buy"; "Cover"; "Stock Dividend"; "Pair-off"].
Definition SELL_TYPES : list string := ["Sell"; "Short"].

(** [posState.lots.push({...})] of the buy branch. *)
Definition openLot (trade : Trade) : TaxLot :=
  let totalCost :=
    nadd (nadd (nmul (quantity trade) (price trade)) (nabs (commissions trade)))
         (nabs (fees trade)) in
  {| lot_date := tradeDate trade;
     lot_shares := quantity trade;
     costPerShare := ndiv totalCost (quantity trade);
     totalCost := totalCost |}.

(** The comparator [(a, b) => b.costPerShare - a.costPerShare] is positive
    when [b] costs more than [a]. *)
Definition lotAfter (a b : TaxLot) : bool :=
  ngtb (nsub (costPerShare b) (costPerShare a)) nzero.

(** [lot.shares = 0]: a lot consumed in full keeps its cost fields. *)
Definition emptied (lot : TaxLot) : TaxLot :=
  {| lot_date := lot_date lot; lot_shares := nzero;
     costPerShare := costPerShare lot; totalCost := totalCost lot |}.

(** A lot consumed in part: [sold] shares leave it at its cost per share. *)
Definition splitLot (lot : TaxLot) (sold : num) : TaxLot :=
  {| lot_date := lot_date lot;
     lot_shares := nsub (lot_shares lot) sold;
     costPerShare := costPerShare lot;
     totalCost := nsub (totalCost lot) (nmul sold (costPerShare lot)) |}.

(** The [for] loop that consumes lots, from the current index on; returns the
    array after the loop and [costOfSharesSold]. *)
Fixpoint consumeLots (ls : list TaxLot) (sharesToSell costOfSharesSold : num)
  : list TaxLot * num :=
  match ls with
  | [] => ([], costOfSharesSold)
  | lot :: rest =>
      if nleb sharesToSell nzero then (ls, costOfSharesSold)
      else if nleb (lot_shares lot) sharesToSell then
        let '(rest', cost) :=
          consumeLots rest (nsub sharesToSell (lot_shares lot))
                      (nadd costOfSharesSold (totalCost lot)) in
        (emptied lot :: rest', cost)
      else
        let partialCost := nmul sharesToSell (costPerShare lot) in
        let '(rest', cost) :=
          consumeLots rest nzero (nadd costOfSharesSold partialCost) in
        (splitLot lot sharesToSell :: rest', cost)
  end.

Definition lotOpen (l : TaxLot) : bool := ngtb (lot_shares l) nlot_eps.

(** Sort, consume, drop the empty lots: the lot part of the sell branch. *)
Definition sellLots (ls : list TaxLot) (qty : num) : list TaxLot * num :=
  let '(ls', cost) := consumeLots (sortBy lotAfter ls) qty nzero in
  (List.filter lotOpen ls', cost).

Definition newPosState : PosState :=
  {| st_shares := nzero; lots := []; st_realizedPnL := nzero; st_history := [];
     sumSizePercentAUM := nzero; daysPresent := nzero; maxSizePercentAUM := nzero |}.

(** The buy branch on the position state. *)
Definition buyPos (ps : PosState) (trade : Trade) : PosState :=
  {| st_shares := nadd (st_shares ps) (quantity trade);
     lots := lots ps ++ [openLot trade];
     st_realizedPnL := st_realizedPnL ps;
     st_history := st_history ps;
     sumSizePercentAUM := sumSizePercentAUM ps;
     daysPresent := daysPresent ps;
     maxSizePercentAUM := maxSizePercentAUM ps |}.

(** The sell branch on the position state. *)
Definition sellPos (ps : PosState) (trade : Trade) : PosState :=
  let '(ls', costOfSharesSold) := sellLots (lots ps) (quantity trade) in
  let proceeds :=
    nsub (nsub (nmul (quantity trade) (price trade)) (nabs (commissions trade)))
         (nabs (fees trade)) in
  let realized := nsub proceeds costOfSharesSold in
  {| st_shares := nsub (st_shares ps) (quantity trade);
     lots := ls';
     st_realizedPnL := nadd (st_realizedPnL ps) realized;
     st_history := st_history ps;
     sumSizePercentAUM := sumSizePercentAUM ps;
     daysPresent := daysPresent ps;
     maxSizePercentAUM := maxSizePercentAUM ps |}.

(** Both branches and the fall-through for any other transaction type. *)
Definition tradePos (ps : PosState) (trade : Trade) : PosState :=
  if inList (txnType trade) BUY_TYPES then buyPos ps trade
  else if inList (txnType trade) SELL_TYPES then sellPos ps trade
  else ps.

(** ** [simulatePortfolio]: the running state

    The locals of [simulatePortfolio] that the date loop mutates, with the
    store that holds the holdings objects. *)

Record SimState := mkSimState {
  heap : list obj;
  currentHoldings : loc;
  currentCash : num;
  positionStates : list (string * PosState);
  portfolioHistory : list PortfolioState
}.

(** State on entry to the date loop: [currentHoldings = {}] is the only
    object. *)
Definition initState : SimState :=
  {| heap := [OHoldings []]; currentHoldings := 0; currentCash := nzero;
     positionStates := []; portfolioHistory := [] |}.

(** [tradesByDate]: trades without a date are skipped, the others are
    appended to the array of their date. *)
Definition groupByDate (trades : list Trade) : list (string * list Trade) :=
  fold_left
    (fun m t =>
       if nonEmpty (tradeDate t) then
         aset m (tradeDate t) (default [] (aget m (tradeDate t)) ++ [t])
       else m)
    trades [].

(** The input maps of the history sheet, as [parseHistorySheet] returns them. *)
Definition PriceMap := list (string * list (string * num)).
Definition AumMap := list (string * num).

(** [if (!currentHoldings[t]) currentHoldings[t] = { shares: 0, price: 0 }],
    then [const holding = currentHoldings[t]], for a ticker [t] that is
    [tracked]: the store after it and the location of the holding. *)
Definition ensureHolding (h : list obj) (cur : loc) (t : string) : list obj * loc :=
  match aget (entriesOf h cur) t with
  | Some l => (h, l)
  | None =>
      let l := length h in
      (<[cur := OHoldings (entriesOf h cur ++ [(t, l)])]>
         (h ++ [OHolding (mkHolding nzero nzero)]), l)
  end.

(** The start buffer pushed when a position state is created: one point on
    the previous date of the timeline, when there is one. *)
Definition startBuffer (allDates : list string) (dateIdx : nat)
    (dailyPriceMap : PriceMap) (trade : Trade) : list PositionHistoryPoint :=
  match dateIdx with
  | O => []
  | S i =>
      match allDates !! i with
      | None => []
      | Some prevDate =>
          let startPrice :=
            match aget dailyPriceMap prevDate with
            | Some m =>
                match aget m (ticker trade) with
                | Some p => if nfalsy p then price trade else p
                | None => price trade
                end
            | None => price trade
            end in
          [ {| hp_date := prevDate; hp_price := startPrice; hp_shares := nzero;
               avgCostBasis := nzero; hp_realizedPnL := nzero;
               hp_unrealizedPnL := nzero; hp_totalPnL := nzero |} ]
      end
  end.

(** [positionStates[t]] after the lazy creation, for a [tracked] ticker. *)
Definition ensurePosState (allDates : list string) (dateIdx : nat)
    (dailyPriceMap : PriceMap) (pss : list (string * PosState)) (trade : Trade)
  : PosState :=
  match aget pss (ticker trade) with
  | Some ps => ps
  | None =>
      {| st_shares := nzero; lots := []; st_realizedPnL := nzero;
         st_history := startBuffer allDates dateIdx dailyPriceMap trade;
         sumSizePercentAUM := nzero; daysPresent := nzero;
         maxSizePercentAUM := nzero |}
  end.

(** What one trade does to its [holding] object. *)
Definition tradeHolding (v : Holding) (trade : Trade) : Holding :=
  let shares' :=
    if inList (txnType trade) BUY_TYPES then nadd (h_shares v) (quantity trade)
    else if inList (txnType trade) SELL_TYPES then nsub (h_shares v) (quantity trade)
    else h_shares v in
  {| h_shares := shares';
     h_price := if ngtb (price trade) nzero then price trade else h_price v |}.

(** The tickers the date loop keeps a holding and a position state for:
    [if (trade.ticker)], and then [!currentHoldings[t]] and
    [!positionStates[t]] must see no inherited value.  For a ticker that
    names an inherited property both tests are false from the start: nothing
    is created, [holding] and [posState] are the inherited value, and the
    writes to them reach no result of the simulation.  (A positive price
    written through [__proto__] lands on [Object.prototype] itself; that
    write is outside the model.) *)
Definition tracked (t : string) : bool := nonEmpty t && negb (inheritedKey t).

(** A trade the loop body throws on: on the inherited value [posState.lots]
    is [undefined], which the buy branch calls [push] on and the sell branch
    [sort]. *)
Definition throwsOn (trade : Trade) : bool :=
  nonEmpty (ticker trade) && inheritedKey (ticker trade)
  && (inList (txnType trade) BUY_TYPES || inList (txnType trade) SELL_TYPES).

(** Body of [daysTrades.forEach(trade => ...)], for a trade it does not
    throw on. *)
Definition applyTrade (allDates : list string) (dateIdx : nat)
    (dailyPriceMap : PriceMap) (st : SimState) (trade : Trade) : SimState :=
  let cash := nadd (currentCash st) (netProceeds trade) in
  if tracked (ticker trade) then
    let '(h1, l) := ensureHolding (heap st) (currentHoldings st) (ticker trade) in
    let ps := ensurePosState allDates dateIdx dailyPriceMap (positionStates st) trade in
    {| heap := <[l := OHolding (tradeHolding (holdingAt h1 l) trade)]> h1;
       currentHoldings := currentHoldings st;
       currentCash := cash;
       positionStates := aset (positionStates st) (ticker trade) (tradePos ps trade);
       portfolioHistory := portfolioHistory st |}
  else
    {| heap := heap st; currentHoldings := currentHoldings st; currentCash := cash;
       positionStates := positionStates st;
       portfolioHistory := portfolioHistory st |}.

(** Step B: [currentHoldings[t].price = dailyPriceMap[date][t]] for the
    tickers that are held. *)
Definition setPrice (h : list obj) (cur : loc) (t : string) (p : num) : list obj :=
  match aget (entriesOf h cur) t with
  | Some l => <[l := OHolding {| h_shares := h_shares (holdingAt h l); h_price := p |}]> h
  | None => h
  end.

Definition applyPrices (h : list obj) (cur : loc) (dailyPriceMap : PriceMap)
    (date : string) : list obj :=
  match aget dailyPriceMap date with
  | Some m => fold_left (fun h' kv => setPrice h' cur kv.1 kv.2) m h
  | None => h
  end.

(** Step C: [holdingsValue], summed in [Object.values] order from 0. *)
Definition holdingsValue (vs : list (string * Holding)) : num :=
  fold_left (fun acc kv => nadd acc (nmul (h_shares kv.2) (h_price kv.2))) vs nzero.

Definition determineAum (h : list obj) (cur : loc) (cash : num)
    (dailyAumMap : AumMap) (date : string) : num :=
  match aget dailyAumMap date with
  | Some aum =>
      if nfalsy aum then nadd (holdingsValue (readHoldings h cur)) cash else aum
  | None => nadd (holdingsValue (readHoldings h cur)) cash
  end.

Definition totalLotCost (ls : list TaxLot) : num :=
  fold_left (fun acc l => nadd acc (totalCost l)) ls nzero.

Definition totalLotShares (ls : list TaxLot) : num :=
  fold_left (fun acc l => nadd acc (lot_shares l)) ls nzero.

Definition avgCost (ls : list TaxLot) : num :=
  if ngtb (totalLotShares ls) nzero
  then ndiv (totalLotCost ls) (totalLotShares ls) else nzero.

(** Step D, for one ticker: the history point and the size metrics. *)
Definition dayMetrics (h : list obj) (cur : loc) (date : string) (aum : num)
    (t : string) (ps : PosState) : PosState :=
  let price :=
    match aget (entriesOf h cur) t with
    | Some l => h_price (holdingAt h l)
    | None => nzero
    end in
  let marketValue := nmul (st_shares ps) price in
  let unrealizedPnL := nsub marketValue (totalLotCost (lots ps)) in
  let point :=
    {| hp_date := date; hp_price := price; hp_shares := st_shares ps;
       avgCostBasis := avgCost (lots ps);
       hp_realizedPnL := st_realizedPnL ps;
       hp_unrealizedPnL := unrealizedPnL;
       hp_totalPnL := nadd (st_realizedPnL ps) unrealizedPnL |} in
  let sizePercent :=
    if ngtb aum nzero then nmul (ndiv marketValue aum) nhundred else nzero in
  let held := ngtb (nabs (st_shares ps)) nheld_eps in
  {| st_shares := st_shares ps;
     lots := lots ps;
     st_realizedPnL := st_realizedPnL ps;
     st_history := st_history ps ++ [point];
     sumSizePercentAUM :=
       if held then nadd (sumSizePercentAUM ps) sizePercent else sumSizePercentAUM ps;
     daysPresent := if held then nadd (daysPresent ps) none_ else daysPresent ps;
     maxSizePercentAUM :=
       if ngtb sizePercent (maxSizePercentAUM ps) then sizePercent
       else maxSizePercentAUM ps |}.

(** Step A: the trades of the day, in blotter order. *)
Definition tradesStep (allDates : list string) (trades : list Trade)
    (dailyPriceMap : PriceMap) (dateIdx : nat) (date : string) (st : SimState)
  : SimState :=
  let daysTrades := default [] (aget (groupByDate trades) date) in
  fold_left (applyTrade allDates dateIdx dailyPriceMap) daysTrades st.

(** Step B on the state. *)
Definition pricesStep (dailyPriceMap : PriceMap) (date : string) (st : SimState)
  : SimState :=
  {| heap := applyPrices (heap st) (currentHoldings st) dailyPriceMap date;
     currentHoldings := currentHoldings st;
     currentCash := currentCash st;
     positionStates := positionStates st;
     portfolioHistory := portfolioHistory st |}.

(** Steps C and D: the AUM of the day, the snapshot pushed on
    [portfolioHistory], the metrics of every position. *)
Definition snapshotStep (dailyAumMap : AumMap) (date : string) (st : SimState)
  : SimState :=
  let cur := currentHoldings st in
  let aum := determineAum (heap st) cur (currentCash st) dailyAumMap date in
  let '(h', snap) := jsonClone (heap st) cur in
  {| heap := h';
     currentHoldings := cur;
     currentCash := currentCash st;
     positionStates :=
       map (fun kv => (kv.1, dayMetrics (heap st) cur date aum kv.1 kv.2))
           (positionStates st);
     portfolioHistory :=
       portfolioHistory st ++
         [ {| ps_date := date; ps_holdings := snap;
              ps_cash := currentCash st; ps_aum := aum |} ] |}.

(** Body of [allDates.forEach((date, dateIdx) => ...)]. *)
Definition simulateDay (allDates : list string) (trades : list Trade)
    (dailyPriceMap : PriceMap) (dailyAumMap : AumMap)
    (st : SimState) (dateIdx : nat) (date : string) : SimState :=
  snapshotStep dailyAumMap date
    (pricesStep dailyPriceMap date
       (tradesStep allDates trades dailyPriceMap dateIdx date st)).

(** The date loop from index [i] on. *)
Fixpoint simulateFrom (allDates : list string) (trades : list Trade)
    (dailyPriceMap : PriceMap) (dailyAumMap : AumMap)
    (i : nat) (dates : list string) (st : SimState) : SimState :=
  match dates with
  | [] => st
  | d :: r =>
      simulateFrom allDates trades dailyPriceMap dailyAumMap (S i) r
        (simulateDay allDates trades dailyPriceMap dailyAumMap st i d)
  end.

(** [simulatePortfolio]: its three results are [portfolioHistory],
    [positionStates] and [currentHoldings] (with the store) of the final
    state. *)
Definition simulatePortfolio (allDates : list string) (trades : list Trade)
    (dailyPriceMap : PriceMap) (dailyAumMap : AumMap) : SimState :=
  simulateFrom allDates trades dailyPriceMap dailyAumMap 0 allDates initState.

(** ** [finalizePositions] *)

(** [arr.findIndex(p)], [None] standing for -1. *)
Fixpoint findIndex {A : Type} (p : A -> bool) (l : list A) : option nat :=
  match l with
  | [] => None
  | x :: r => if p x then Some 0 else option_map S (findIndex p r)
  end.

(** The start of the window: the earlier of the first trade date and the
    first history date, empty strings counting as absent. *)
Definition windowStart (firstTradeDate firstHistDate : string) : string :=
  if nonEmpty firstHistDate &&
     (negb (nonEmpty firstTradeDate) || String.ltb firstHistDate firstTradeDate)
  then firstHistDate else firstTradeDate.

Definition windowEnd (lastTradeDate lastHistDate : string) : string :=
  if nonEmpty lastHistDate &&
     (negb (nonEmpty lastTradeDate) || String.ltb lastTradeDate lastHistDate)
  then lastHistDate else lastTradeDate.

(** Step 4, the slice of the history with one point of padding. *)
Definition sliceHistory (history : list PositionHistoryPoint)
    (startDate endDate : string) : list PositionHistoryPoint :=
  if nonEmpty startDate && nonEmpty endDate then
    match findIndex (fun p => String.eqb (hp_date p) startDate) history,
          findIndex (fun p => String.eqb (hp_date p) endDate) history with
    | Some startIndex, Some endIndex =>
        let sliceStart := Nat.pred startIndex in
        let sliceEnd := Nat.min (length history) (endIndex + 2) in
        take (sliceEnd - sliceStart) (drop sliceStart history)
    | _, _ => history
    end
  else history.

(** The filtering logic at the end of the loop body. *)
Definition smallPosition (shares avgSize : num) : bool :=
  let isCurrentlyHeld := ngtb (nabs shares) nheld_eps in
  let isSignificant := ngeb avgSize none_ in
  if isSignificant || isCurrentlyHeld then false else true.

(** Body of [Object.keys(positionStates).forEach(ticker => ...)]; the
    holdings object is read through the store. *)
Definition finalizePosition (h : list obj) (cur : loc) (trades : list Trade)
    (lastHistoryDateMap firstHistoryDateMap : list (string * string))
    (t : string) (posState : PosState) : Position :=
  let shares := st_shares posState in
  let lotCost := totalLotCost (lots posState) in
  let lastPrice :=
    match aget (entriesOf h cur) t with
    | Some l => orZero (h_price (holdingAt h l))
    | None => nzero
    end in
  let unrealized := nsub (nmul shares lastPrice) lotCost in
  let myTrades := List.filter (fun tr => String.eqb (ticker tr) t) trades in
  let firstTradeDate := match head myTrades with Some tr => tradeDate tr | None => "" end in
  let lastTradeDate := match last myTrades with Some tr => tradeDate tr | None => "" end in
  let firstHistDate := default "" (aget firstHistoryDateMap t) in
  let lastHistDate := default "" (aget lastHistoryDateMap t) in
  let startDate := windowStart firstTradeDate firstHistDate in
  let endDate := windowEnd lastTradeDate lastHistDate in
  let avgSize :=
    if ngtb (daysPresent posState) nzero
    then ndiv (sumSizePercentAUM posState) (daysPresent posState) else nzero in
  {| pos_ticker := t;
     pos_shares := shares;
     averageCost := avgCost (lots posState);
     pos_realizedPnL := st_realizedPnL posState;
     pos_unrealizedPnL := unrealized;
     pos_totalPnL := nadd (st_realizedPnL posState) unrealized;
     pos_maxSizePercentAUM := maxSizePercentAUM posState;
     avgSizePercentAUM := avgSize;
     isSmallPosition := smallPosition shares avgSize;
     pos_trades := myTrades;
     pos_history := sliceHistory (st_history posState) startDate endDate |}.

(** [finalizePositions]: one [Position] per key of [positionStates], in key
    order. *)
Definition finalizePositions (st : SimState) (trades : list Trade)
    (lastHistoryDateMap firstHistoryDateMap : list (string * string))
  : list Position :=
  map (fun kv => finalizePosition (heap st) (currentHoldings st) trades
                   lastHistoryDateMap firstHistoryDateMap kv.1 kv.2)
      (positionStates st).

(** ** Blotter ingestion *)

Context `{JsRuntime num} `{JsDate}.

(** A cell of a sheet row as [sheet_to_json] hands it over. *)
Inductive cell :=
  | CEmpty                  (* undefined: the row has no such key *)
  | CNumber (x : num)
  | CString (s : string).

(** JavaScript truthiness of a cell. *)
Definition truthy (c : cell) : bool :=
  match c with
  | CEmpty => false
  | CNumber x => negb (nfalsy x)
  | CString s => nonEmpty s
  end.

Definition parseExcelDate (dateVal : cell) : string :=
  match dateVal with
  | CEmpty => ""
  | CNumber x => if nfalsy x then "" else serialToISODate x
  | CString s => if nonEmpty s then default "" (stringToISODate s) else ""
  end.

Definition parseFinancialNumber (val : cell) : num :=
  match val with
  | CNumber x => x
  | CString s =>
      let isNegative := includes s "(" || includes s "-" in
      let n := orZero (parseFloat (stripMoney s)) in
      if isNegative then nneg (nabs n) else n
  | CEmpty => nzero
  end.

Definition cleanTicker (val : cell) : string :=
  match val with
  | CEmpty => ""
  | CNumber x => if nfalsy x then "" else trim (numberToString x)
  | CString s => if nonEmpty s then trim s else ""
  end.

Definition isArgxOrd (desc currency : string) : bool :=
  let d := toUpperCase desc in
  let c := toUpperCase currency in
  let isOrdDesc := includes d "ORD" && negb (includes d "ADR") in
  let isEur := includes c "EUR" in
  isOrdDesc || isEur.

Definition isOption (ticker desc : string) : bool :=
  let t := toUpperCase ticker in
  let d := toUpperCase desc in
  if optOccRe t then true
  else if callPutWordRe d then true
  else if strikeCpRe d then true
  else if includes d " EXP " || includes d " EXPIRE " then true
  else false.

Definition getUniqueTicker (ticker desc : string) : string :=
  if isOption ticker desc then trim desc
  else trim (removeFirst ticker "_PIPE").

(** A row of the blotter sheet, by column header.  The text columns hold
    text when present. *)
Record Row := mkRow {
  col_TradeId : cell;
  col_Ticker : cell;
  col_TxnType : option string;
  col_Description : option string;
  col_PriceCurrency : option string;
  col_Currency : option string;
  col_TradePrice : cell;
  col_NetProceeds : cell;
  col_NotionalQuantity : cell;
  col_Fees : cell;
  col_GrossCommissions : cell;
  col_TradeDate : cell
}.

(** [a || b || ... ] on optional text with a final default. *)
Definition firstText (cands : list (option string)) (dflt : string) : string :=
  default dflt (head (omap (fun c => match c with
                                     | Some s => if nonEmpty s then Some s else None
                                     | None => None
                                     end) cands)).

(** [parseFloat(row['Trade Price']) || 0] *)
Definition parsePrice (c : cell) : num :=
  match c with
  | CEmpty => nzero
  | CNumber x => orZero (parseFloat (numberToString x))
  | CString s => orZero (parseFloat s)
  end.

(** [row['Trade Id']?.toString()], empty when that is falsy. *)
Definition explicitId (c : cell) : string :=
  match c with
  | CEmpty => ""
  | CNumber x => numberToString x
  | CString s => s
  end.

(** Body of [tradeJson.forEach(row => ...)].  [rnd k] is what the [k]-th
    evaluation of [Math.random().toString()] returns; the state is the number
    of draws made and the trades pushed so far. *)
Definition blotterRow (rnd : nat -> string) (acc : nat * list Trade) (row : Row)
  : nat * list Trade :=
  let rawTicker := cleanTicker (col_Ticker row) in
  let txnType := firstText [col_TxnType row] "" in
  let description := firstText [col_Description row] "" in
  if negb (truthy (col_TradeId row)) && negb (nonEmpty rawTicker) && negb (nonEmpty txnType)
  then acc
  else
    let tickerUpper := toUpperCase rawTicker in
    let descUpper := toUpperCase description in
    if includes tickerUpper "FX SPOT" then acc
    else if includes descUpper "FX SPOT" then acc
    else if String.eqb tickerUpper "EURUSD" then acc
    else if String.eqb tickerUpper "USDEUR" then acc
    else
      let id := explicitId (col_TradeId row) in
      let '(draws, tradeId) :=
        if nonEmpty id then (acc.1, id) else (S acc.1, rnd acc.1) in
      (draws,
       acc.2 ++
       [ {| tradeId := tradeId;
            description := description;
            ticker := getUniqueTicker rawTicker description;
            tradeDate := parseExcelDate (col_TradeDate row);
            txnType := txnType;
            quantity := nabs (parseFinancialNumber (col_NotionalQuantity row));
            price := parsePrice (col_TradePrice row);
            currency := firstText [col_PriceCurrency row; col_Currency row] "USD";
            netProceeds := parseFinancialNumber (col_NetProceeds row);
            fees := parseFinancialNumber (col_Fees row);
            commissions := parseFinancialNumber (col_GrossCommissions row) |} ]).

(** [parseTradeBlotter], from the rows of the blotter sheet. *)
Definition parseTradeBlotter (rnd : nat -> string) (rows : list Row) : list Trade :=
  (fold_left (blotterRow rnd) rows (0, [])).2.

(** ** [consolidateArgxTrades] *)

(** First loop, ARGX branch: ORD trades are repriced in USD. *)
Definition convertArgx (t : Trade) : Trade :=
  if isArgxOrd (description t) (currency t) then
    {| tradeId := tradeId t; description := description t; ticker := ticker t;
       tradeDate := tradeDate t; txnType := txnType t; quantity := quantity t;
       price := nmul (price t) EUR_TO_USD; currency := "USD";
       netProceeds := netProceeds t; fees := fees t; commissions := commissions t |}
  else t.

Definition isArgx (t : Trade) : bool := String.eqb (ticker t) "ARGX".

Definition argxTrades (trades : list Trade) : list Trade :=
  map convertArgx (List.filter isArgx trades).

Definition otherTrades (trades : list Trade) : list Trade :=
  List.filter (fun t => negb (isArgx t)) trades.

(** The value type of [argxGrouped]. *)
Record ArgxGroup := mkArgxGroup {
  grp_shares : num;
  cashFlowUsd : num;
  grp_trades : list Trade
}.

Definition groupKey (t : Trade) : string :=
  String.append (tradeDate t) (String.append "|" (txnType t)).

(** Second loop: group by date and side. *)
Definition groupArgx (ts : list Trade) : list (string * ArgxGroup) :=
  fold_left
    (fun m t =>
       let key := groupKey t in
       let grp := default (mkArgxGroup nzero nzero []) (aget m key) in
       aset m key
         {| grp_shares := nadd (grp_shares grp) (quantity t);
            cashFlowUsd := nadd (cashFlowUsd grp) (nmul (quantity t) (price t));
            grp_trades := grp_trades grp ++ [t] |})
    ts [].

Definition sumBy (f : Trade -> num) (ts : list Trade) : num :=
  fold_left (fun sum t => nadd sum (f t)) ts nzero.

(** Third loop, for one key: the merged trade, when the group has shares. *)
Definition consolidatedTrade (key : string) (grp : ArgxGroup) : option Trade :=
  let parts := splitPipe key in
  let date := nth 0 parts "undefined" in
  let txnType' := nth 1 parts "undefined" in
  if ngtb (grp_shares grp) nzero then
    match grp_trades grp with
    | baseTrade :: _ =>
        Some {| tradeId :=
                  String.append "ARGX-CONS-"
                    (String.append date (String.append "-" txnType'));
                description := "ARGX ADR (merged USD)";
                ticker := "ARGX";
                tradeDate := tradeDate baseTrade;
                txnType := txnType baseTrade;
                quantity := grp_shares grp;
                price := ndiv (cashFlowUsd grp) (grp_shares grp);
                currency := "USD";
                netProceeds := sumBy netProceeds (grp_trades grp);
                fees := sumBy fees (grp_trades grp);
                commissions := sumBy commissions (grp_trades grp) |}
    | [] => None
    end
  else None.

Definition consolidatedArgx (trades : list Trade) : list Trade :=
  omap (fun kv => consolidatedTrade kv.1 kv.2) (groupArgx (argxTrades trades)).

(** The comparator [new Date(a).getTime() - new Date(b).getTime()] is
    positive when both dates are valid and [a] is the later one. *)
Definition dateAfter (a b : string) : bool :=
  match dateTime a, dateTime b with
  | Some x, Some y => (0 <? x - y)%Z
  | _, _ => false
  end.

Definition tradeAfter (a b : Trade) : bool := dateAfter (tradeDate a) (tradeDate b).

Definition consolidateArgxTrades (trades : list Trade) : list Trade :=
  sortBy tradeAfter (otherTrades trades ++ consolidatedArgx trades).

(** ** [parseTradeData] *)

(** [new Set(iterable)]: elements in order of first insertion. *)
Definition setAdd (s : list string) (x : string) : list string :=
  if inList x s then s else s ++ [x].

Definition newSet (l : list string) : list string := fold_left setAdd l [].

(** What [parseHistorySheet] returns.  The simulation sees the sheet only
    through these five results; the sheet parser itself is embedded further
    down. *)
Record HistoryData := mkHistoryData {
  dailyAumMap : AumMap;
  dailyPriceMap : PriceMap;
  lastHistoryDateMap : list (string * string);
  firstHistoryDateMap : list (string * string);
  historyDates : list string
}.

(** Step 3, the master timeline. *)
Definition buildTimeline (trades : list Trade) (histDates : list string) : list string :=
  let tradeDates := newSet (map tradeDate trades) in
  sortBy dateAfter (newSet (tradeDates ++ histDates)).

(** [DashboardData], with the store its [portfolioHistory] points into. *)
Record DashboardData := mkDashboardData {
  positions : list Position;
  dd_portfolioHistory : list PortfolioState;
  dd_trades : list Trade;
  dd_store : list obj
}.

(** [parseTradeData], from the decoded blotter rows and the result of
    [parseHistorySheet]. *)
Definition parseTradeData (rnd : nat -> string) (rows : list Row)
    (hist : HistoryData) : DashboardData :=
  let trades := consolidateArgxTrades (parseTradeBlotter rnd rows) in
  let allDates := buildTimeline trades (historyDates hist) in
  let st := simulatePortfolio allDates trades (dailyPriceMap hist) (dailyAumMap hist) in
  {| positions :=
       finalizePositions st trades (lastHistoryDateMap hist) (firstHistoryDateMap hist);
     dd_portfolioHistory := portfolioHistory st;
     dd_trades := trades;
     dd_store := heap st |}.

End Engine.

(** * A [Date] for the examples

    ISO calendar dates ([YYYY-MM-DD]) at midnight UTC, every other string
    being an invalid date: what [getTime] returns on the strings
    [parseExcelDate] produces. *)

Definition isDigit (c : ascii) : bool :=
  let n := nat_of_ascii c in (48 <=? n)%nat && (n <=? 57)%nat.

Fixpoint digitsValue (acc : Z) (s : string) : option Z :=
  match s with
  | EmptyString => Some acc
  | String c r =>
      if isDigit c
      then digitsValue (10 * acc + Z.of_nat (nat_of_ascii c - 48)) r
      else None
  end.

(** Days from 1970-01-01 to the civil date [y-m-d] (proleptic Gregorian). *)
Definition daysFromCivil (y m d : Z) : Z :=
  let y' := (if m <=? 2 then y - 1 else y)%Z in
  let era := (y' / 400)%Z in
  let yoe := (y' - era * 400)%Z in
  let mp := (if m <=? 2 then m + 9 else m - 3)%Z in
  let doy := ((153 * mp + 2) / 5 + d - 1)%Z in
  let doe := (yoe * 365 + yoe / 4 - yoe / 100 + doy)%Z in
  (era * 146097 + doe - 719468)%Z.

Definition isoTime (s : string) : option Z :=
  if (String.length s =? 10)%nat
     && String.eqb (String.substring 4 1 s) "-"
     && String.eqb (String.substring 7 1 s) "-"
  then
    match digitsValue 0 (String.substring 0 4 s),
          digitsValue 0 (String.substring 5 2 s),
          digitsValue 0 (String.substring 8 2 s) with
    | Some y, Some m, Some d =>
        if ((1 <=? m) && (m <=? 12) && (1 <=? d) && (d <=? 31))%Z
        then Some (daysFromCivil y m d * 86400000)%Z
        else None
    | _, _, _ => None
    end
  else None.

Definition isoDate : JsDate := {| dateTime := isoTime |}.

(** * Column lookup and the history sheet

    [findCol] and [parseHistorySheet] of [parser.ts].  A sheet row is the
    object [sheet_to_json] builds for it: its keys are the column headers, in
    [Object.keys] order.  The one exception modelled is the [TypeError] of
    [getUniqueTicker] on a description that is no text; date serials are
    taken to be in the range of [Date], where [toISOString] returns. *)

(** [s.toLowerCase()], the ASCII one. *)
Definition lowerAscii (c : ascii) : ascii :=
  let n := nat_of_ascii c in
  if (65 <=? n)%nat && (n <=? 90)%nat then ascii_of_nat (n + 32) else c.

Fixpoint toLowerCase (s : string) : string :=
  match s with
  | EmptyString => EmptyString
  | String c r => String (lowerAscii c) (toLowerCase r)
  end.

(** The test of [keys.find] in [findCol]. *)
Definition matchesCol (cand k : string) : bool :=
  String.eqb (toLowerCase k) (toLowerCase cand)
  || includes (toLowerCase k) (toLowerCase cand).

(** [findCol], on the keys of the row: the first candidate for which
    [keys.find] returns a truthy key decides. *)
Fixpoint findCol (keys candidates : list string) : option string :=
  match candidates with
  | [] => None
  | cand :: rest =>
      match List.find (matchesCol cand) keys with
      | Some key => if nonEmpty key then Some key else findCol keys rest
      | None => findCol keys rest
      end
  end.

(** The [find] on [workbook.SheetNames] of [parseHistorySheet]. *)
Definition isHistoryName (n : string) : bool :=
  let l := toLowerCase n in
  includes l "itd history" || includes l "daily portfolio"
  || includes l "history portfolio".

Section HistorySheet.
Context {num : Type} `{JsNumber num} `{JsRuntime num}.

Definition SheetRow := list (string * cell (num := num)).

(** [row[col]] *)
Definition cellAt (row : SheetRow) (col : string) : cell :=
  default CEmpty (aget row col).

(** The literal 0.01: the quotient of 1 by 100 is the double nearest to it. *)
Definition ncent : num := ndiv none_ nhundred.

(** The six columns found on the first row. *)
Record HistCols := mkHistCols {
  dateCol : option string;
  tickerCol : option string;
  priceCol : option string;
  mvCol : option string;
  descCol : option string;
  qtyCol : option string
}.

Definition historyCols (firstRow : SheetRow) : HistCols :=
  let keys := map fst firstRow in
  {| dateCol := findCol keys ["Date"; "As Of"; "Valuation Date"];
     tickerCol := findCol keys ["Ticker"; "Symbol"; "Security"; "Instrument Symbol"];
     priceCol := findCol keys ["Market Price"; "Price"; "Close"; "PX_LAST"];
     mvCol := findCol keys ["Market Value"; "MV"; "MarketValue"];
     descCol := findCol keys ["Description"; "Security Description"; "Name"];
     qtyCol := findCol keys ["Quantity"; "Qty"; "Shares"] |}.

(** [col ? parseFinancialNumber(row[col]) : 0] *)
Definition numberAt (col : option string) (row : SheetRow) : num :=
  match col with
  | Some c => parseFinancialNumber (cellAt row c)
  | None => nzero
  end.

(** [(desc || '')] as the receiver of [toUpperCase]: [None] when it is a
    number that is not falsy, which has no such method (a [TypeError]). *)
Definition descText (desc : cell) : option string :=
  match desc with
  | CEmpty => Some ""
  | CString s => Some s
  | CNumber x => if nfalsy x then Some "" else None
  end.

(** [getUniqueTicker(rawTicker, description)] on the description cell of a
    history row; [None] when the call throws: [isOption] calls [toUpperCase]
    on [desc || ''], and the option branch calls [desc.trim()]. *)
Definition getUniqueTickerCell (rawTicker : string) (desc : cell) : option string :=
  match descText desc with
  | None => None
  | Some d =>
      if isOption rawTicker d then
        match desc with
        | CString s => Some (trim s)
        | _ => None
        end
      else Some (trim (removeFirst rawTicker "_PIPE"))
  end.

(** The value type of [argxDaily]. *)
Record ArgxDay := mkArgxDay {
  totQty : num;
  totMvUsd : num;
  adrPx : num;
  ordPx : num
}.

(** The locals the row loop of [parseHistorySheet] mutates. *)
Record HistAcc := mkHistAcc {
  acc_aum : AumMap (num := num);
  acc_prices : PriceMap (num := num);
  acc_last : list (string * string);
  acc_first : list (string * string);
  acc_dates : list string;
  acc_argx : list (string * ArgxDay)
}.

Definition emptyAcc : HistAcc :=
  {| acc_aum := []; acc_prices := []; acc_last := []; acc_first := [];
     acc_dates := []; acc_argx := [] |}.

(** [dailyAumMap[date] = (dailyAumMap[date] || 0) + v] *)
Definition addAum (m : AumMap (num := num)) (date : string) (v : num) : AumMap :=
  aset m date (nadd (orZero (default nzero (aget m date))) v).

(** [if (!dailyPriceMap[date]) dailyPriceMap[date] = {};
    dailyPriceMap[date][ticker] = price] *)
Definition setDailyPrice (m : PriceMap (num := num)) (date ticker : string) (p : num)
  : PriceMap :=
  aset m date (aset (default [] (aget m date)) ticker p).

(** The update of the two date maps for a row that shows a position. *)
Definition noteDates (acc : HistAcc) (ticker date : string) : HistAcc :=
  let curLast := default "" (aget (acc_last acc) ticker) in
  let last' :=
    if String.ltb curLast date then aset (acc_last acc) ticker date else acc_last acc in
  let curFirst := default "" (aget (acc_first acc) ticker) in
  let first' :=
    if negb (nonEmpty curFirst) || String.ltb date curFirst
    then aset (acc_first acc) ticker date else acc_first acc in
  {| acc_aum := acc_aum acc; acc_prices := acc_prices acc;
     acc_last := last'; acc_first := first';
     acc_dates := acc_dates acc; acc_argx := acc_argx acc |}.

(** The ARGX branch of the row loop. *)
Definition argxRow (acc : HistAcc) (date d : string) (price qty : num) : HistAcc :=
  let isOrd := isArgxOrd d "" in
  let pxUsd := if isOrd then nmul price EUR_TO_USD else price in
  let mvUsd := nmul (nabs qty) pxUsd in
  let agg := default (mkArgxDay nzero nzero nzero nzero) (aget (acc_argx acc) date) in
  let agg' :=
    {| totQty := nadd (totQty agg) qty;
       totMvUsd := nadd (totMvUsd agg) mvUsd;
       adrPx := if isOrd then adrPx agg else pxUsd;
       ordPx := if isOrd then pxUsd else ordPx agg |} in
  {| acc_aum := addAum (acc_aum acc) date mvUsd; acc_prices := acc_prices acc;
     acc_last := acc_last acc; acc_first := acc_first acc;
     acc_dates := acc_dates acc; acc_argx := aset (acc_argx acc) date agg' |}.

(** The branch of every other ticker. *)
Definition plainRow (cols : HistCols) (acc : HistAcc) (date ticker : string)
    (mv price : num) : HistAcc :=
  let aum' :=
    match mvCol cols with
    | Some _ => addAum (acc_aum acc) date mv
    | None => acc_aum acc
    end in
  let prices' :=
    if nonEmpty ticker && ngtb price nzero
    then setDailyPrice (acc_prices acc) date ticker price else acc_prices acc in
  {| acc_aum := aum'; acc_prices := prices';
     acc_last := acc_last acc; acc_first := acc_first acc;
     acc_dates := acc_dates acc; acc_argx := acc_argx acc |}.

(** Body of [histJson.forEach(row => ...)]; [None] when the call of
    [getUniqueTicker] throws. *)
Definition historyRow (cols : HistCols) (acc : HistAcc) (row : SheetRow)
  : option HistAcc :=
  match dateCol cols, tickerCol cols with
  | Some dc, Some tc =>
      if negb (truthy (cellAt row dc)) then Some acc
      else
        let date := parseExcelDate (cellAt row dc) in
        if negb (nonEmpty date) then Some acc
        else
          let acc1 :=
            {| acc_aum := acc_aum acc; acc_prices := acc_prices acc;
               acc_last := acc_last acc; acc_first := acc_first acc;
               acc_dates := setAdd (acc_dates acc) date;
               acc_argx := acc_argx acc |} in
          let rawTicker := cleanTicker (cellAt row tc) in
          let description :=
            match descCol cols with
            | Some c => cellAt row c
            | None => CString ""
            end in
          if includes (toUpperCase rawTicker) "FX SPOT" then Some acc1
          else if String.eqb (toUpperCase rawTicker) "EURUSD" then Some acc1
          else
            match getUniqueTickerCell rawTicker description with
            | None => None
            | Some ticker =>
                let mv := numberAt (mvCol cols) row in
                let price := numberAt (priceCol cols) row in
                let qty := numberAt (qtyCol cols) row in
                let acc2 :=
                  if ngtb (nabs qty) nlot_eps || ngtb (nabs mv) ncent
                  then noteDates acc1 ticker date else acc1 in
                if String.eqb ticker "ARGX"
                then Some (argxRow acc2 date
                             (default "" (descText description)) price qty)
                else Some (plainRow cols acc2 date ticker mv price)
            end
  | _, _ => Some acc
  end.

(** The rows in order, until one throws. *)
Fixpoint historyRows (cols : HistCols) (rows : list SheetRow) (acc : HistAcc)
  : option HistAcc :=
  match rows with
  | [] => Some acc
  | row :: rest =>
      match historyRow cols acc row with
      | Some acc' => historyRows cols rest acc'
      | None => None
      end
  end.

(** The price of ARGX on a date, from the aggregate of the date. *)
Definition argxFinalPrice (agg : ArgxDay) : num :=
  if ngtb (totQty agg) nzero && ngtb (totMvUsd agg) nzero
  then ndiv (totMvUsd agg) (totQty agg)
  else if ngtb (adrPx agg) nzero then adrPx agg
  else if ngtb (ordPx agg) nzero then ordPx agg
  else nzero.

(** [Object.keys(argxDaily).forEach(date => ...)] *)
Definition finalizeArgx (prices : PriceMap (num := num))
    (argx : list (string * ArgxDay)) : PriceMap :=
  fold_left
    (fun m kv =>
       let finalPrice := argxFinalPrice kv.2 in
       if ngtb finalPrice nzero then setDailyPrice m kv.1 "ARGX" finalPrice else m)
    argx prices.

Definition emptyHistory : HistoryData (num := num) :=
  {| dailyAumMap := []; dailyPriceMap := []; lastHistoryDateMap := [];
     firstHistoryDateMap := []; historyDates := [] |}.

(** [parseHistorySheet] from the rows of the history sheet, [histJson];
    [None] when it throws. *)
Definition parseHistoryRows (histJson : list SheetRow) : option HistoryData :=
  match histJson with
  | [] => Some emptyHistory
  | firstRow :: _ =>
      match historyRows (historyCols firstRow) histJson emptyAcc with
      | None => None
      | Some acc =>
          Some {| dailyAumMap := acc_aum acc;
                  dailyPriceMap := finalizeArgx (acc_prices acc) (acc_argx acc);
                  lastHistoryDateMap := acc_last acc;
                  firstHistoryDateMap := acc_first acc;
                  historyDates := acc_dates acc |}
      end
  end.

(** [parseHistorySheet]: [rowsOf] is [utils.sheet_to_json] on the sheet of a
    name. *)
Definition parseHistorySheet (sheetNames : list string)
    (rowsOf : string -> list SheetRow) : option HistoryData :=
  match List.find isHistoryName sheetNames with
  | Some name => if nonEmpty name then parseHistoryRows (rowsOf name) else Some emptyHistory
  | None => Some emptyHistory
  end.

End HistorySheet.

(** * The dashboard ([components/Dashboard.tsx])

    The list of positions of the side bar and the ticker selected when a
    file has been read.  [localeCompare] is the one of the runtime. *)

Section Dashboard.
Context {num : Type} `{JsNumber num}.
Variable localeCompare : string -> string -> Z.

(** [(a, b) => b.avgSizePercentAUM - a.avgSizePercentAUM], positive. *)
Definition bySizeDesc (a b : Position (num := num)) : bool :=
  ngtb (nsub (avgSizePercentAUM b) (avgSizePercentAUM a)) nzero.

(** [(a, b) => a.ticker.localeCompare(b.ticker)], positive. *)
Definition byTicker (a b : Position (num := num)) : bool :=
  (0 <? localeCompare (pos_ticker a) (pos_ticker b))%Z.

(** [filteredPositions]; [data] is [None] before a file is read. *)
Definition filteredPositions (data : option (DashboardData (num := num)))
    (showAllPositions : bool) : list Position :=
  match data with
  | None => []
  | Some d =>
      let positions :=
        if negb showAllPositions
        then List.filter (fun p => negb (isSmallPosition p)) (positions d)
        else positions d in
      if showAllPositions then sortBy byTicker positions
      else sortBy bySizeDesc positions
  end.

(** The selected ticker after [handleFileUpload] has read [parsedData];
    [selected] is the one before. *)
Definition selectAfterUpload (selected : string)
    (parsedData : DashboardData (num := num)) : string :=
  match positions parsedData with
  | [] => selected
  | _ :: _ =>
      match sortBy bySizeDesc (positions parsedData) with
      | p :: _ => pos_ticker p
      | [] => selected
      end
  end.

End Dashboard.

(** * Vocabulary of the properties

    Predicates and observations the statements below are written with. *)

(** No ["|"] in the string. *)
Fixpoint pipeFree (s : string) : bool :=
  match s with
  | EmptyString => true
  | String c r => negb (Ascii.eqb c "|"%char) && pipeFree r
  end.

Section Vocabulary.
Context {num : Type} `{JsNumber num}.
Implicit Types (h : list (obj (num := num))) (cur l : loc).
Implicit Types (st : SimState (num := num)) (ps : PosState (num := num)).

(** A trade of [qty] units at [px] with no fees and no commissions. *)
Definition feeless (t : Trade) (qty px : num) : Prop :=
  quantity t = qty /\ price t = px /\ fees t = nzero /\ commissions t = nzero.


(** *** Lots *)




(** *** Position states *)

(** The accounting part of a position state: what [tradePos] reads and
    writes.  The metrics of step D never touch it. *)
Definition sameCore ps ps' : Prop :=
  st_shares ps = st_shares ps' /\ lots ps = lots ps' /\
  st_realizedPnL ps = st_realizedPnL ps'.

(** The trades of one ticker, in order. *)
Definition tickerTrades (t : string) (trs : list (Trade (num := num))) : list Trade :=
  List.filter (fun tr => String.eqb (ticker tr) t) trs.

Definition onDate (d : string) (tr : Trade (num := num)) : bool :=
  String.eqb (tradeDate tr) d.

(** The trades the date loop applies, in the order it applies them. *)
Definition appliedTrades (dates : list string) (trades : list (Trade (num := num)))
  : list Trade :=
  concat (map (fun d => default [] (aget (groupByDate trades) d)) dates).

(** Every position state is the fold of [tradePos] over the trades applied
    so far to its ticker, and there is one exactly for the tickers that
    traded. *)
Definition posInv st (applied : list (Trade (num := num))) : Prop :=
  forall t,
    match aget (positionStates st) t with
    | Some ps =>
        tracked t = true /\
        sameCore ps (fold_left tradePos (tickerTrades t applied) newPosState) /\
        tickerTrades t applied <> []
    | None => tracked t = true -> tickerTrades t applied = []
    end.

(** *** The store *)

(** The locations the running simulation writes to: [currentHoldings] and the
    holdings it lists. *)
Definition live h cur : list loc := cur :: map snd (entriesOf h cur).

(** [currentHoldings] is a holdings object and its entries are holdings. *)
Definition wfHeap h cur : Prop :=
  (exists es, h !! cur = Some (OHoldings es)) /\
  forall l, l ∈ map snd (entriesOf h cur) -> exists v, h !! l = Some (OHolding v).

(** From [h] to [h'] the store grew, objects outside the live set kept their
    contents, and no old object became live. *)
Definition frames cur h h' : Prop :=
  length h <= length h' /\
  (forall l, l < length h -> l ∉ live h cur -> h' !! l = h !! l) /\
  (forall l, l ∈ live h' cur -> l ∈ live h cur \/ length h <= l).

(** A snapshot none of whose objects is live. *)
Definition frozenSnap h cur (snap : loc) : Prop :=
  forall l, l = snap \/ l ∈ map snd (entriesOf h snap) ->
            l < length h /\ l ∉ live h cur.

(** The mutations the date loop is made of. *)
Inductive simStep : SimState (num := num) -> SimState -> Prop :=
  | step_trade allDates dateIdx pm st trade :
      simStep st (applyTrade allDates dateIdx pm st trade)
  | step_prices pm date st :
      simStep st (pricesStep pm date st)
  | step_snapshot am date st :
      simStep st (snapshotStep am date st).

(** Snapshots are frozen: none of their objects is reachable from
    [currentHoldings]. *)
Definition wfState st : Prop :=
  wfHeap (heap st) (currentHoldings st) /\
  Forall (fun snap => frozenSnap (heap st) (currentHoldings st) (ps_holdings snap))
         (portfolioHistory st).

(** What an observer of [portfolioHistory] reads in a snapshot: date,
    holdings entries, cash, AUM. *)
Definition observe st (snap : PortfolioState (num := num))
  : string * list (string * Holding) * num * num :=
  (ps_date snap, readHoldings (heap st) (ps_holdings snap), ps_cash snap, ps_aum snap).

(** The AUM a snapshot must carry, [hs] being the holdings it recorded: the
    history total of its date when that is a non-zero number, and the value of
    the holdings plus cash otherwise. *)
Definition aumRule (am : AumMap) (hs : list (string * Holding))
    (snap : PortfolioState (num := num)) : Prop :=
  ps_aum snap
  = match aget am (ps_date snap) with
    | Some total =>
        if nfalsy total then nadd (holdingsValue hs) (ps_cash snap) else total
    | None => nadd (holdingsValue hs) (ps_cash snap)
    end.

(** *** Consolidation *)

(** The trades of a date and a side. *)
Definition inGroup (d ty : string) (t : Trade (num := num)) : bool :=
  String.eqb (tradeDate t) d && String.eqb (txnType t) ty.

Definition keyMembers (key : string) (ts : list (Trade (num := num))) : list Trade :=
  List.filter (fun t => String.eqb (groupKey t) key) ts.

Definition groupOf (key : string) (ts : list (Trade (num := num))) : ArgxGroup :=
  {| grp_shares := sumBy quantity (keyMembers key ts);
     cashFlowUsd := sumBy (fun t => nmul (quantity t) (price t)) (keyMembers key ts);
     grp_trades := keyMembers key ts |}.

(** The consolidated trade of the date [d] and the side [ty], from the
    converted trades [members] of that group: summed quantity, notional over
    shares, summed fees, commissions and net proceeds, composite identifier. *)
Definition mergedTrade (d ty : string) (members : list (Trade (num := num))) : Trade :=
  {| tradeId :=
       String.append "ARGX-CONS-"
         (String.append d (String.append "-" (hd "" (splitPipe ty))));
     description := "ARGX ADR (merged USD)";
     ticker := "ARGX";
     tradeDate := d;
     txnType := ty;
     quantity := sumBy quantity members;
     price := ndiv (sumBy (fun m => nmul (quantity m) (price m)) members)
                   (sumBy quantity members);
     currency := "USD";
     netProceeds := sumBy netProceeds members;
     fees := sumBy fees members;
     commissions := sumBy commissions members |}.

(** *** Identifiers *)

(** [t] with another identifier. *)
Definition setId (id : string) (t : Trade (num := num)) : Trade :=
  {| tradeId := id; description := description t; ticker := ticker t;
     tradeDate := tradeDate t; txnType := txnType t; quantity := quantity t;
     price := price t; currency := currency t; netProceeds := netProceeds t;
     fees := fees t; commissions := commissions t |}.

(** Equal in every field but [tradeId]. *)
Definition sameButId (t1 t2 : Trade (num := num)) : Prop := setId "" t1 = setId "" t2.




End Vocabulary.

(** *** Exact arithmetic *)

Abbreviation QLot := (TaxLot (num := Q)).

(** Plain sums, free of normalisation. *)
Fixpoint sumQ {A : Type} (f : A -> Q) (l : list A) : Q :=
  match l with
  | [] => 0
  | x :: r => f x + sumQ f r
  end.



(** Shape of the result of the consuming loop: a prefix [full] of the array
    is emptied, each of its lots being covered by what was left to sell; then
    either the loop stops ([rest] untouched) or it splits the next lot. *)
Inductive consumed (ls : list QLot) (q c : Q) : list QLot * Q -> Prop :=
  | consumed_whole full rest cost :
      ls = full ++ rest ->
      full = [] \/ (sumQ lot_shares full <= q)%Q ->
      rest = [] \/ (q - sumQ lot_shares full <= 0)%Q ->
      (cost == c + sumQ totalCost full)%Q ->
      consumed ls q c (map emptied full ++ rest, cost)
  | consumed_split full l rest s cost :
      ls = full ++ l :: rest ->
      full = [] \/ (sumQ lot_shares full <= q)%Q ->
      (s == q - sumQ lot_shares full)%Q ->
      (0 < s < lot_shares l)%Q ->
      (cost == c + sumQ totalCost full + s * costPerShare l)%Q ->
      consumed ls q c (map emptied full ++ splitLot l s :: rest, cost).


(** * Holdings as values

    What an observer reads in [currentHoldings], and what the steps of the
    date loop do to it, without the store. *)

Section HoldingsAsValues.
Context {num : Type} `{JsNumber num}.

(** The running holdings, read through the store. *)
Definition holdingsView (st : SimState (num := num)) : list (string * Holding) :=
  readHoldings (heap st) (currentHoldings st).

(** The [{ shares: 0, price: 0 }] a ticker starts with. *)
Definition noHolding : Holding (num := num) := mkHolding nzero nzero.

(** One trade on the holdings read as values. *)
Definition tradeView (v : list (string * Holding)) (tr : Trade (num := num))
  : list (string * Holding) :=
  if tracked (ticker tr)
  then aset v (ticker tr) (tradeHolding (default noHolding (aget v (ticker tr))) tr)
  else v.

(** One price of the history on the holdings read as values. *)
Definition priceView (v : list (string * Holding)) (kv : string * num)
  : list (string * Holding) :=
  match aget v kv.1 with
  | Some hd => aset v kv.1 {| h_shares := h_shares hd; h_price := kv.2 |}
  | None => v
  end.

(** Steps A and B of one date. *)
Definition dayView (trades : list (Trade (num := num))) (pm : PriceMap)
    (date : string) (v : list (string * Holding)) : list (string * Holding) :=
  let v1 := fold_left tradeView (default [] (aget (groupByDate trades) date)) v in
  match aget pm date with
  | Some m => fold_left priceView m v1
  | None => v1
  end.

(** The holdings after each date of [dates], from the holdings [v]. *)
Fixpoint viewsFrom (trades : list (Trade (num := num))) (pm : PriceMap)
    (dates : list string) (v : list (string * Holding))
  : list (list (string * Holding)) :=
  match dates with
  | [] => []
  | d :: r => dayView trades pm d v :: viewsFrom trades pm r (dayView trades pm d v)
  end.

(** The share count a sequence of trades leaves, from [s]: buys add their
    quantity, sells subtract it, other types leave it. *)
Definition netShares (ts : list (Trade (num := num))) (s : num) : num :=
  fold_left
    (fun s t =>
       if inList (txnType t) BUY_TYPES then nadd s (quantity t)
       else if inList (txnType t) SELL_TYPES then nsub s (quantity t)
       else s)
    ts s.

(** The tracked tickers of a list of trades, in order. *)
Definition tickersOf (ts : list (Trade (num := num))) : list string :=
  List.filter tracked (map ticker ts).

(** [currentCash += trade.netProceeds] *)
Definition addProceeds (c : num) (t : Trade (num := num)) : num :=
  nadd c (netProceeds t).

(** The shares of every holding are the net of the trades applied to its
    ticker, and the tickers without a holding have no applied trade. *)
Definition sharesInv (v : list (string * Holding (num := num))) (applied : list (Trade (num := num))) : Prop :=
  forall t,
    match aget v t with
    | Some hd => tracked t = true /\ h_shares hd = netShares (tickerTrades t applied) nzero
    | None => tracked t = true -> tickerTrades t applied = []
    end.

(** The last price of a ticker in holdings read as values, 0 when the ticker
    is not listed. *)
Definition priceOf (v : list (string * Holding (num := num))) (t : string) : num :=
  match aget v t with Some hd => h_price hd | None => nzero end.

(** [if (trade.price > 0) holding.price = trade.price], over a sequence of
    trades, from the price [p]. *)
Definition tradedPrice (ts : list (Trade (num := num))) (p : num) : num :=
  fold_left (fun p tr => if ngtb (price tr) nzero then price tr else p) ts p.

(** [tradesByDate[date] || []] *)
Definition daysTrades (trades : list (Trade (num := num))) (date : string) : list Trade :=
  default [] (aget (groupByDate trades) date).

(** Some trade of the ticker [t] is applied on the date [d]. *)
Definition tradedOn (trades : list (Trade (num := num))) (t d : string) : bool :=
  existsb (fun tr => String.eqb (ticker tr) t) (daysTrades trades d).

(** The history of every position after [k] snapshots, [n] dates being in
    scope: it starts one date before the first date its ticker trades on, and
    has a point for every date since. *)
Definition histDatesInv (allDates : list string) (trades : list (Trade (num := num)))
    (n k : nat) (pss : list (string * PosState (num := num))) : Prop :=
  forall t ps,
    aget pss t = Some ps ->
    exists i,
      findIndex (tradedOn trades t) (take n allDates) = Some i /\
      map hp_date (st_history ps) = take (k - pred i) (drop (pred i) allDates).

(** A history point and the holdings of a date agree on the ticker [t]: the
    ticker is listed, with the shares and the price of the point. *)
Definition pointMatches (t : string) (pt : PositionHistoryPoint (num := num))
    (w : list (string * Holding (num := num))) : Prop :=
  exists hd, aget w t = Some hd /\ hp_shares pt = h_shares hd /\ hp_price pt = h_price hd.

(** The point of the start buffer: no shares and no P&L. *)
Definition padding (pt : PositionHistoryPoint (num := num)) : Prop :=
  hp_shares pt = nzero /\ avgCostBasis pt = nzero /\ hp_realizedPnL pt = nzero /\
  hp_unrealizedPnL pt = nzero /\ hp_totalPnL pt = nzero.

(** The points of every position history, the start buffer apart, agree one
    by one with the holdings of the dates from the first trade of the ticker
    on. *)
Definition histMatchInv (allDates : list string) (trades : list (Trade (num := num)))
    (n : nat) (pss : list (string * PosState (num := num)))
    (views : list (list (string * Holding (num := num)))) : Prop :=
  forall t ps,
    aget pss t = Some ps ->
    exists i,
      findIndex (tradedOn trades t) (take n allDates) = Some i /\
      Forall padding (take (i - pred i) (st_history ps)) /\
      Forall2 (pointMatches t) (drop (i - pred i) (st_history ps)) (drop i views).

(** The holdings objects of [currentHoldings] are pairwise distinct. *)
Definition distinctHoldings (st : SimState (num := num)) : Prop :=
  NoDup (map snd (entriesOf (heap st) (currentHoldings st))).

End HoldingsAsValues.

(** The size metrics of a position state, in exact arithmetic: the maximum is
    not negative, the days present neither, and the sum of the sizes of the
    days present is at most that many times the maximum. *)
Definition sizeInv (ps : PosState (num := Q)) : Prop :=
  (0 <= maxSizePercentAUM ps /\ 0 <= daysPresent ps /\
   sumSizePercentAUM ps <= daysPresent ps * maxSizePercentAUM ps)%Q.

(** * The trade of a blotter row *)

Section RowTrade.
Context {num : Type} `{JsNumber num} `{JsRuntime num}.

(** The object pushed for a row that passes the filters, [id] being its
    identifier. *)
Definition rowTrade (id : string) (row : Row) : Trade :=
  let rawTicker := cleanTicker (col_Ticker row) in
  let description := firstText [col_Description row] "" in
  {| tradeId := id;
     description := description;
     ticker := getUniqueTicker rawTicker description;
     tradeDate := parseExcelDate (col_TradeDate row);
     txnType := firstText [col_TxnType row] "";
     quantity := nabs (parseFinancialNumber (col_NotionalQuantity row));
     price := parsePrice (col_TradePrice row);
     currency := firstText [col_PriceCurrency row; col_Currency row] "USD";
     netProceeds := parseFinancialNumber (col_NetProceeds row);
     fees := parseFinancialNumber (col_Fees row);
     commissions := parseFinancialNumber (col_GrossCommissions row) |}.

End RowTrade.

(** * More vocabulary *)

(** The date is a valid one. *)
Definition validDate `{JsDate} (d : string) : Prop := is_Some (dateTime d).

(** [a] is not later than [b], both dates being valid. *)
Definition notLater `{JsDate} (a b : string) : Prop :=
  exists ta tb, dateTime a = Some ta /\ dateTime b = Some tb /\ (ta <= tb)%Z.

(** * Vocabulary of the history sheet *)

Section HistoryVocabulary.
Context {num : Type} `{JsNumber num} `{JsRuntime num}.
Implicit Types (acc : HistAcc (num := num)) (row : SheetRow (num := num))
  (cols : HistCols).

(** With [date] added to the dates. *)
Definition withDate acc (date : string) : HistAcc :=
  {| acc_aum := acc_aum acc; acc_prices := acc_prices acc;
     acc_last := acc_last acc; acc_first := acc_first acc;
     acc_dates := setAdd (acc_dates acc) date; acc_argx := acc_argx acc |}.

(** The description cell of a row. *)
Definition descriptionCell cols row : cell :=
  match descCol cols with
  | Some c => cellAt row c
  | None => CString ""
  end.

(** The row is filtered out as a currency position. *)
Definition isFxRow (rawTicker : string) : bool :=
  includes (toUpperCase rawTicker) "FX SPOT" || String.eqb (toUpperCase rawTicker) "EURUSD".

(** The row shows a position. *)
Definition showsPosition cols row : bool :=
  ngtb (nabs (numberAt (qtyCol cols) row)) nlot_eps
  || ngtb (nabs (numberAt (mvCol cols) row)) ncent.

(** What a row that is not skipped does, [date] being its date and
    [ticker] its ticker. *)
Definition processRow cols acc row (date ticker : string) : HistAcc :=
  let acc1 := withDate acc date in
  let acc2 := if showsPosition cols row then noteDates acc1 ticker date else acc1 in
  if String.eqb ticker "ARGX"
  then argxRow acc2 date (default "" (descText (descriptionCell cols row)))
         (numberAt (priceCol cols) row) (numberAt (qtyCol cols) row)
  else plainRow cols acc2 date ticker (numberAt (mvCol cols) row)
         (numberAt (priceCol cols) row).

(** The date a row counts for: the two columns are found, the date cell is
    truthy and parses. *)
Definition rowDate cols row : option string :=
  match dateCol cols, tickerCol cols with
  | Some dc, Some _ =>
      if truthy (cellAt row dc) && nonEmpty (parseExcelDate (cellAt row dc))
      then Some (parseExcelDate (cellAt row dc)) else None
  | _, _ => None
  end.

(** The raw ticker of a row. *)
Definition rowRawTicker cols row : string :=
  match tickerCol cols with
  | Some tc => cleanTicker (cellAt row tc)
  | None => ""
  end.

End HistoryVocabulary.

Section HistoryVocabulary2.
Context {num : Type} `{JsNumber num} `{JsRuntime num}.
Implicit Types (acc : HistAcc (num := num)) (row : SheetRow (num := num))
  (cols : HistCols).

(** The ticker of a row that is processed: it has a date, is no currency
    position, and [getUniqueTicker] returns. *)
Definition rowTicker cols row : option string :=
  match rowDate cols row with
  | None => None
  | Some _ =>
      if isFxRow (rowRawTicker cols row) then None
      else getUniqueTickerCell (rowRawTicker cols row) (descriptionCell cols row)
  end.

(** The prices of one date: each ticker once, none empty, every price
    positive. *)
Definition pricesOk (m : list (string * num)) : Prop :=
  NoDup (map fst m) /\
  forall t p, (t, p) ∈ m -> t <> "" /\ ngtb p nzero = true.

(** The locals of the row loop are well formed: every map has each key
    once, every date it mentions is a history date, no history date is
    empty. *)
Record histWf acc : Prop := {
  wf_dates : NoDup (acc_dates acc);
  wf_nonempty : "" ∉ acc_dates acc;
  wf_aum : NoDup (map fst (acc_aum acc));
  wf_aum_dates : forall d, d ∈ map fst (acc_aum acc) -> d ∈ acc_dates acc;
  wf_prices : NoDup (map fst (acc_prices acc));
  wf_prices_ok : forall d m, (d, m) ∈ acc_prices acc -> d ∈ acc_dates acc /\ pricesOk m;
  wf_argx : NoDup (map fst (acc_argx acc));
  wf_argx_dates : forall d, d ∈ map fst (acc_argx acc) -> d ∈ acc_dates acc;
  wf_last : NoDup (map fst (acc_last acc));
  wf_last_dates : forall t d, (t, d) ∈ acc_last acc -> d ∈ acc_dates acc;
  wf_first : NoDup (map fst (acc_first acc));
  wf_first_dates : forall t d, (t, d) ∈ acc_first acc -> d ∈ acc_dates acc
}.

End HistoryVocabulary2.

Section HistoryVocabulary3.
Context {num : Type} `{JsNumber num} `{JsRuntime num}.
Implicit Types (row : SheetRow (num := num)) (cols : HistCols).

(** The columns of a sheet are those found on its first row. *)
Definition sheetCols (histJson : list (SheetRow (num := num))) : HistCols :=
  historyCols (default [] (head histJson)).

(** The description makes [getUniqueTicker] throw on the raw ticker: it is a
    number that is not falsy, or it is no text at all and the ticker alone
    is taken for an option. *)
Definition badDescription (rawTicker : string) (desc : cell (num := num)) : Prop :=
  match desc with
  | CString _ => False
  | CNumber x => nfalsy x = false \/ isOption rawTicker "" = true
  | CEmpty => isOption rawTicker "" = true
  end.

(** The ticker and the date of a row that shows a position. *)
Definition shownPair cols row : option (string * string) :=
  match rowDate cols row, rowTicker cols row with
  | Some d, Some t => if showsPosition cols row then Some (t, d) else None
  | _, _ => None
  end.

(** The update of [lastHistoryDateMap] for one such row. *)
Definition noteLast (m : list (string * string)) (p : string * string)
  : list (string * string) :=
  if String.ltb (default "" (aget m p.1)) p.2 then aset m p.1 p.2 else m.

(** The update of [firstHistoryDateMap] for one such row. *)
Definition noteFirst (m : list (string * string)) (p : string * string)
  : list (string * string) :=
  if negb (nonEmpty (default "" (aget m p.1))) || String.ltb p.2 (default "" (aget m p.1))
  then aset m p.1 p.2 else m.

(** What a row adds to the assets of its date. *)
Definition aumOf cols row : option (string * num) :=
  match rowDate cols row, rowTicker cols row with
  | Some d, Some t =>
      if String.eqb t "ARGX" then
        let price := numberAt (priceCol cols) row in
        let isOrd := isArgxOrd (default "" (descText (descriptionCell cols row))) "" in
        Some (d, nmul (nabs (numberAt (qtyCol cols) row))
                   (if isOrd then nmul price EUR_TO_USD else price))
      else
        match mvCol cols with
        | Some _ => Some (d, numberAt (mvCol cols) row)
        | None => None
        end
  | _, _ => None
  end.

(** [dailyAumMap[date] = (dailyAumMap[date] || 0) + v], on a pair. *)
Definition addAumOf (m : AumMap (num := num)) (p : string * num) : AumMap :=
  addAum m p.1 p.2.

(** The price a row of another ticker than ARGX writes: its date, its ticker
    and the price. *)
Definition pricePart cols row : option (string * string * num) :=
  match rowDate cols row, rowTicker cols row with
  | Some d, Some t =>
      if negb (String.eqb t "ARGX") && (nonEmpty t && ngtb (numberAt (priceCol cols) row) nzero)
      then Some (d, t, numberAt (priceCol cols) row) else None
  | _, _ => None
  end.

(** [dailyPriceMap[date][ticker] = price], on a triple. *)
Definition setPriceOf (m : PriceMap (num := num)) (x : string * string * num) : PriceMap :=
  setDailyPrice m x.1.1 x.1.2 x.2.

(** [dailyPriceMap[date]?.[ticker]] *)
Definition priceAt (m : PriceMap (num := num)) (d t : string) : option num :=
  match aget m d with
  | Some prices => aget prices t
  | None => None
  end.

(** What a row of ARGX adds to the aggregate of its date: the date, the
    quantity, the price in dollars, and whether the row is of the ordinary
    shares. *)
Definition argxPart cols row : option (string * (num * num * bool)) :=
  match rowDate cols row, rowTicker cols row with
  | Some d, Some t =>
      if String.eqb t "ARGX" then
        let price := numberAt (priceCol cols) row in
        let isOrd := isArgxOrd (default "" (descText (descriptionCell cols row))) "" in
        Some (d, (numberAt (qtyCol cols) row,
                  if isOrd then nmul price EUR_TO_USD else price, isOrd))
      else None
  | _, _ => None
  end.

(** The update of [argxDaily] for one such row. *)
Definition addArgxOf (m : list (string * ArgxDay)) (x : string * (num * num * bool))
  : list (string * ArgxDay) :=
  let agg := default (mkArgxDay nzero nzero nzero nzero) (aget m x.1) in
  aset m x.1
    {| totQty := nadd (totQty agg) x.2.1.1;
       totMvUsd := nadd (totMvUsd agg) (nmul (nabs x.2.1.1) x.2.1.2);
       adrPx := if x.2.2 then adrPx agg else x.2.1.2;
       ordPx := if x.2.2 then x.2.1.2 else ordPx agg |}.

(** The parts of ARGX of the date [d], in the order of the rows. *)
Definition argxParts cols (rows : list (SheetRow (num := num))) (d : string)
  : list (num * num * bool) :=
  map snd (filter (fun x => x.1 = d) (omap (argxPart cols) rows)).

(** The amounts the rows add to the assets of [d], in the order of the rows. *)
Definition aumParts cols (rows : list (SheetRow (num := num))) (d : string) : list num :=
  map snd (filter (fun x => x.1 = d) (omap (aumOf cols) rows)).

End HistoryVocabulary3.

(** The sum of a list of rationals. *)
Definition total (l : list Q) : Q := fold_right Qplus 0%Q l.

(** The signed quantities of the parts of ARGX, summed. *)
Definition argxQuantity (parts : list (Q * Q * bool)) : Q :=
  total (map (fun x => x.1.1) parts).

(** Their values in dollars, each of the absolute quantity, summed. *)
Definition argxValue (parts : list (Q * Q * bool)) : Q :=
  total (map (fun x => Qabs x.1.1 * x.1.2)%Q parts).

(** * Points of the simulation *)

Section Points.
Context {num : Type} `{JsNumber num}.

(** The state of the date loop when the dates before index [k] are done and
    [n] trades of the date of index [k] have been applied.  Past the last
    date, or past the last trade of a date, there is nothing more to apply. *)
Definition pointState (allDates : list string) (trades : list (Trade (num := num)))
    (pm : PriceMap) (am : AumMap) (k n : nat) : SimState :=
  fold_left (applyTrade allDates k pm)
    (take n (daysTrades trades (default "" (allDates !! k))))
    (simulateFrom allDates trades pm am 0 (take k allDates) initState).

(** The trades applied up to that point, in order. *)
Definition pointTrades (allDates : list string) (trades : list (Trade (num := num)))
    (k n : nat) : list Trade :=
  appliedTrades (take k allDates) trades
  ++ take n (daysTrades trades (default "" (allDates !! k))).


End Points.

(** * Data of the examples *)


Definition buyThenSell : list (Trade (num := float)) :=
  [ mkTrade "T1" "ACME INC" "ACME" "2024-01-02" "Buy"
            100%float 10%float "USD" (-1000)%float 0%float 0%float;
    mkTrade "T2" "ACME INC" "ACME" "2024-01-03" "Sell"
            40%float 12%float "USD" 480%float 0%float 0%float ].

Definition depositThenBuy : list (Trade (num := float)) :=
  [ mkTrade "T1" "WIRE IN" "" "2024-01-02" "Deposit"
            0%float 0%float "USD" 5000%float 0%float 0%float;
    mkTrade "T2" "ACME INC" "ACME" "2024-01-02" "Buy"
            100%float 10%float "USD" (-1000)%float 0%float 0%float ].

(** One share bought at 1 on a day whose history AUM is 100, sold the next
    day: the position was 1.0 percent of AUM on its one day held. *)
Definition onePercentRoundTrip : list (Trade (num := float)) :=
  [ mkTrade "T1" "ACME INC" "ACME" "2024-01-02" "Buy"
            1%float 1%float "USD" (-1)%float 0%float 0%float;
    mkTrade "T2" "ACME INC" "ACME" "2024-01-03" "Sell"
            1%float 1%float "USD" 1%float 0%float 0%float ].

(** A blotter row for 100 shares of ACME, with an identifier and no trade
    date. *)
Definition undatedRow : Row (num := float) :=
  {| col_TradeId := CString "T1"; col_Ticker := CString "ACME";
     col_TxnType := Some "Buy"; col_Description := Some "ACME INC";
     col_PriceCurrency := None; col_Currency := Some "USD";
     col_TradePrice := CNumber 10%float; col_NetProceeds := CNumber (-1000)%float;
     col_NotionalQuantity := CNumber 100%float; col_Fees := CEmpty;
     col_GrossCommissions := CEmpty; col_TradeDate := CEmpty |}.

Definition datedRow (id date : string) : Row (num := float) :=
  {| col_TradeId := CString id; col_Ticker := CString "ACME";
     col_TxnType := Some "Buy"; col_Description := Some "ACME INC";
     col_PriceCurrency := None; col_Currency := Some "USD";
     col_TradePrice := CNumber 10%float; col_NetProceeds := CNumber (-1000)%float;
     col_NotionalQuantity := CNumber 100%float; col_Fees := CEmpty;
     col_GrossCommissions := CEmpty; col_TradeDate := CString date |}.

(** A blotter row for a purchase of ACME whose quantity and price cells are
    blank. *)
Definition blankQuantityRow : Row (num := float) :=
  {| col_TradeId := CString "T1b"; col_Ticker := CString "ACME";
     col_TxnType := Some "Buy"; col_Description := Some "ACME INC";
     col_PriceCurrency := None; col_Currency := Some "USD";
     col_TradePrice := CEmpty; col_NetProceeds := CEmpty;
     col_NotionalQuantity := CEmpty; col_Fees := CEmpty;
     col_GrossCommissions := CEmpty; col_TradeDate := CString "2024-01-02" |}.

(** Two buys of the same day: 100 ADR shares at 50 USD and 100 ordinary
    shares at 40 EUR. *)
Definition twoClassBuys {num : Type} (q100 p50 p40 zero : num) : list (Trade (num := num)) :=
  [ mkTrade "T1" "ARGENX SE ADR" "ARGX" "2024-01-02" "Buy" q100 p50 "USD" zero zero zero;
    mkTrade "T2" "ARGENX SE ORD" "ARGX" "2024-01-02" "Buy" q100 p40 "EUR" zero zero zero ].

(** The example of the HIFO rule: lots of 100 shares at 10 and at 20, then a
    sale of [sold] shares at 15. *)
Definition hifoTrades (sold : float) : list (Trade (num := float)) :=
  [ mkTrade "T1" "ACME INC" "ACME" "2024-01-02" "Buy"
            100%float 10%float "USD" (-1000)%float 0%float 0%float;
    mkTrade "T2" "ACME INC" "ACME" "2024-01-03" "Buy"
            100%float 20%float "USD" (-2000)%float 0%float 0%float;
    mkTrade "T3" "ACME INC" "ACME" "2024-01-05" "Sell"
            sold 15%float "USD" 750%float 0%float 0%float ].

(** The same with a purchase booked in between whose quantity and price
    cells are blank: [parseTradeBlotter] reads both as 0. *)
Definition blankBuyTrades : list (Trade (num := float)) :=
  [ mkTrade "T1" "ACME INC" "ACME" "2024-01-02" "Buy"
            100%float 10%float "USD" (-1000)%float 0%float 0%float;
    mkTrade "T1b" "ACME INC" "ACME" "2024-01-02" "Buy"
            0%float 0%float "USD" 0%float 0%float 0%float;
    mkTrade "T2" "ACME INC" "ACME" "2024-01-03" "Buy"
            100%float 20%float "USD" (-2000)%float 0%float 0%float;
    mkTrade "T3" "ACME INC" "ACME" "2024-01-05" "Sell"
            50%float 15%float "USD" 750%float 0%float 0%float ].

(** Two tickers bought on consecutive days. *)
Definition twoTickerTrades : list (Trade (num := float)) :=
  [ mkTrade "T1" "ZETA CORP" "ZETA" "2024-01-02" "Buy"
            10%float 5%float "USD" (-50)%float 0%float 0%float;
    mkTrade "T2" "ACME INC" "ACME" "2024-01-03" "Buy"
            100%float 10%float "USD" (-1000)%float 0%float 0%float ].

(** One share bought at 1 and held on three days, the AUM being 1000 on
    each. *)
Definition oneShareTrades : list (Trade (num := float)) :=
  [ mkTrade "T1" "ACME INC" "ACME" "2024-01-02" "Buy"
            1%float 1%float "USD" (-1)%float 0%float 0%float ].

Definition threeDays : list string := ["2024-01-02"; "2024-01-03"; "2024-01-04"].

Definition threeDaysAum : list (string * float) :=
  [("2024-01-02", 1000%float); ("2024-01-03", 1000%float); ("2024-01-04", 1000%float)].

Definition hifoDates : list string := ["2024-01-02"; "2024-01-03"; "2024-01-05"].



(** A round trip: 100 shares bought at 10 and sold at 15, no fees. *)
Definition roundTripTrades : list (Trade (num := float)) :=
  [ mkTrade "T1" "ACME INC" "ACME" "2024-01-02" "Buy"
            100%float 10%float "USD" (-1000)%float 0%float 0%float;
    mkTrade "T2" "ACME INC" "ACME" "2024-01-05" "Sell"
            100%float 15%float "USD" 1500%float 0%float 0%float ].

(** * Data of the examples of the history sheet *)

(** The runtime of these examples.  They hold numbers in number cells and
    dates in ISO form, so of the runtime they use [stringToISODate], on ISO
    dates only, and the three patterns, on strings none of them matches. *)
Definition exampleRuntime : JsRuntime Q :=
  {| parseFloat := fun _ => 0%Q;
     numberToString := fun _ => "";
     serialToISODate := fun _ => "";
     stringToISODate := fun s => match isoTime s with Some _ => Some s | None => None end;
     optOccRe := fun _ => false;
     callPutWordRe := fun _ => false;
     strikeCpRe := fun _ => false |}.

Definition historyLine (date tick desc : string) (qty px mv : Q) : SheetRow (num := Q) :=
  [ ("Date", CString date); ("Ticker", CString tick); ("Description", CString desc);
    ("Quantity", CNumber qty); ("Market Price", CNumber px); ("Market Value", CNumber mv) ].

(** Two tickers on the first day; on the second day ACME is listed twice. *)
Definition exampleSheet : list (SheetRow (num := Q)) :=
  [ historyLine "2024-01-02" "ACME" "ACME INC" 100%Q 10%Q 1000%Q;
    historyLine "2024-01-02" "BETA" "BETA CORP" 50%Q 20%Q 1000%Q;
    historyLine "2024-01-03" "ACME" "ACME INC" 100%Q 11%Q 1100%Q;
    historyLine "2024-01-03" "ACME" "ACME INC" 100%Q 12%Q 1200%Q ].

(** ARGX on one day: 100 ADR shares at 50 dollars and 100 ordinary shares at
    40 euros. *)
Definition argxSheet : list (SheetRow (num := Q)) :=
  [ historyLine "2024-01-02" "ARGX" "ARGENX SE ADR" 100%Q 50%Q 5000%Q;
    historyLine "2024-01-02" "ARGX" "ARGENX SE ORD" 100%Q 40%Q 4000%Q ].


(** An ARGX entry of quantity 0 and a purchase of ACME. *)
Definition zeroArgxEntry : list (Trade (num := float)) :=
  [ mkTrade "T1" "ARGENX SE ADR" "ARGX" "2024-01-02" "Buy"
            0%float 50%float "USD" 0%float 0%float 0%float;
    mkTrade "T2" "ACME INC" "ACME" "2024-01-03" "Buy"
            100%float 10%float "USD" (-1000)%float 0%float 0%float ].

(** * Properties *)

(** ** Transaction types *)

Lemma inList_buy (ty : string) :
  inList ty BUY_TYPES = true ->
  ty = "Buy" \/ ty = "Cover" \/ ty = "Stock Dividend" \/ ty = "Pair-off".
Proof.
  unfold inList, BUY_TYPES; cbn [existsb].
  rewrite !orb_true_iff, !String.eqb_eq. intuition congruence.
Qed.

Lemma inList_sell (ty : string) :
  inList ty SELL_TYPES = true -> ty = "Sell" \/ ty = "Short".
Proof.
  unfold inList, SELL_TYPES; cbn [existsb].
  rewrite !orb_true_iff, !String.eqb_eq. intuition congruence.
Qed.

Lemma sell_not_buy (ty : string) :
  inList ty SELL_TYPES = true -> inList ty BUY_TYPES = false.
Proof. intros [-> | ->]%inList_sell; reflexivity. Qed.

Lemma eqb_false_ne (a b : string) : String.eqb a b = false <-> a <> b.
Proof. by rewrite <- not_true_iff_false, String.eqb_eq. Qed.

Lemma nonEmpty_true (s : string) : nonEmpty s = true <-> s <> "".
Proof. unfold nonEmpty. by rewrite negb_true_iff, eqb_false_ne. Qed.

Lemma tracked_true (t : string) :
  tracked t = true <-> t <> "" /\ inheritedKey t = false.
Proof. unfold tracked. by rewrite andb_true_iff, nonEmpty_true, negb_true_iff. Qed.

(** ** Sorting *)

Section SortFacts.
Context {A : Type} (after : A -> A -> bool).

Lemma insertBy_Permutation (x : A) (l : list A) :
  Permutation (insertBy after x l) (x :: l).
Proof.
  induction l as [|y r IH]; cbn; [reflexivity|].
  destruct (after x y); [|reflexivity].
  rewrite IH. apply perm_swap.
Qed.

Lemma sortBy_Permutation (l : list A) : Permutation (sortBy after l) l.
Proof.
  induction l as [|x r IH]; cbn; [reflexivity|].
  rewrite insertBy_Permutation. by constructor.
Qed.

(** The comparator is consistent on the elements that satisfy [P]. *)
Variable P : A -> Prop.
Hypothesis after_asym :
  forall x y, P x -> P y -> after x y = true -> after y x = false.
Hypothesis notAfter_trans :
  forall x y z, P x -> P y -> P z ->
                notAfter after x y -> notAfter after y z -> notAfter after x z.

Lemma insertBy_sorted (x : A) (l : list A) :
  P x -> Forall P l ->
  StronglySorted (notAfter after) l -> StronglySorted (notAfter after) (insertBy after x l).
Proof using after_asym notAfter_trans.
  intros Px Pl Hs. induction Hs as [|y r Hr IH Hy]; cbn; [repeat constructor|].
  apply Forall_cons in Pl as [Py Pr].
  destruct (after x y) eqn:E.
  - constructor; [by apply IH|].
    rewrite Forall_forall. intros z Hz.
    rewrite insertBy_Permutation in Hz.
    apply elem_of_cons in Hz as [->|Hz]; [by apply after_asym|].
    rewrite Forall_forall in Hy. by apply Hy.
  - constructor; [by constructor|].
    constructor; [exact E|].
    rewrite Forall_forall in Hy, Pr |- *. intros z Hz.
    eapply (notAfter_trans x y z); auto.
Qed.

Lemma sortBy_sorted (l : list A) :
  Forall P l -> StronglySorted (notAfter after) (sortBy after l).
Proof using after_asym notAfter_trans.
  induction 1 as [|x r Px Pr IH]; cbn; [constructor|].
  apply insertBy_sorted; [done| |done].
  rewrite Forall_forall in Pr |- *. intros y Hy. apply Pr.
  by rewrite sortBy_Permutation in Hy.
Qed.

End SortFacts.

Lemma StronglySorted_mono {A : Type} (R R' : A -> A -> Prop) (l : list A) :
  (forall a b, R a b -> R' a b) -> StronglySorted R l -> StronglySorted R' l.
Proof.
  intros HR. induction 1 as [|x r Hr IH Hx]; constructor; [exact IH|].
  eapply Forall_impl; [exact Hx|]. intros y. apply HR.
Qed.

(** ** Exact arithmetic *)

Lemma Qltb_true (a b : Q) : Qltb a b = true <-> (a < b)%Q.
Proof.
  unfold Qltb. rewrite negb_true_iff, <- not_true_iff_false, Qle_bool_iff.
  split; [apply Qnot_le_lt | apply Qlt_not_le].
Qed.

Lemma Qltb_false (a b : Q) : Qltb a b = false <-> (b <= a)%Q.
Proof. unfold Qltb. by rewrite negb_false_iff, Qle_bool_iff. Qed.

Lemma Qle_bool_false (a b : Q) : Qle_bool a b = false <-> (b < a)%Q.
Proof.
  rewrite <- not_true_iff_false, Qle_bool_iff.
  split; [apply Qnot_le_lt | apply Qlt_not_le].
Qed.

Section ExactLots.
Open Scope Q_scope.

Lemma fold_nadd_sumQ {A : Type} (f : A -> Q) (l : list A) (a : Q) :
  fold_left (fun acc x => nadd acc (f x)) l a == a + sumQ f l.
Proof.
  revert a; induction l as [|x r IH]; intros a; cbn.
  - lra.
  - rewrite IH. change (nadd a (f x)) with (Qred (a + f x)).
    rewrite Qred_correct. lra.
Qed.


Lemma totalLotCost_sumQ (ls : list QLot) :
  totalLotCost ls == sumQ totalCost ls.
Proof. unfold totalLotCost. rewrite fold_nadd_sumQ. cbn; lra. Qed.



(** The comparator of the sort orders lots by decreasing cost per share. *)
Lemma lotAfter_false (a b : QLot) :
  lotAfter a b = false <-> costPerShare b <= costPerShare a.
Proof.
  unfold lotAfter, ngtb; cbn. rewrite Qltb_false, Qred_correct. split; lra.
Qed.

Lemma lotAfter_true (a b : QLot) :
  lotAfter a b = true <-> costPerShare a < costPerShare b.
Proof.
  unfold lotAfter, ngtb; cbn. rewrite Qltb_true, Qred_correct. split; lra.
Qed.

Lemma sortLots_sorted (ls : list QLot) :
  StronglySorted (fun a b => costPerShare b <= costPerShare a) (sortBy lotAfter ls).
Proof.
  eapply StronglySorted_mono;
    [|apply (sortBy_sorted lotAfter (fun _ => True))].
  - intros a b. apply lotAfter_false.
  - intros a b _ _ Hab%lotAfter_true. apply lotAfter_false. lra.
  - unfold notAfter. intros a b c _ _ _ Hab%lotAfter_false Hbc%lotAfter_false.
    apply lotAfter_false. lra.
  - by apply Forall_forall.
Qed.

(** Once nothing is left to sell the loop leaves the array alone. *)
Lemma consumeLots_done (ls : list QLot) (q c : Q) :
  q <= 0 -> consumeLots ls q c = (ls, c).
Proof.
  intros Hq. destruct ls as [|l r]; [reflexivity|].
  cbn. assert (Qle_bool q 0 = true) as -> by by apply Qle_bool_iff.
  reflexivity.
Qed.

Lemma consumeLots_consumed (ls : list QLot) (q c : Q) :
  consumed ls q c (consumeLots ls q c).
Proof.
  revert q c; induction ls as [|l r IH]; intros q c.
  - cbn. apply (consumed_whole [] q c [] []); cbn; [done | by left | by left | lra].
  - cbn. destruct (Qle_bool q 0) eqn:Eq.
    + apply Qle_bool_iff in Eq.
      apply (consumed_whole _ q c [] (l :: r)); cbn; [done | by left | right; lra | lra].
    + apply Qle_bool_false in Eq.
      destruct (Qle_bool (lot_shares l) q) eqn:El.
      * apply Qle_bool_iff in El.
        specialize (IH (Qred (q - lot_shares l)) (Qred (c + totalCost l))).
        destruct (consumeLots r _ _) as [r' cost].
        assert (forall full : list QLot,
                   full = [] \/ sumQ lot_shares full <= Qred (q - lot_shares l) ->
                   l :: full = [] \/ sumQ lot_shares (l :: full) <= q) as Hcov.
        { intros full [->|Hf]; right; cbn; [lra|].
          rewrite Qred_correct in Hf. lra. }
        inversion IH as [full rest cost' -> Hfull Hstop Hcost
                        | full l' rest s cost' -> Hfull Hs Hlt Hcost]; subst.
        -- apply (consumed_whole _ q c (l :: full) rest); cbn [app map sumQ];
             [done|by apply Hcov| |].
           ++ destruct Hstop as [->|Hstop]; [by left|right].
              rewrite Qred_correct in Hstop. lra.
           ++ rewrite Hcost, Qred_correct. lra.
        -- apply (consumed_split _ q c (l :: full) l' rest s); cbn [app map sumQ];
             [done|by apply Hcov| |done|].
           ++ rewrite Hs, Qred_correct. lra.
           ++ rewrite Hcost, Qred_correct. lra.
      * apply Qle_bool_false in El.
        rewrite consumeLots_done by lra.
        apply (consumed_split _ q c [] l r q); cbn; [done|by left|lra|lra|].
        rewrite !Qred_correct. lra.
Qed.

End ExactLots.

Section ExactHifo.
Open Scope Q_scope.

(** In exact arithmetic, where every cost per share is a number, a sell-like
    trade takes the lots in descending order of cost per share: the sorted
    array is a permutation of the open lots in that order, a prefix of it is
    emptied, at most the next lot is split, and what is charged is the total
    cost of the emptied lots plus the sold part of the split lot at its cost
    per share.  With lots of 100 shares at 10 and at 20, in either order,
    selling 50 leaves 50 shares at 20 and 100 at 10 and charges 1000, in
    exact arithmetic and in binary64. *)
Lemma sellPos_takes_lots_in_cost_order :
  (forall (ps : PosState (num := Q)) (t : Trade),
      inList (txnType t) SELL_TYPES = true ->
      let sorted := sortBy lotAfter (lots ps) in
      Permutation sorted (lots ps) /\
      StronglySorted (fun a b => costPerShare b <= costPerShare a) sorted /\
      exists after cost,
        consumed sorted (quantity t) 0 (after, cost) /\
        lots (tradePos ps t) = List.filter lotOpen after /\
        st_realizedPnL (tradePos ps t) ==
          st_realizedPnL ps +
          (quantity t * price t - Qabs (commissions t) - Qabs (fees t) - cost)) /\
  (forall d1 d2 : string,
      let a := mkTaxLot d1 100 10 1000 in
      let b := mkTaxLot d2 100 20 2000 in
      sellLots [a; b] 50 = ([mkTaxLot d2 50 20 1000; a], 1000) /\
      sellLots [b; a] 50 = ([mkTaxLot d2 50 20 1000; a], 1000)) /\
  (forall d1 d2 : string,
      let a := mkTaxLot d1 100%float 10%float 1000%float in
      let b := mkTaxLot d2 100%float 20%float 2000%float in
      sellLots [a; b] 50%float = ([mkTaxLot d2 50%float 20%float 1000%float; a], 1000%float) /\
      sellLots [b; a] 50%float = ([mkTaxLot d2 50%float 20%float 1000%float; a], 1000%float)).
Proof.
  split; [|split; intros d1 d2; split; reflexivity].
  intros ps t Ht sorted.
  split; [apply sortBy_Permutation|].
  split; [apply sortLots_sorted|].
  pose proof (consumeLots_consumed sorted (quantity t) nzero) as Hc.
  unfold tradePos. rewrite (sell_not_buy _ Ht), Ht.
  unfold sellPos, sellLots. fold sorted.
  destruct (consumeLots sorted (quantity t) nzero) as [after cost] eqn:E.
  exists after, cost. split; [exact Hc|]. split; [reflexivity|].
  cbn. rewrite !Qred_correct. lra.
Qed.
End ExactHifo.

(** ** Lot conservation *)

Section ExactConservation.
Open Scope Q_scope.












End ExactConservation.

(** ** Association lists *)

Section AListFacts.
Context {V : Type}.
Implicit Types (m : list (string * V)) (k : string) (v : V).

Lemma aget_aset_eq m k v : aget (aset m k v) k = Some v.
Proof.
  induction m as [|[k' v'] r IH]; cbn; [by rewrite String.eqb_refl|].
  destruct (String.eqb k k') eqn:E; cbn; rewrite E; [done | exact IH].
Qed.

Lemma aget_aset_ne m k k' v : k <> k' -> aget (aset m k v) k' = aget m k'.
Proof.
  intros Hne. induction m as [|[k0 v0] r IH]; cbn.
  - destruct (String.eqb k' k) eqn:E; [|done].
    apply String.eqb_eq in E. congruence.
  - destruct (String.eqb k k0) eqn:E; cbn; [|by rewrite IH].
    apply String.eqb_eq in E; subst k0.
    destruct (String.eqb k' k) eqn:E'; [|done].
    apply String.eqb_eq in E'. congruence.
Qed.

Lemma aget_app_None m k v : aget m k = None -> aset m k v = m ++ [(k, v)].
Proof.
  induction m as [|[k' v'] r IH]; cbn; [done|].
  destruct (String.eqb k k'); [done|]. intros Hn. by rewrite IH.
Qed.

Lemma aget_Some_elem m k v : aget m k = Some v -> (k, v) ∈ m.
Proof.
  induction m as [|[k' v'] r IH]; cbn; [done|].
  destruct (String.eqb k k') eqn:E.
  - apply String.eqb_eq in E; subst. intros [= ->]. apply list_elem_of_here.
  - intros Hg. apply list_elem_of_further. by apply IH.
Qed.

Lemma aget_app m1 m2 k :
  aget (m1 ++ m2) k = match aget m1 k with Some v => Some v | None => aget m2 k end.
Proof.
  induction m1 as [|[k' v'] r IH]; cbn; [done|].
  by destruct (String.eqb k k').
Qed.

Lemma aget_map {W : Type} (f : string -> V -> W) m k :
  aget (map (fun kv => (kv.1, f kv.1 kv.2)) m) k = f k <$> aget m k.
Proof.
  induction m as [|[k' v'] r IH]; cbn; [done|].
  destruct (String.eqb k k') eqn:E; [|exact IH].
  apply String.eqb_eq in E; by subst.
Qed.

End AListFacts.

Lemma elem_of_map {A B : Type} (f : A -> B) (l : list A) (y : B) :
  y ∈ map f l <-> exists x, y = f x /\ x ∈ l.
Proof.
  rewrite list_elem_of_In, in_map_iff. split.
  - intros (x & <- & Hx). exists x. by rewrite list_elem_of_In.
  - intros (x & -> & Hx). exists x. by rewrite <- list_elem_of_In.
Qed.

(** ** The store: what a step may touch *)

Section Frame.
Context {num : Type} `{JsNumber num}.
Implicit Types (h : list (obj (num := num))) (cur l : loc).

Lemma frames_refl cur h : frames cur h h.
Proof. split; [lia|]. split; [done|]. intros l Hl; by left. Qed.

Lemma frames_trans cur h1 h2 h3 :
  frames cur h1 h2 -> frames cur h2 h3 -> frames cur h1 h3.
Proof.
  intros (L1 & K1 & N1) (L2 & K2 & N2). split; [lia|]. split.
  - intros l Hl Hn. rewrite K2; [by apply K1|lia|].
    intros Hlive. destruct (N1 l Hlive); [done|lia].
  - intros l Hl. destruct (N2 l Hl) as [Hl2|]; [|right; lia].
    destruct (N1 l Hl2); [by left|by right].
Qed.

Lemma wfHeap_lt h cur : wfHeap h cur -> cur < length h.
Proof. intros [[es He] _]. by eapply lookup_lt_Some. Qed.

Lemma entriesOf_eq h cur es : h !! cur = Some (OHoldings es) -> entriesOf h cur = es.
Proof. unfold entriesOf. by intros ->. Qed.

(** Writing a holding that [currentHoldings] lists. *)
Lemma write_holding h cur l v :
  wfHeap h cur -> l ∈ map snd (entriesOf h cur) ->
  let h' := <[l := OHolding v]> h in
  wfHeap h' cur /\ frames cur h h' /\ entriesOf h' cur = entriesOf h cur.
Proof.
  intros Hwf Hl h'. pose proof Hwf as [[es He] Hes].
  destruct (Hes l Hl) as [v0 Hv0].
  assert (l <> cur) as Hne by congruence.
  assert (h' !! cur = Some (OHoldings es)) as He'
    by (unfold h'; by rewrite list_lookup_insert_ne).
  assert (entriesOf h' cur = entriesOf h cur) as Hent
    by (by rewrite (entriesOf_eq _ _ _ He), (entriesOf_eq _ _ _ He')).
  split; [|split; [|done]].
  - split; [by exists es|]. rewrite Hent. intros l' Hl'.
    destruct (decide (l = l')) as [<-|Hll].
    + exists v. unfold h'. rewrite list_lookup_insert_eq; [done|].
      by eapply lookup_lt_Some.
    + unfold h'. rewrite list_lookup_insert_ne by done. by apply Hes.
  - split; [unfold h'; by rewrite length_insert|]. split.
    + intros l' _ Hn. unfold h'. apply list_lookup_insert_ne.
      intros ->. apply Hn. unfold live. by apply list_elem_of_further.
    + intros l'. unfold live. rewrite Hent. by left.
Qed.

Lemma ensureHolding_spec h cur t :
  wfHeap h cur ->
  let '(h', l) := ensureHolding h cur t in
  wfHeap h' cur /\ frames cur h h' /\ l ∈ map snd (entriesOf h' cur) /\
  aget (entriesOf h' cur) t = Some l.
Proof.
  intros Hwf. unfold ensureHolding.
  destruct (aget (entriesOf h cur) t) as [l|] eqn:Eg.
  - split; [done|]. split; [apply frames_refl|]. split; [|done].
    apply aget_Some_elem in Eg. apply elem_of_map. by exists (t, l).
  - pose proof Hwf as [[es He] Hes]. pose proof (wfHeap_lt _ _ Hwf) as Hlt.
    rewrite (entriesOf_eq _ _ _ He) in *.
    set (l := length h).
    set (h' := <[cur := OHoldings (es ++ [(t, l)])]> (h ++ [OHolding (mkHolding nzero nzero)])).
    assert (h' !! cur = Some (OHoldings (es ++ [(t, l)]))) as He'.
    { unfold h'. apply list_lookup_insert_eq. rewrite length_app. lia. }
    rewrite (entriesOf_eq _ _ _ He').
    assert (cur <> l) as Hcl by (unfold l; lia).
    split; [|split; [|split]].
    + split; [by eexists|]. rewrite (entriesOf_eq _ _ _ He').
      intros l'. rewrite map_app, elem_of_app. intros [Hl'|Hl'].
      * destruct (Hes l' Hl') as [v Hv]. exists v.
        assert (l' <> cur) by congruence.
        unfold h'. rewrite list_lookup_insert_ne by done.
        rewrite lookup_app_l; [done|]. by eapply lookup_lt_Some.
      * cbn in Hl'. apply list_elem_of_singleton in Hl' as ->.
        eexists. unfold h'. rewrite list_lookup_insert_ne by done.
        unfold l. by rewrite list_lookup_middle.
    + split; [unfold h'; rewrite length_insert, length_app; lia|]. split.
      * intros l' Hl' Hn. unfold h'.
        rewrite list_lookup_insert_ne.
        -- by apply lookup_app_l.
        -- intros ->. apply Hn. apply list_elem_of_here.
      * intros l'. unfold live. rewrite (entriesOf_eq _ _ _ He'), (entriesOf_eq _ _ _ He).
        rewrite map_app, !elem_of_cons, elem_of_app. cbn.
        rewrite list_elem_of_singleton. intros [->|[?| ->]]; [left; by left|left; by right|right].
        unfold l. lia.
    + rewrite map_app, elem_of_app. right. cbn. apply list_elem_of_here.
    + rewrite aget_app, Eg. cbn. by rewrite String.eqb_refl.
Qed.

Lemma applyTrade_frame allDates dateIdx pm (st : SimState) (trade : Trade) :
  wfHeap (heap st) (currentHoldings st) ->
  let st' := applyTrade allDates dateIdx pm st trade in
  wfHeap (heap st') (currentHoldings st') /\
  frames (currentHoldings st) (heap st) (heap st') /\
  currentHoldings st' = currentHoldings st /\
  portfolioHistory st' = portfolioHistory st.
Proof.
  intros Hwf. unfold applyTrade.
  destruct (tracked (ticker trade)); cbn; [|by auto using frames_refl].
  pose proof (ensureHolding_spec _ _ (ticker trade) Hwf) as He.
  destruct (ensureHolding _ _ _) as [h1 l]. destruct He as (Hwf1 & Hf1 & Hl & _).
  cbn.
  destruct (write_holding h1 _ l (tradeHolding (holdingAt h1 l) trade) Hwf1 Hl)
    as (Hwf2 & Hf2 & _).
  split; [done|]. split; [by eapply frames_trans|done].
Qed.

Lemma setPrice_frame h cur t p :
  wfHeap h cur -> wfHeap (setPrice h cur t p) cur /\ frames cur h (setPrice h cur t p).
Proof.
  intros Hwf. unfold setPrice.
  destruct (aget (entriesOf h cur) t) as [l|] eqn:Eg; [|by auto using frames_refl].
  assert (l ∈ map snd (entriesOf h cur)) as Hl.
  { apply aget_Some_elem in Eg. apply elem_of_map. by exists (t, l). }
  by destruct (write_holding h cur l
    {| h_shares := h_shares (holdingAt h l); h_price := p |} Hwf Hl) as (? & ? & _).
Qed.

Lemma applyPrices_frame h cur pm date :
  wfHeap h cur ->
  wfHeap (applyPrices h cur pm date) cur /\ frames cur h (applyPrices h cur pm date).
Proof.
  intros Hwf. unfold applyPrices.
  destruct (aget pm date) as [m|]; [|by auto using frames_refl].
  revert h Hwf. induction m as [|[t p] r IH]; intros h Hwf; cbn.
  - by auto using frames_refl.
  - destruct (setPrice_frame h cur t p Hwf) as [Hwf1 Hf1].
    destruct (IH _ Hwf1) as [Hwf2 Hf2].
    split; [done | by eapply frames_trans].
Qed.

(** The copy made by [copyEntries]: old objects are kept, and the new entries
    read as the old ones did in [src]. *)
Lemma copyEntries_spec (src : list obj) es : forall h h' es',
  copyEntries h src es = (h', es') ->
  length h' = length h + length es /\
  (forall l, l < length h -> h' !! l = h !! l) /\
  map (fun kv => (kv.1, holdingAt h' kv.2)) es'
    = map (fun kv => (kv.1, holdingAt src kv.2)) es /\
  Forall (fun kv => length h <= kv.2 < length h') es'.
Proof.
  induction es as [|[k l] r IH]; intros h h' es'; cbn.
  - intros [= <- <-]. cbn. split; [lia|]. by repeat split.
  - destruct (copyEntries _ src r) as [h1 r'] eqn:E. intros [= <- <-].
    destruct (IH _ _ _ E) as (Hlen & Hkeep & Hread & Hrange).
    rewrite length_app in Hlen, Hkeep, Hrange. cbn in Hlen, Hkeep, Hrange.
    split; [lia|]. split; [|split].
    + intros l' Hl'. rewrite Hkeep by lia. by apply lookup_app_l.
    + cbn. f_equal; [|done]. f_equal. unfold holdingAt at 1.
      rewrite Hkeep by lia. by rewrite list_lookup_middle.
    + constructor; [cbn; lia|].
      eapply Forall_impl; [exact Hrange|]. cbn. intros; lia.
Qed.

Lemma live_lt h cur l : wfHeap h cur -> l ∈ live h cur -> l < length h.
Proof.
  intros Hwf. unfold live. rewrite elem_of_cons. intros [->|Hl].
  - by apply wfHeap_lt.
  - destruct Hwf as [_ Hes]. destruct (Hes l Hl) as [v Hv]. by eapply lookup_lt_Some.
Qed.

Lemma jsonClone_spec h cur :
  wfHeap h cur ->
  let '(h', snap) := jsonClone h cur in
  wfHeap h' cur /\ frames cur h h' /\ frozenSnap h' cur snap /\
  readHoldings h' snap = readHoldings h cur /\ readHoldings h' cur = readHoldings h cur.
Proof.
  intros Hwf. unfold jsonClone.
  destruct (copyEntries h h (entriesOf h cur)) as [h1 es'] eqn:E.
  destruct (copyEntries_spec _ _ _ _ _ E) as (Hlen & Hkeep & Hread & Hrange).
  set (h' := h1 ++ [OHoldings es']).
  assert (forall l, l < length h -> h' !! l = h !! l) as Hkeep'.
  { intros l Hl. unfold h'. rewrite lookup_app_l by lia. by apply Hkeep. }
  pose proof (wfHeap_lt _ _ Hwf) as Hcur.
  assert (entriesOf h' cur = entriesOf h cur) as Hent
    by (unfold entriesOf; by rewrite Hkeep').
  assert (live h' cur = live h cur) as Hlive by (unfold live; by rewrite Hent).
  assert (entriesOf h' (length h1) = es') as Hsnap.
  { unfold entriesOf, h'. by rewrite list_lookup_middle. }
  assert (forall l, length h <= l -> l ∉ live h cur) as Hfresh.
  { intros l Hl Hin. apply (live_lt _ _ _ Hwf) in Hin. lia. }
  split; [|split; [|split; [|split]]].
  - destruct Hwf as [[es He] Hes]. split.
    + exists es. by rewrite Hkeep'.
    + rewrite Hent. intros l Hl. destruct (Hes l Hl) as [v Hv]. exists v.
      rewrite Hkeep'; [done|]. by eapply lookup_lt_Some.
  - split; [unfold h'; rewrite length_app; lia|]. split.
    + intros l Hl _. by apply Hkeep'.
    + intros l. rewrite Hlive. by left.
  - intros l Hl. unfold h' at 1. rewrite length_app; cbn [length]. rewrite Hlive.
    destruct Hl as [->|Hl].
    + split; [lia|]. apply Hfresh. lia.
    + rewrite Hsnap in Hl. apply elem_of_map in Hl as ([k l'] & -> & Hin).
      rewrite Forall_forall in Hrange. specialize (Hrange _ Hin). cbn in *.
      split; [lia|]. apply Hfresh. lia.
  - unfold readHoldings. rewrite Hsnap. rewrite <- Hread.
    apply map_ext_in. intros [k l] Hin%list_elem_of_In. cbn. f_equal.
    rewrite Forall_forall in Hrange. specialize (Hrange _ Hin). cbn in Hrange.
    unfold holdingAt, h'. by rewrite lookup_app_l by lia.
  - unfold readHoldings. rewrite Hent.
    apply map_ext_in. intros [k l] Hin%list_elem_of_In. cbn. f_equal.
    unfold holdingAt. rewrite Hkeep'; [done|].
    apply (live_lt _ cur _ Hwf). unfold live. apply list_elem_of_further.
    apply elem_of_map. by exists (k, l).
Qed.

(** A frozen snapshot stays frozen, and reads the same, across any frame. *)
Lemma frozenSnap_frames h h' cur snap :
  frames cur h h' -> frozenSnap h cur snap ->
  frozenSnap h' cur snap /\ readHoldings h' snap = readHoldings h snap.
Proof.
  intros (Hlen & Hkeep & Hnew) Hfz.
  assert (forall l, l = snap \/ l ∈ map snd (entriesOf h snap) -> h' !! l = h !! l) as Hsame.
  { intros l Hl. destruct (Hfz l Hl). by apply Hkeep. }
  assert (entriesOf h' snap = entriesOf h snap) as Hent.
  { unfold entriesOf. rewrite Hsame; [done | by left]. }
  split.
  - intros l Hl. rewrite Hent in Hl. destruct (Hfz l Hl) as [Hlt Hnl].
    split; [lia|]. intros Hin. destruct (Hnew l Hin); [done|lia].
  - unfold readHoldings. rewrite Hent.
    apply map_ext_in. intros [k l] Hin%list_elem_of_In. cbn. f_equal.
    unfold holdingAt. rewrite Hsame; [done|]. right.
    apply elem_of_map. by exists (k, l).
Qed.

End Frame.

Section Snapshots.
Context {num : Type} `{JsNumber num}.
Implicit Types (st : SimState (num := num)).

Lemma wfState_init : wfState initState.
Proof.
  split; [|constructor]. split; [by eexists|]. cbn. intros l Hl. inversion Hl.
Qed.

(** One step: the state stays well formed, the history only grows, and the
    snapshots already pushed read as before. *)
Lemma simStep_frame st st' :
  wfState st -> simStep st st' ->
  wfState st' /\
  currentHoldings st' = currentHoldings st /\
  portfolioHistory st `prefix_of` portfolioHistory st' /\
  forall snap, snap ∈ portfolioHistory st ->
               readHoldings (heap st') (ps_holdings snap)
               = readHoldings (heap st) (ps_holdings snap).
Proof.
  intros [Hwf Hfz] Hstep.
  assert (forall h', frames (currentHoldings st) (heap st) h' ->
            Forall (fun snap => frozenSnap h' (currentHoldings st) (ps_holdings snap))
                   (portfolioHistory st) /\
            forall snap, snap ∈ portfolioHistory st ->
               readHoldings h' (ps_holdings snap)
               = readHoldings (heap st) (ps_holdings snap)) as Hkeep.
  { intros h' Hf. split.
    - eapply Forall_impl; [exact Hfz|]. intros snap Hs.
      by destruct (frozenSnap_frames _ _ _ _ Hf Hs).
    - intros snap Hin. rewrite Forall_forall in Hfz.
      by destruct (frozenSnap_frames _ _ _ _ Hf (Hfz _ Hin)). }
  destruct Hstep as [allDates dateIdx pm st trade | pm date st | am date st].
  - destruct (applyTrade_frame allDates dateIdx pm st trade Hwf) as (Hwf' & Hf & Hc & Hp).
    destruct (Hkeep _ Hf) as [Hfz' Hread].
    split; [split; [done | by rewrite Hc, Hp]|].
    split; [done|]. split; [by rewrite Hp | done].
  - destruct (applyPrices_frame (heap st) (currentHoldings st) pm date Hwf) as [Hwf' Hf].
    destruct (Hkeep _ Hf) as [Hfz' Hread].
    split; [by split|]. by repeat split.
  - unfold snapshotStep.
    pose proof (jsonClone_spec (heap st) (currentHoldings st) Hwf) as Hc.
    destruct (jsonClone _ _) as [h' snap]. destruct Hc as (Hwf' & Hf & Hsnap & _).
    destruct (Hkeep _ Hf) as [Hfz' Hread].
    unfold wfState. cbn [heap currentHoldings portfolioHistory].
    split; [split; [done|]|].
    + apply Forall_app; split; [done|]. constructor; [done|constructor].
    + split; [done|]. split; [by apply prefix_app_r | done].
Qed.

Lemma simSteps_frame st st' :
  wfState st -> rtc simStep st st' ->
  wfState st' /\
  currentHoldings st' = currentHoldings st /\
  portfolioHistory st `prefix_of` portfolioHistory st' /\
  forall snap, snap ∈ portfolioHistory st ->
               readHoldings (heap st') (ps_holdings snap)
               = readHoldings (heap st) (ps_holdings snap).
Proof.
  intros Hwf Hsteps. induction Hsteps as [st|st st1 st' Hstep Hsteps IH].
  - split; [done|]. by repeat split.
  - destruct (simStep_frame _ _ Hwf Hstep) as (Hwf1 & Hc1 & Hp1 & Hr1).
    destruct (IH Hwf1) as (Hwf' & Hc' & Hp' & Hr').
    split; [done|]. split; [congruence|]. split; [by etrans|].
    intros snap Hin. rewrite Hr'; [by apply Hr1|].
    destruct Hp1 as [k ->]. apply elem_of_app. by left.
Qed.

(** The simulation is a sequence of such steps. *)
Lemma tradesStep_steps allDates trades pm i date st :
  rtc simStep st (tradesStep allDates trades pm i date st).
Proof.
  unfold tradesStep. generalize (default [] (aget (groupByDate trades) date)).
  intros ts. revert st. induction ts as [|t r IH]; intros st; cbn; [done|].
  eapply rtc_l; [apply step_trade | apply IH].
Qed.

Lemma simulateDay_steps allDates trades pm am st i date :
  rtc simStep st (simulateDay allDates trades pm am st i date).
Proof.
  unfold simulateDay.
  etrans; [apply tradesStep_steps|].
  eapply rtc_l; [apply step_prices|]. apply rtc_once, step_snapshot.
Qed.

Lemma simulateFrom_steps allDates trades pm am dates : forall i st,
  rtc simStep st (simulateFrom allDates trades pm am i dates st).
Proof.
  induction dates as [|d r IH]; intros i st; cbn; [done|].
  etrans; [apply simulateDay_steps | apply IH].
Qed.

End Snapshots.

Section Positions.
Context {num : Type} `{JsNumber num}.
Implicit Types (st : SimState (num := num)) (ps : PosState (num := num))
  (tr : Trade (num := num)).

Lemma sameCore_refl ps : sameCore ps ps.
Proof. done. Qed.

Lemma sameCore_trans ps1 ps2 ps3 : sameCore ps1 ps2 -> sameCore ps2 ps3 -> sameCore ps1 ps3.
Proof. intros (? & ? & ?) (? & ? & ?). repeat split; congruence. Qed.

Lemma tradePos_sameCore ps ps' tr :
  sameCore ps ps' -> sameCore (tradePos ps tr) (tradePos ps' tr).
Proof.
  intros (Hs & Hl & Hr). unfold tradePos.
  destruct (inList (txnType tr) BUY_TYPES).
  - unfold buyPos, sameCore; cbn. by rewrite Hs, Hl, Hr.
  - destruct (inList (txnType tr) SELL_TYPES); [|done].
    unfold sellPos. rewrite Hl. destruct (sellLots _ _) as [ls' cost].
    unfold sameCore; cbn. by rewrite Hs, Hr.
Qed.

Lemma dayMetrics_sameCore h cur date aum t ps :
  sameCore (dayMetrics h cur date aum t ps) ps.
Proof. done. Qed.

Lemma tickerTrades_app t (trs1 trs2 : list (Trade (num := num))) :
  tickerTrades t (trs1 ++ trs2) = tickerTrades t trs1 ++ tickerTrades t trs2.
Proof. apply List.filter_app. Qed.

Lemma posInv_init : posInv initState [].
Proof. intros t. cbn. done. Qed.

Lemma applyTrade_posInv allDates i pm st applied tr :
  posInv st applied -> posInv (applyTrade allDates i pm st tr) (applied ++ [tr]).
Proof.
  intros Hinv t. specialize (Hinv t). unfold applyTrade.
  rewrite tickerTrades_app. unfold tickerTrades at 2 4 6. cbn [List.filter].
  destruct (tracked (ticker tr)) eqn:Ene.
  - destruct (ensureHolding _ _ _) as [h1 l]. cbn [positionStates].
    destruct (String.eqb (ticker tr) t) eqn:Et.
    + apply String.eqb_eq in Et. subst t.
      rewrite aget_aset_eq. rewrite fold_left_app. cbn [fold_left].
      split; [done|]. split; [|by intros [_ ?]%app_eq_nil].
      apply tradePos_sameCore. unfold ensurePosState.
      destruct (aget (positionStates st) (ticker tr)) as [ps|].
      * by destruct Hinv as (_ & ? & _).
      * by rewrite Hinv.
    + apply eqb_false_ne in Et. rewrite aget_aset_ne by done.
      by rewrite app_nil_r.
  - cbn [positionStates].
    destruct (String.eqb (ticker tr) t) eqn:Et; [|by rewrite app_nil_r].
    apply String.eqb_eq in Et. subst t.
    destruct (aget (positionStates st) (ticker tr)) as [ps|].
    + destruct Hinv as (Ht & _). congruence.
    + intros Ht. congruence.
Qed.

Lemma tradesFold_posInv allDates i pm (trs : list Trade) : forall st applied,
  posInv st applied ->
  posInv (fold_left (applyTrade allDates i pm) trs st) (applied ++ trs).
Proof.
  induction trs as [|tr r IH]; intros st applied Hinv; cbn.
  - by rewrite app_nil_r.
  - rewrite (cons_middle tr applied r), app_assoc.
    apply IH. by apply applyTrade_posInv.
Qed.

Lemma pricesStep_posInv pm date st applied :
  posInv st applied -> posInv (pricesStep pm date st) applied.
Proof. done. Qed.

Lemma snapshotStep_posInv am date st applied :
  posInv st applied -> posInv (snapshotStep am date st) applied.
Proof.
  intros Hinv t. specialize (Hinv t). unfold snapshotStep.
  destruct (jsonClone _ _) as [h' snap]. cbn [positionStates].
  rewrite aget_map. destruct (aget (positionStates st) t) as [ps|]; cbn; [|done].
  destruct Hinv as (? & ? & ?). split; [done|]. split; [|done].
  eapply sameCore_trans; [apply dayMetrics_sameCore | done].
Qed.

Lemma simulateFrom_posInv allDates trades pm am dates : forall i st applied,
  posInv st applied ->
  posInv (simulateFrom allDates trades pm am i dates st)
         (applied ++ appliedTrades dates trades).
Proof.
  induction dates as [|d r IH]; intros i st applied Hinv; cbn.
  - by rewrite app_nil_r.
  - unfold appliedTrades. cbn [map concat]. rewrite app_assoc.
    apply IH. unfold simulateDay.
    apply snapshotStep_posInv, pricesStep_posInv.
    unfold tradesStep. by apply tradesFold_posInv.
Qed.

Lemma simulatePortfolio_posInv allDates trades pm am :
  posInv (simulatePortfolio allDates trades pm am) (appliedTrades allDates trades).
Proof. apply (simulateFrom_posInv _ _ _ _ _ 0 initState [] posInv_init). Qed.

End Positions.

Section Grouping.
Context {num : Type} `{JsNumber num}.
Implicit Types (st : SimState (num := num)) (ps : PosState (num := num))
  (tr : Trade (num := num)).

(** [tradesByDate[d] || []] holds the dated trades of [d], in blotter order. *)
Lemma groupByDate_lookup (trades : list (Trade (num := num))) (d : string) :
  default [] (aget (groupByDate trades) d)
  = if nonEmpty d then List.filter (onDate d) trades else [].
Proof.
  unfold groupByDate.
  enough (forall m : list (string * list (Trade (num := num))),
            default [] (aget (fold_left
              (fun m t => if nonEmpty (tradeDate t)
                          then aset m (tradeDate t)
                                 (default [] (aget m (tradeDate t)) ++ [t])
                          else m) trades m) d)
            = default [] (aget m d)
              ++ (if nonEmpty d then List.filter (onDate d) trades else [])) as Hgen.
  { rewrite Hgen. done. }
  induction trades as [|t r IH]; intros m; cbn [fold_left List.filter].
  - destruct (nonEmpty d); by rewrite app_nil_r.
  - rewrite IH. unfold onDate at 2.
    destruct (String.eqb (tradeDate t) d) eqn:E.
    + apply String.eqb_eq in E. subst d.
      destruct (nonEmpty (tradeDate t)); [|done].
      rewrite aget_aset_eq. cbn [default]. unfold id. by rewrite <- app_assoc.
    + apply eqb_false_ne in E.
      destruct (nonEmpty (tradeDate t)); [|done].
      by rewrite aget_aset_ne.
Qed.

Lemma appliedTrades_elem allDates trades tr :
  tr ∈ appliedTrades allDates trades <->
  tr ∈ trades /\ tradeDate tr <> "" /\ tradeDate tr ∈ allDates.
Proof.
  unfold appliedTrades. induction allDates as [|d r IH]; cbn [map concat].
  - split; [inversion 1|]. intros (_ & _ & Hd). inversion Hd.
  - rewrite elem_of_app, IH, groupByDate_lookup, elem_of_cons.
    destruct (nonEmpty d) eqn:Ed.
    + apply nonEmpty_true in Ed.
      rewrite list_elem_of_In, List.filter_In, <- list_elem_of_In.
      unfold onDate. rewrite String.eqb_eq. split.
      * intros [[? <-]|(? & ? & ?)]; repeat split; auto.
      * intros (? & ? & [->|?]); [left|right]; auto.
    + apply negb_false_iff, String.eqb_eq in Ed. subst d. split.
      * intros [Hx|(? & ? & ?)]; [inversion Hx|]. repeat split; auto.
      * intros (? & ? & [?|?]); [done|]. right; auto.
Qed.



Lemma finalizePositions_elem st trades lastMap firstMap t ps :
  aget (positionStates st) t = Some ps ->
  exists p, p ∈ finalizePositions st trades lastMap firstMap /\
            pos_ticker p = t /\ pos_shares p = st_shares ps.
Proof.
  intros Hg%aget_Some_elem. eexists. split.
  - unfold finalizePositions. apply elem_of_map. exists (t, ps). split; [reflexivity|done].
  - done.
Qed.

Lemma ensureHolding_value (h : list obj) cur t :
  cur < length h ->
  holdingAt (ensureHolding h cur t).1 (ensureHolding h cur t).2
  = match aget (entriesOf h cur) t with
    | Some l => holdingAt h l
    | None => mkHolding nzero nzero
    end.
Proof.
  intros Hlt. unfold ensureHolding.
  destruct (aget (entriesOf h cur) t) as [l|]; cbn; [done|].
  unfold holdingAt. rewrite list_lookup_insert_ne by lia.
  by rewrite list_lookup_middle.
Qed.


End Grouping.

(** ** Round trips *)

(** A position state opened by one buy-like trade of 100 shares at 10 and
    closed by one sell-like trade of 100 shares at 15, neither with fees or
    commissions, has a cumulative realized P&L of exactly 500 after the sale:
    bit for bit in binary64, and in exact arithmetic. *)
Lemma round_trip_on_position_state :
  (forall b s : Trade (num := float),
      inList (txnType b) BUY_TYPES = true -> feeless b 100%float 10%float ->
      inList (txnType s) SELL_TYPES = true -> feeless s 100%float 15%float ->
      st_realizedPnL (tradePos (tradePos newPosState b) s) = 500%float) /\
  (forall b s : Trade (num := Q),
      inList (txnType b) BUY_TYPES = true -> feeless b 100%Q 10%Q ->
      inList (txnType s) SELL_TYPES = true -> feeless s 100%Q 15%Q ->
      st_realizedPnL (tradePos (tradePos newPosState b) s) = 500%Q).
Proof.
  split; intros b s Hb Fb Hs Fs;
    destruct b, s; unfold feeless in *;
    cbn [txnType quantity price fees commissions] in *;
    destruct Fb as (-> & -> & -> & ->), Fs as (-> & -> & -> & ->);
    unfold tradePos; cbn [txnType];
    rewrite Hb, (sell_not_buy _ Hs), Hs; reflexivity.
Qed.

(** ** Snapshots *)

Section SnapshotClaims.
Context {num : Type} `{JsNumber num}.
Implicit Types (st : SimState (num := num)).

Lemma reachable_wf st : rtc simStep initState st -> wfState st.
Proof. intros Hr. by destruct (simSteps_frame _ _ wfState_init Hr). Qed.

(** What [snapshotStep] pushes. *)
Lemma snapshotStep_push am date st :
  wfState st ->
  exists snap,
    portfolioHistory (snapshotStep am date st) = portfolioHistory st ++ [snap] /\
    observe (snapshotStep am date st) snap
    = (date, readHoldings (heap st) (currentHoldings st), currentCash st,
       determineAum (heap st) (currentHoldings st) (currentCash st) am date).
Proof.
  intros [Hwf _]. unfold snapshotStep, observe.
  pose proof (jsonClone_spec (heap st) (currentHoldings st) Hwf) as Hc.
  destruct (jsonClone _ _) as [h' snap]. destruct Hc as (_ & _ & _ & Hread & _).
  eexists. split; [reflexivity|]. cbn. by rewrite Hread.
Qed.

(** C9.  The simulation is a sequence of steps (a trade, the prices of a
    day, a snapshot); the snapshot a step pushes reads as the running
    holdings and cash did at that moment; and whatever steps run afterwards,
    every snapshot pushed before keeps its place in [portfolioHistory] and
    its date, holdings entries, cash and AUM. *)
Theorem snapshots_are_independent_copies :
  (forall allDates trades pm am,
      rtc simStep initState (simulatePortfolio allDates trades pm am)) /\
  (forall st am date,
      rtc simStep initState st ->
      exists snap,
        portfolioHistory (snapshotStep am date st) = portfolioHistory st ++ [snap] /\
        observe (snapshotStep am date st) snap
        = (date, readHoldings (heap st) (currentHoldings st), currentCash st,
           determineAum (heap st) (currentHoldings st) (currentCash st) am date)) /\
  (forall st st',
      rtc simStep initState st -> rtc simStep st st' ->
      forall i snap,
        portfolioHistory st !! i = Some snap ->
        portfolioHistory st' !! i = Some snap /\
        observe st' snap = observe st snap).
Proof.
  split; [|split].
  - intros. apply simulateFrom_steps.
  - intros st am date Hr. by apply snapshotStep_push, reachable_wf.
  - intros st st' Hr Hsteps i snap Hi.
    destruct (simSteps_frame _ _ (reachable_wf _ Hr) Hsteps) as (_ & _ & [k Hk] & Hread).
    split.
    + rewrite Hk. by apply lookup_app_l_Some.
    + unfold observe. rewrite Hread; [done|]. by eapply list_elem_of_lookup_2.
Qed.

End SnapshotClaims.

Lemma snapshots_are_independent_copies_witness :
  let st := simulatePortfolio ["2024-01-02"] buyThenSell [] [] in
  let st' := simulateFrom ["2024-01-02"; "2024-01-03"] buyThenSell [] [] 1
               ["2024-01-03"] st in
  exists snap,
    portfolioHistory st !! 0 = Some snap /\
    portfolioHistory st' !! 0 = Some snap /\
    observe st' snap = observe st snap /\
    observe st snap
    = ("2024-01-02", [("ACME", mkHolding 100%float 10%float)], (-1000)%float, 0%float) /\
    readHoldings (heap st') (currentHoldings st')
    = [("ACME", mkHolding 60%float 12%float)].
Proof.
  intros st st'. eexists. split; [vm_compute; reflexivity|].
  pose proof (proj2 (proj2 snapshots_are_independent_copies) st st') as Hthm.
  destruct (Hthm (simulateFrom_steps _ _ _ _ _ _ _) (simulateFrom_steps _ _ _ _ _ _ _)
              0 _ eq_refl) as [Hi Hobs].
  split; [exact Hi|]. split; [exact Hobs|]. split; reflexivity.
Defined.

(** ** Trades of another type *)

Section OtherTypeClaims.
Context {num : Type} `{JsNumber num}.
Implicit Types (st : SimState (num := num)) (tr : Trade (num := num)).


End OtherTypeClaims.



(** ** The AUM of a day *)

Section AumClaims.
Context {num : Type} `{JsNumber num}.
Implicit Types (st : SimState (num := num)).

Lemma applyTrade_history allDates i pm st (tr : Trade) :
  portfolioHistory (applyTrade allDates i pm st tr) = portfolioHistory st.
Proof.
  unfold applyTrade. destruct (tracked (ticker tr)); [|done].
  by destruct (ensureHolding _ _ _).
Qed.

Lemma tradesStep_history allDates trades pm i date st :
  portfolioHistory (tradesStep allDates trades pm i date st) = portfolioHistory st.
Proof.
  unfold tradesStep. generalize (default [] (aget (groupByDate trades) date)).
  intros ts. revert st. induction ts as [|t r IH]; intros st; cbn; [done|].
  by rewrite IH, applyTrade_history.
Qed.

Lemma simulateDay_history allDates trades pm am st i d :
  wfState st ->
  let st' := simulateDay allDates trades pm am st i d in
  exists snap,
    portfolioHistory st' = portfolioHistory st ++ [snap] /\
    ps_date snap = d /\
    aumRule am (readHoldings (heap st') (ps_holdings snap)) snap.
Proof.
  intros Hwf st'. unfold st', simulateDay.
  set (st2 := pricesStep pm d (tradesStep allDates trades pm i d st)).
  assert (wfState st2) as Hwf2.
  { assert (rtc simStep st st2) as Hr.
    { etrans; [apply tradesStep_steps|]. apply rtc_once, step_prices. }
    by destruct (simSteps_frame _ _ Hwf Hr). }
  assert (portfolioHistory st2 = portfolioHistory st) as Hh
    by apply tradesStep_history.
  destruct (snapshotStep_push am d st2 Hwf2) as (snap & Hpush & Hobs).
  exists snap. rewrite Hpush, Hh. split; [done|].
  unfold observe in Hobs. injection Hobs as Hdate Hread Hcash Haum.
  split; [done|]. unfold aumRule. rewrite Hread, Hdate, Hcash, Haum.
  unfold determineAum. done.
Qed.

Lemma simulateFrom_history allDates trades pm am dates : forall i st,
  wfState st ->
  let st' := simulateFrom allDates trades pm am i dates st in
  exists snaps,
    portfolioHistory st' = portfolioHistory st ++ snaps /\
    map ps_date snaps = dates /\
    Forall (fun snap => aumRule am (readHoldings (heap st') (ps_holdings snap)) snap)
           snaps.
Proof.
  induction dates as [|d r IH]; intros i st Hwf; cbn.
  - exists []. by rewrite app_nil_r.
  - destruct (simulateDay_history allDates trades pm am st i d Hwf)
      as (snap & Hpush & Hdate & Hrule).
    set (st1 := simulateDay allDates trades pm am st i d) in *.
    assert (wfState st1) as Hwf1
      by by destruct (simSteps_frame _ _ Hwf (simulateDay_steps allDates trades pm am st i d)).
    destruct (IH (S i) st1 Hwf1) as (snaps & Hh & Hdates & Hrules).
    set (st' := simulateFrom allDates trades pm am (S i) r st1) in *.
    exists (snap :: snaps). rewrite Hh, Hpush, <- app_assoc.
    split; [done|]. split; [cbn; by rewrite Hdate, Hdates|].
    constructor; [|done].
    destruct (simSteps_frame _ _ Hwf1 (simulateFrom_steps allDates trades pm am r (S i) st1))
      as (_ & _ & _ & Hread).
    fold st' in Hread. rewrite Hread; [done|].
    rewrite Hpush. apply elem_of_app. right. apply list_elem_of_here.
Qed.

(** One snapshot per date of the timeline, in order. *)
Lemma simulatePortfolio_dates allDates trades pm am :
  map ps_date (portfolioHistory (simulatePortfolio allDates trades pm am)) = allDates.
Proof.
  destruct (simulateFrom_history allDates trades pm am allDates 0 initState wfState_init)
    as (snaps & Hh & Hdates & _).
  fold (simulatePortfolio allDates trades pm am) in Hh.
  cbn in Hh. by rewrite Hh.
Qed.

(** C4, amended.  There is one snapshot per date of the timeline, in order;
    its AUM is the history total of its date when that total is a non-zero
    number, and otherwise (no total, or a total of zero) the sum over the
    holdings it recorded of shares times last price, plus its cash. *)
Theorem aum_of_the_day allDates trades pm am :
  let st := simulatePortfolio allDates trades pm am in
  map ps_date (portfolioHistory st) = allDates /\
  forall snap,
    snap ∈ portfolioHistory st ->
    ps_aum snap
    = let fallback :=
        nadd (holdingsValue (readHoldings (heap st) (ps_holdings snap))) (ps_cash snap) in
      match aget am (ps_date snap) with
      | Some total => if nfalsy total then fallback else total
      | None => fallback
      end.
Proof.
  intros st.
  destruct (simulateFrom_history allDates trades pm am allDates 0 initState wfState_init)
    as (snaps & Hh & Hdates & Hrules).
  fold (simulatePortfolio allDates trades pm am) in Hh, Hrules. fold st in Hh, Hrules.
  cbn in Hh. rewrite Hh. split; [done|].
  intros snap Hin. rewrite Forall_forall in Hrules. by apply Hrules.
Qed.

End AumClaims.

(** Counterexample to C4 as stated: the history contributed a total for the
    date, namely 0, and the AUM of the day is 5000. *)
Lemma aum_ignores_zero_total :
  let am : AumMap := [("2024-01-02", 0%float)] in
  let st := simulatePortfolio ["2024-01-02"] depositThenBuy [] am in
  exists snap,
    portfolioHistory st !! 0 = Some snap /\
    aget am (ps_date snap) = Some 0%float /\
    ps_aum snap = 5000%float /\
    PrimFloat.eqb (ps_aum snap) 0%float = false.
Proof. eexists. split; [vm_compute; reflexivity|]. repeat split. Qed.

(** ** Materiality *)

Section MaterialityFacts.
Context {num : Type} `{JsNumber num}.

Lemma smallPosition_false (shares avgSize : num) :
  smallPosition shares avgSize = false <->
  ngeb avgSize none_ = true \/ ngtb (nabs shares) nheld_eps = true.
Proof.
  unfold smallPosition.
  destruct (ngeb avgSize none_), (ngtb (nabs shares) nheld_eps); cbn; intuition congruence.
Qed.

Lemma finalizePositions_flag (st : SimState) trades lastMap firstMap (p : Position) :
  p ∈ finalizePositions st trades lastMap firstMap ->
  isSmallPosition p = smallPosition (pos_shares p) (avgSizePercentAUM p).
Proof.
  unfold finalizePositions. intros ([t ps] & -> & _)%elem_of_map. reflexivity.
Qed.

End MaterialityFacts.

(** C6.  A finalized position is flagged significant (not small) exactly when
    its average size is at least 1.0 or the absolute value of its shares
    exceeds 0.00001, in any arithmetic; with an average size of exactly 1.0
    and no shares it is significant, in binary64 and in exact arithmetic. *)
Theorem materiality_flag :
  (forall (num : Type) (N : JsNumber num) (st : SimState (num := num))
          trades lastMap firstMap (p : Position),
      p ∈ finalizePositions st trades lastMap firstMap ->
      (isSmallPosition p = false <->
       ngeb (avgSizePercentAUM p) none_ = true \/
       ngtb (nabs (pos_shares p)) nheld_eps = true)) /\
  (forall (st : SimState (num := float)) trades lastMap firstMap (p : Position),
      p ∈ finalizePositions st trades lastMap firstMap ->
      avgSizePercentAUM p = 1%float -> pos_shares p = 0%float ->
      isSmallPosition p = false) /\
  (forall (st : SimState (num := Q)) trades lastMap firstMap (p : Position),
      p ∈ finalizePositions st trades lastMap firstMap ->
      avgSizePercentAUM p = 1%Q -> pos_shares p = 0%Q ->
      isSmallPosition p = false).
Proof.
  split; [|split].
  - intros num N st trades lastMap firstMap p Hp.
    rewrite (finalizePositions_flag _ _ _ _ _ Hp). apply smallPosition_false.
  - intros st trades lastMap firstMap p Hp Havg Hsh.
    by rewrite (finalizePositions_flag _ _ _ _ _ Hp), Havg, Hsh.
  - intros st trades lastMap firstMap p Hp Havg Hsh.
    by rewrite (finalizePositions_flag _ _ _ _ _ Hp), Havg, Hsh.
Qed.

Lemma materiality_flag_witness :
  let st := simulatePortfolio ["2024-01-02"; "2024-01-03"] onePercentRoundTrip []
              [("2024-01-02", 100%float); ("2024-01-03", 100%float)] in
  exists p,
    finalizePositions st onePercentRoundTrip [] [] = [p] /\
    avgSizePercentAUM p = 1%float /\ pos_shares p = 0%float /\
    isSmallPosition p = false.
Proof.
  intros st. eexists. split; [vm_compute; reflexivity|].
  split; [reflexivity|]. split; [reflexivity|].
  eapply (proj1 (proj2 materiality_flag) st onePercentRoundTrip [] []).
  - vm_compute. apply list_elem_of_here.
  - reflexivity.
  - reflexivity.
Defined.

(** ** The timeline *)

Lemma inList_true (x : string) (l : list string) : inList x l = true <-> x ∈ l.
Proof.
  unfold inList. rewrite existsb_exists. split.
  - intros (y & Hy & ->%String.eqb_eq). by apply list_elem_of_In.
  - intros Hx. exists x. split; [by apply list_elem_of_In | apply String.eqb_refl].
Qed.

Lemma fold_setAdd (l : list string) : forall s,
  NoDup s ->
  NoDup (fold_left setAdd l s) /\
  forall x, x ∈ fold_left setAdd l s <-> x ∈ s \/ x ∈ l.
Proof.
  induction l as [|y r IH]; intros s Hs; cbn.
  - split; [done|]. intros x. rewrite elem_of_nil. tauto.
  - assert (NoDup (setAdd s y) /\ forall x, x ∈ setAdd s y <-> x ∈ s \/ x = y) as [Hn He].
    { unfold setAdd. destruct (inList y s) eqn:E.
      - apply inList_true in E. split; [done|]. intros x. split; [tauto|].
        intros [?| ->]; done.
      - split.
        + apply NoDup_app. split; [done|]. split; [|apply NoDup_singleton].
          intros x Hx ->%list_elem_of_singleton.
          apply inList_true in Hx. congruence.
        + intros x. by rewrite elem_of_app, list_elem_of_singleton. }
    destruct (IH _ Hn) as [Hn' He']. split; [done|].
    intros x. rewrite He', He, elem_of_cons. tauto.
Qed.

Lemma newSet_spec (l : list string) :
  NoDup (newSet l) /\ forall x, x ∈ newSet l <-> x ∈ l.
Proof.
  destruct (fold_setAdd l [] (NoDup_nil_2 (A := string))) as [Hn He]. split; [done|].
  intros x. unfold newSet. rewrite He, elem_of_nil. tauto.
Qed.

Section TimelineFacts.
Context {num : Type} `{JsDate}.
Implicit Types (trades : list (Trade (num := num))) (histDates : list string).

(** The timeline holds each trade date and each history date once. *)
Lemma buildTimeline_elem trades histDates :
  NoDup (buildTimeline trades histDates) /\
  forall d, d ∈ buildTimeline trades histDates <->
            d ∈ map tradeDate trades \/ d ∈ histDates.
Proof.
  unfold buildTimeline. split.
  - rewrite sortBy_Permutation. apply newSet_spec.
  - intros d. rewrite sortBy_Permutation.
    rewrite (proj2 (newSet_spec _)), elem_of_app, (proj2 (newSet_spec _)). done.
Qed.

(** With valid dates only, it ascends in time. *)
Lemma buildTimeline_sorted trades histDates :
  Forall (fun d => is_Some (dateTime d)) (map tradeDate trades ++ histDates) ->
  StronglySorted
    (fun a b => exists ta tb, dateTime a = Some ta /\ dateTime b = Some tb /\ (ta <= tb)%Z)
    (buildTimeline trades histDates).
Proof.
  intros Hvalid. unfold buildTimeline.
  set (l := newSet (newSet (map tradeDate trades) ++ histDates)).
  assert (Forall (fun d => is_Some (dateTime d)) l) as Hl.
  { rewrite Forall_forall in Hvalid |- *. intros d Hd. apply Hvalid.
    unfold l in Hd. rewrite (proj2 (newSet_spec _)), elem_of_app,
      (proj2 (newSet_spec _)) in Hd. by apply elem_of_app. }
  assert (Forall (fun d => is_Some (dateTime d)) (sortBy dateAfter l)) as Hl'.
  { rewrite Forall_forall in Hl |- *. intros d Hd. apply Hl.
    by rewrite sortBy_Permutation in Hd. }
  assert (StronglySorted (notAfter dateAfter) (sortBy dateAfter l)) as Hs.
  { apply (sortBy_sorted dateAfter (fun d => is_Some (dateTime d))); [| |done].
    - intros x y [tx Hx] [ty Hy]. unfold dateAfter. rewrite Hx, Hy.
      rewrite !Z.ltb_lt, Z.ltb_ge. lia.
    - intros x y z [tx Hx] [ty Hy] [tz Hz]. unfold notAfter, dateAfter.
      rewrite Hx, Hy, Hz, !Z.ltb_ge. lia. }
  revert Hl'. induction Hs as [|a r Hr IH Ha]; intros Hv; constructor.
  - apply IH. by apply Forall_cons in Hv as [_ ?].
  - apply Forall_cons in Hv as [[ta Hta] Hv].
    rewrite Forall_forall in Ha, Hv |- *. intros b Hb.
    destruct (Hv b Hb) as [tb Htb]. exists ta, tb. split; [done|]. split; [done|].
    specialize (Ha b Hb). unfold notAfter, dateAfter in Ha.
    rewrite Hta, Htb, Z.ltb_ge in Ha. lia.
Qed.

(** A trade without a date puts the empty date on the timeline. *)
Lemma buildTimeline_undated trades histDates (t : Trade) :
  t ∈ trades -> tradeDate t = "" -> "" ∈ buildTimeline trades histDates.
Proof.
  intros Hin Hd. apply buildTimeline_elem. left.
  apply elem_of_map. exists t. by rewrite Hd.
Qed.

End TimelineFacts.

Section UndatedRow.
Context {num : Type} `{JsNumber num} `{JsRuntime num}.

(** A date cell that is empty, or holds text that is no date, parses to the
    empty string. *)
Lemma parseExcelDate_unparsable (c : cell) :
  c = CEmpty \/ (exists s, c = CString s /\ stringToISODate s = None) ->
  parseExcelDate c = "".
Proof.
  intros [->|(s & -> & Hs)]; cbn; [done|]. rewrite Hs. by destruct (nonEmpty s).
Qed.

End UndatedRow.

(** C7, the failing input.  Whatever the runtime, a blotter whose only row
    has no trade date yields a timeline with one date, the empty string, and
    one snapshot for it; the trade itself is never applied. *)
Theorem undated_row_reaches_timeline
    (rt : JsRuntime float) (dt : JsDate) (rnd : nat -> string) :
  let d := parseTradeData rnd [undatedRow] (mkHistoryData [] [] [] [] []) in
  map tradeDate (dd_trades d) = [""] /\
  buildTimeline (dd_trades d) [] = [""] /\
  map ps_date (dd_portfolioHistory d) = [""] /\
  positions d = [].
Proof.
  intros d.
  assert (exists t, dd_trades d = [t] /\ tradeDate t = "" /\ ticker t <> "ARGX")
    as (t & Ht & Hdate & Hticker).
  { unfold d, parseTradeData, parseTradeBlotter. cbn [dd_trades fold_left].
    unfold blotterRow, getUniqueTicker. cbn -[isOption consolidateArgxTrades].
    match goal with |- context [isOption ?a ?b] => destruct (isOption a b) end;
      vm_compute; eexists; (split; [reflexivity|]); split; try reflexivity; discriminate. }
  assert (buildTimeline (dd_trades d) [] = [""]) as Htl
    by (rewrite Ht; unfold buildTimeline; cbn; by rewrite Hdate).
  split; [by rewrite Ht; cbn; rewrite Hdate|]. split; [done|].
  unfold d, parseTradeData in *. cbn [dd_trades dd_portfolioHistory positions historyDates
    dailyPriceMap dailyAumMap lastHistoryDateMap firstHistoryDateMap] in *.
  rewrite Htl, Ht. split.
  - apply simulatePortfolio_dates.
  - unfold simulatePortfolio, simulateFrom, simulateDay, tradesStep. cbn [groupByDate fold_left].
    rewrite Hdate. reflexivity.
Qed.

Example isoTime_epoch : isoTime "1970-01-01" = Some 0%Z.
Proof. reflexivity. Qed.

Example isoTime_day : isoTime "2024-01-02" = Some 1704153600000%Z.
Proof. reflexivity. Qed.

Example isoTime_invalid : isoTime "" = None /\ isoTime "n/a" = None.
Proof. split; reflexivity. Qed.

(** Between two dated rows the undated one also breaks the order of the
    timeline, the comparator of the sort being NaN against the empty date:
    the day of 2024-01-03 is simulated before the day of 2024-01-01. *)
Lemma undated_row_breaks_order (rt : JsRuntime float) (rnd : nat -> string) :
  stringToISODate "2024-01-03" = Some "2024-01-03" ->
  stringToISODate "2024-01-01" = Some "2024-01-01" ->
  let rows := [datedRow "T0" "2024-01-03"; undatedRow; datedRow "T2" "2024-01-01"] in
  let d := parseTradeData (H1 := isoDate) rnd rows (mkHistoryData [] [] [] [] []) in
  map ps_date (dd_portfolioHistory d) = ["2024-01-03"; ""; "2024-01-01"].
Proof.
  intros H3 H1 rows d.
  assert (map tradeDate (dd_trades d) = ["2024-01-03"; ""; "2024-01-01"]) as Hd.
  { unfold d, parseTradeData, parseTradeBlotter, rows. cbn [dd_trades fold_left].
    unfold blotterRow, getUniqueTicker, parseExcelDate.
    cbn -[isOption consolidateArgxTrades stringToISODate].
    rewrite H3, H1.
    match goal with |- context [isOption ?a ?b] => destruct (isOption a b) end;
      vm_compute; reflexivity. }
  unfold d, parseTradeData in *. cbn [dd_trades dd_portfolioHistory historyDates] in *.
  rewrite simulatePortfolio_dates.
  unfold buildTimeline. rewrite Hd. reflexivity.
Qed.

(** ** Consolidation of the two share classes *)
Lemma append_String (c : ascii) (r x : string) :
  String.append (String c r) x = String c (String.append r x).
Proof. reflexivity. Qed.

Lemma splitPipe_key (d ty : string) :
  pipeFree d = true ->
  splitPipe (String.append d (String.append "|" ty)) = d :: splitPipe ty.
Proof.
  induction d as [|c r IH]; cbn [String.append splitPipe pipeFree].
  - intros _. reflexivity.
  - intros [Hc Hr]%andb_true_iff. apply negb_true_iff in Hc.
    rewrite append_String. cbn [splitPipe]. by rewrite Hc, (IH Hr).
Qed.

Lemma splitPipe_pipeFree (s : string) : pipeFree s = true -> splitPipe s = [s].
Proof.
  induction s as [|c r IH]; cbn [splitPipe pipeFree]; [done|].
  intros [Hc Hr]%andb_true_iff. apply negb_true_iff in Hc. rewrite Hc.
  by rewrite (IH Hr).
Qed.

Lemma key_inj (d1 d2 ty1 ty2 : string) :
  pipeFree d1 = true -> pipeFree d2 = true ->
  String.append d1 (String.append "|" ty1) = String.append d2 (String.append "|" ty2) ->
  d1 = d2 /\ ty1 = ty2.
Proof.
  intros H1 H2 E.
  assert (d1 :: splitPipe ty1 = d2 :: splitPipe ty2) as Es
    by by rewrite <- !splitPipe_key, E.
  injection Es as -> _. split; [done|].
  clear H1. induction d2 as [|c r IH]; [by injection E|].
  cbn [pipeFree] in H2. rewrite !append_String in E.
  apply andb_true_iff in H2 as [_ ?]. injection E. auto.
Qed.

Section GroupFacts.
Context {num : Type} `{JsNumber num}.
Implicit Types (ts : list (Trade (num := num))) (t : Trade (num := num)).

Lemma sumBy_snoc (f : Trade -> num) ts t :
  sumBy f (ts ++ [t]) = nadd (sumBy f ts) (f t).
Proof. unfold sumBy. by rewrite fold_left_app. Qed.

Lemma keyMembers_snoc key ts t :
  keyMembers key (ts ++ [t])
  = keyMembers key ts ++ (if String.eqb (groupKey t) key then [t] else []).
Proof. unfold keyMembers. by rewrite List.filter_app. Qed.

Lemma aget_keyed {V : Type} (f : string -> V) (keys : list string) (k : string) :
  aget (map (fun k => (k, f k)) keys) k = if inList k keys then Some (f k) else None.
Proof.
  induction keys as [|k' r IH]; cbn; [done|].
  destruct (String.eqb k k') eqn:E; cbn; [|exact IH].
  apply String.eqb_eq in E. by subst.
Qed.

Lemma aset_keyed {V : Type} (f g : string -> V) (keys : list string) (k : string) :
  NoDup keys -> inList k keys = true ->
  (forall k', k' ∈ keys -> k' <> k -> g k' = f k') ->
  aset (map (fun k => (k, f k)) keys) k (g k) = map (fun k => (k, g k)) keys.
Proof.
  induction keys as [|k' r IH]; [done|]. cbn [map aset]. intros Hnd Hin Hg.
  apply NoDup_cons in Hnd as [Hk' Hnd].
  destruct (String.eqb k k') eqn:E.
  - apply String.eqb_eq in E. subst k'. f_equal.
    apply map_ext_in. intros k2 Hk2%list_elem_of_In.
    f_equal. symmetry. apply Hg; [by apply list_elem_of_further | congruence].
  - unfold inList in Hin. cbn [existsb] in Hin. rewrite E in Hin. cbn [orb] in Hin.
    f_equal.
    + f_equal. symmetry. apply Hg; [apply list_elem_of_here|].
      intros ->. by rewrite String.eqb_refl in E.
    + apply IH; [done|done|].
      intros k'' Hk'' Hne. apply Hg; [by apply list_elem_of_further|done].
Qed.

Lemma newSet_snoc (l : list string) (x : string) :
  newSet (l ++ [x]) = setAdd (newSet l) x.
Proof. unfold newSet. by rewrite fold_left_app. Qed.

Lemma keyMembers_nil key ts :
  inList key (newSet (map groupKey ts)) = false -> keyMembers key ts = [].
Proof.
  intros Hk. unfold keyMembers.
  induction ts as [|t r IH] using rev_ind; [done|].
  rewrite map_app in Hk. cbn [map] in Hk. rewrite newSet_snoc in Hk.
  unfold setAdd in Hk.
  rewrite List.filter_app. cbn.
  destruct (inList (groupKey t) (newSet (map groupKey r))) eqn:E.
  - rewrite IH by done. destruct (String.eqb (groupKey t) key) eqn:Ek; [|done].
    apply String.eqb_eq in Ek. congruence.
  - assert (inList key (newSet (map groupKey r)) = false /\ groupKey t <> key) as [Hr Hne].
    { apply not_true_iff_false in Hk. rewrite inList_true, elem_of_app in Hk.
      split.
      - apply not_true_iff_false. rewrite inList_true. tauto.
      - intros Heq. apply Hk. right. rewrite <- Heq. apply list_elem_of_here. }
    rewrite IH by done. apply eqb_false_ne in Hne. by rewrite Hne.
Qed.

(** The grouping loop: one group per key, in order of first appearance,
    holding the trades of that key in blotter order and their folded sums. *)
Lemma groupArgx_spec ts :
  groupArgx ts = map (fun k => (k, groupOf k ts)) (newSet (map groupKey ts)).
Proof.
  induction ts as [|t r IH] using rev_ind; [done|].
  unfold groupArgx in *. rewrite fold_left_app. cbn [fold_left]. rewrite IH.
  rewrite map_app. cbn [map]. rewrite newSet_snoc.
  set (keys := newSet (map groupKey r)).
  pose proof (proj1 (newSet_spec (map groupKey r))) as Hnd. fold keys in Hnd.
  rewrite aget_keyed. unfold setAdd.
  destruct (inList (groupKey t) keys) eqn:E; cbn [default from_option].
  - unfold id.
    match goal with
    | |- aset _ _ ?v = _ => replace v with (groupOf (groupKey t) (r ++ [t]))
    end.
    + apply (aset_keyed (fun k => groupOf k r) (fun k => groupOf k (r ++ [t])));
        [done|done|].
      intros k' _ Hne. unfold groupOf. rewrite keyMembers_snoc.
      assert (String.eqb (groupKey t) k' = false) as -> by (apply eqb_false_ne; congruence).
      by rewrite app_nil_r.
    + unfold groupOf. rewrite keyMembers_snoc, String.eqb_refl.
      by rewrite !sumBy_snoc.
  - rewrite aget_app_None by (by rewrite aget_keyed, E).
    rewrite map_app. cbn [map]. f_equal.
    + apply map_ext_in. intros k' Hk'%list_elem_of_In. f_equal.
      unfold groupOf. rewrite keyMembers_snoc.
      assert (String.eqb (groupKey t) k' = false) as ->.
      { apply eqb_false_ne. intros <-. apply inList_true in Hk'. congruence. }
      by rewrite app_nil_r.
    + f_equal. f_equal. unfold groupOf. rewrite keyMembers_snoc, String.eqb_refl.
      rewrite (keyMembers_nil _ _ E). done.
Qed.

End GroupFacts.

Section Consolidation.
Context {num : Type} `{JsNumber num}.
Implicit Types (ts : list (Trade (num := num))) (t : Trade (num := num)).

Lemma splitPipe_cons (s : string) : exists w ws, splitPipe s = w :: ws.
Proof.
  induction s as [|c r (w & ws & IH)]; cbn [splitPipe]; [by eexists _, _|].
  destruct (Ascii.eqb c "|"); [by eexists _, _|]. rewrite IH. by eexists _, _.
Qed.

Lemma consolidatedArgx_spec ts :
  consolidatedArgx ts
  = omap (fun k => consolidatedTrade k (groupOf k (argxTrades ts)))
         (newSet (map groupKey (argxTrades ts))).
Proof.
  unfold consolidatedArgx. rewrite groupArgx_spec.
  induction (newSet (map groupKey (argxTrades ts))) as [|k r IH]; cbn; [done|].
  by rewrite IH.
Qed.

Lemma argxTrades_elem ts t :
  t ∈ argxTrades ts ->
  ticker t = "ARGX" /\ exists t0, t0 ∈ ts /\ tradeDate t = tradeDate t0.
Proof.
  unfold argxTrades. intros (t0 & -> & Hin)%elem_of_map.
  rewrite list_elem_of_In, List.filter_In, <- list_elem_of_In in Hin.
  destruct Hin as [Hin Ha]. unfold isArgx in Ha. apply String.eqb_eq in Ha.
  unfold convertArgx. destruct (isArgxOrd _ _); cbn; eauto.
Qed.

(** On trades with pipe-free dates the key stands for the date and the side. *)
Lemma groupKey_inGroup d ty t :
  pipeFree d = true -> pipeFree (tradeDate t) = true ->
  String.eqb (groupKey t) (String.append d (String.append "|" ty)) = inGroup d ty t.
Proof.
  intros Hd Ht. unfold inGroup, groupKey.
  destruct (String.eqb (tradeDate t) d) eqn:E1; cbn [andb].
  - apply String.eqb_eq in E1. rewrite E1.
    destruct (String.eqb (txnType t) ty) eqn:E2.
    + apply String.eqb_eq in E2. rewrite E2. apply String.eqb_refl.
    + apply eqb_false_ne. intros [_ ?]%key_inj; [|done|done].
      apply eqb_false_ne in E2. done.
  - apply eqb_false_ne. intros [? _]%key_inj; [|done|done].
    apply eqb_false_ne in E1. done.
Qed.

Lemma filter_omap_unique {A B : Type} (P : B -> bool) (f : A -> option B)
    (l : list A) (a : A) (b : B) :
  NoDup l -> a ∈ l -> f a = Some b -> P b = true ->
  (forall a' b', a' ∈ l -> a' <> a -> f a' = Some b' -> P b' = false) ->
  List.filter P (omap f l) = [b].
Proof.
  induction l as [|x r IH]; intros Hnd Hin Hfa Hb Hothers; [inversion Hin|].
  apply NoDup_cons in Hnd as [Hx Hnd]. cbn [omap list_omap].
  assert (forall r' : list A, (forall a', a' ∈ r' -> a' ∈ x :: r /\ a' <> a) ->
                              List.filter P (omap f r') = []) as Hnone.
  { induction r' as [|y r' IH']; intros Hr'; cbn; [done|].
    destruct (Hr' y (list_elem_of_here _ _)) as [Hy Hne].
    assert (List.filter P (omap f r') = []) as Hrest
      by (apply IH'; intros; apply Hr'; by apply list_elem_of_further).
    destruct (f y) as [b'|] eqn:Ey; [|done].
    cbn. by rewrite (Hothers y b' Hy Hne Ey). }
  apply elem_of_cons in Hin as [Heq|Hin].
  - subst x. rewrite Hfa. cbn. rewrite Hb. f_equal.
    apply Hnone. intros a' Ha'. split; [by apply list_elem_of_further|congruence].
  - assert (x <> a) by congruence.
    destruct (f x) as [b'|] eqn:Ex.
    + cbn. rewrite (Hothers x b' (list_elem_of_here _ _) ltac:(done) Ex).
      apply IH; try done. intros a' b2 Ha'. apply Hothers. by apply list_elem_of_further.
    + apply IH; try done. intros a' b2 Ha'. apply Hothers. by apply list_elem_of_further.
Qed.

End Consolidation.

Section ConsolidationClaim.
Context {num : Type} `{JsNumber num} `{JsDate}.
Implicit Types (ts : list (Trade (num := num))) (t : Trade (num := num)).

Lemma otherTrades_no_argx (P : Trade -> bool) ts :
  List.filter (fun x => isArgx x && P x) (otherTrades ts) = [].
Proof.
  unfold otherTrades. induction ts as [|t r IH]; cbn; [done|].
  destruct (isArgx t) eqn:E; cbn; [exact IH|]. rewrite E. exact IH.
Qed.

Lemma consolidated_group ts (d ty : string) :
  Forall (fun t => pipeFree (tradeDate t) = true) ts ->
  let members := List.filter (inGroup d ty) (argxTrades ts) in
  members <> [] ->
  ngtb (sumBy quantity members) nzero = true ->
  List.filter (fun x => isArgx x && inGroup d ty x) (consolidateArgxTrades ts)
  = [mergedTrade d ty members].
Proof.
  intros Hpf members Hne Hpos.
  set (argx := argxTrades ts) in *.
  set (key := String.append d (String.append "|" ty)).
  assert (forall t, t ∈ argx -> pipeFree (tradeDate t) = true) as Hpfa.
  { intros t (_ & t0 & Ht0 & ->)%argxTrades_elem.
    rewrite Forall_forall in Hpf. by apply Hpf. }
  assert (forall t, t ∈ members -> t ∈ argx /\ tradeDate t = d /\ txnType t = ty) as Hmem.
  { intros t Ht. unfold members in Ht.
    rewrite list_elem_of_In, List.filter_In, <- list_elem_of_In in Ht.
    destruct Ht as [Ht Hg]. unfold inGroup in Hg.
    apply andb_true_iff in Hg as [?%String.eqb_eq ?%String.eqb_eq]. done. }
  destruct members as [|base rest] eqn:Em; [done|].
  destruct (Hmem base (list_elem_of_here _ _)) as (Hbase & Hbd & Hbty).
  assert (pipeFree d = true) as Hd by (rewrite <- Hbd; by apply Hpfa).
  assert (keyMembers key argx = base :: rest) as Hkm.
  { rewrite <- Em. unfold keyMembers, members. apply List.filter_ext_in.
    intros t Ht%list_elem_of_In. apply groupKey_inGroup; [done | by apply Hpfa]. }
  (* the sort only permutes, so the filter may be taken before it *)
  enough (List.filter (fun x => isArgx x && inGroup d ty x)
            (otherTrades ts ++ consolidatedArgx ts)
          = [mergedTrade d ty (base :: rest)]) as Hpre.
  { unfold consolidateArgxTrades.
    assert (Permutation (List.filter (fun x => isArgx x && inGroup d ty x)
                           (sortBy tradeAfter (otherTrades ts ++ consolidatedArgx ts)))
                        [mergedTrade d ty (base :: rest)]) as Hp.
    { rewrite <- Hpre.
      assert (forall l1 l2 : list (Trade (num := num)), Permutation l1 l2 ->
                Permutation (List.filter (fun x => isArgx x && inGroup d ty x) l1)
                            (List.filter (fun x => isArgx x && inGroup d ty x) l2)) as Hf.
      { induction 1 as [|x l1 l2 _ IH|x y l|l1 l2 l3 _ IH1 _ IH2]; cbn.
        - done.
        - destruct (isArgx x && inGroup d ty x); [by constructor|done].
        - destruct (isArgx x && inGroup d ty x), (isArgx y && inGroup d ty y);
            try done; apply perm_swap.
        - by etrans. }
      apply Hf, sortBy_Permutation. }
    by apply Permutation_singleton_r in Hp. }
  rewrite List.filter_app.
  rewrite otherTrades_no_argx. cbn [app]. rewrite consolidatedArgx_spec. fold argx.
  apply (filter_omap_unique _ _ _ key).
  - apply newSet_spec.
  - apply newSet_spec. apply elem_of_map. exists base. split; [|done].
    unfold key, groupKey. by rewrite Hbd, Hbty.
  - unfold consolidatedTrade, groupOf. cbn [grp_shares grp_trades cashFlowUsd].
    rewrite Hkm, Hpos. unfold key. rewrite splitPipe_key by done.
    destruct (splitPipe_cons ty) as (w & ws & Hw). rewrite Hw. cbn [nth hd].
    unfold mergedTrade. rewrite Hw, Hbd, Hbty. reflexivity.
  - unfold mergedTrade, isArgx, inGroup. cbn [ticker tradeDate txnType].
    by rewrite !String.eqb_refl.
  - intros k x Hk Hkne Hx. unfold consolidatedTrade, groupOf in Hx.
    cbn [grp_shares grp_trades cashFlowUsd] in Hx.
    destruct (ngtb (sumBy quantity (keyMembers k argx)) nzero); [|discriminate Hx].
    destruct (keyMembers k argx) as [|b r] eqn:Ek; [discriminate Hx|].
    injection Hx as <-. unfold isArgx, inGroup. cbn [ticker tradeDate txnType].
    rewrite String.eqb_refl. cbn [andb]. fold (inGroup d ty b).
    assert (b ∈ keyMembers k argx) as Hb by (rewrite Ek; apply list_elem_of_here).
    unfold keyMembers in Hb.
    rewrite list_elem_of_In, List.filter_In, <- list_elem_of_In in Hb.
    destruct Hb as [Hb Hbk%String.eqb_eq].
    rewrite <- (groupKey_inGroup d ty b Hd (Hpfa _ Hb)).
    fold key. rewrite Hbk. by apply eqb_false_ne.
Qed.

End ConsolidationClaim.

(** C5.  For the trades of a date and a side whose converted ARGX trades have
    a positive share total, the consolidator emits exactly one ARGX trade of
    that date and side: quantity and fees, commissions and net proceeds are
    the sums over the group, the price is the summed notional (ordinary
    shares repriced at 1.17) over the summed shares, the identifier is
    composed from the date and the side.  Two same-day buys of 100 at 50 USD
    and 100 at 40 EUR give one trade of 200 at 48.4, in binary64 and in exact
    arithmetic. *)
Theorem argx_consolidation :
  (forall (num : Type) (N : JsNumber num) (D : JsDate)
          (ts : list (Trade (num := num))) (d ty : string),
      Forall (fun t => pipeFree (tradeDate t) = true) ts ->
      let members := List.filter (inGroup d ty) (argxTrades ts) in
      members <> [] ->
      ngtb (sumBy quantity members) nzero = true ->
      List.filter (fun x => isArgx x && inGroup d ty x) (consolidateArgxTrades ts)
      = [mergedTrade d ty members]) /\
  (forall D : JsDate,
      consolidateArgxTrades (twoClassBuys 100%float 50%float 40%float 0%float)
      = [ mkTrade "ARGX-CONS-2024-01-02-Buy" "ARGX ADR (merged USD)" "ARGX"
                  "2024-01-02" "Buy" 200%float 48.4%float "USD"
                  0%float 0%float 0%float ]) /\
  (forall D : JsDate,
      consolidateArgxTrades (twoClassBuys 100%Q 50%Q 40%Q 0%Q)
      = [ mkTrade "ARGX-CONS-2024-01-02-Buy" "ARGX ADR (merged USD)" "ARGX"
                  "2024-01-02" "Buy" 200%Q (242 # 5)%Q "USD" 0%Q 0%Q 0%Q ]).
Proof.
  split; [|split].
  - intros num N D ts d ty. apply consolidated_group.
  - intros D. reflexivity.
  - intros D. reflexivity.
Qed.

Lemma argx_consolidation_witness :
  let ts := twoClassBuys 100%float 50%float 40%float 0%float in
  List.filter (fun x => isArgx x && inGroup "2024-01-02" "Buy" x)
    (@consolidateArgxTrades float Float64 isoDate ts)
  = [mergedTrade "2024-01-02" "Buy"
       (List.filter (inGroup "2024-01-02" "Buy") (argxTrades ts))] /\
  price (mergedTrade "2024-01-02" "Buy"
           (List.filter (inGroup "2024-01-02" "Buy") (argxTrades ts)))
  = 48.4%float.
Proof.
  intros ts. split; [|reflexivity].
  apply (proj1 argx_consolidation float Float64 isoDate ts "2024-01-02" "Buy").
  - repeat constructor.
  - discriminate.
  - reflexivity.
Defined.

(** ** Determinism *)
Section Determinism.
Context {num : Type} `{JsNumber num} `{JsRuntime num} `{JsDate}.
Implicit Types (t : Trade (num := num)) (ts : list (Trade (num := num))).


Lemma sameButId_refl t : sameButId t t.
Proof. done. Qed.







(** *** The blotter *)



(** *** Consolidation *)







(** *** Simulation and finalization *)








(** With an identifier on every row no random number is drawn. *)
Lemma parseTradeBlotter_explicit rnd1 rnd2 (rows : list Row) :
  Forall (fun row => nonEmpty (explicitId (col_TradeId row)) = true) rows ->
  parseTradeBlotter rnd1 rows = parseTradeBlotter rnd2 rows.
Proof.
  intros Hall. unfold parseTradeBlotter. generalize (0, @nil (Trade (num := num))).
  induction Hall as [|row r Hrow _ IH]; intros acc; cbn [fold_left]; [done|].
  assert (blotterRow rnd1 acc row = blotterRow rnd2 acc row) as ->; [|apply IH].
  unfold blotterRow. rewrite Hrow. reflexivity.
Qed.

End Determinism.

Section DeterminismClaim.
Context {num : Type} `{JsNumber num} `{JsRuntime num} `{JsDate}.


(** When every row carries an identifier the two runs agree in full. *)
Lemma pipeline_identical_with_explicit_ids
    (rnd1 rnd2 : nat -> string) (rows : list Row) (hist : HistoryData) :
  Forall (fun row => nonEmpty (explicitId (col_TradeId row)) = true) rows ->
  parseTradeData rnd1 rows hist = parseTradeData rnd2 rows hist.
Proof.
  intros Hall. unfold parseTradeData.
  by rewrite (parseTradeBlotter_explicit rnd1 rnd2 rows Hall).
Qed.

End DeterminismClaim.

(** * Further properties of the engine *)

(** ** Holdings as values *)

Section AListMore.
Context {V : Type}.
Implicit Types (m : list (string * V)) (k : string) (v : V).

Lemma aset_snoc m k x v :
  aget m k = None -> aset (m ++ [(k, x)]) k v = m ++ [(k, v)].
Proof.
  induction m as [|[k' v'] r IH]; cbn.
  - by rewrite String.eqb_refl.
  - destruct (String.eqb k k'); [done|]. intros Hr. by rewrite IH.
Qed.

Lemma aset_keys m k v : map fst (aset m k v) = setAdd (map fst m) k.
Proof.
  unfold setAdd, inList. induction m as [|[k' v'] r IH]; cbn; [done|].
  destruct (String.eqb k k') eqn:E; cbn; [done|].
  rewrite IH. by destruct (existsb (String.eqb k) (map fst r)).
Qed.

Lemma aget_None_keys m k : aget m k = None <-> inList k (map fst m) = false.
Proof.
  unfold inList. induction m as [|[k' v'] r IH]; cbn; [done|].
  destruct (String.eqb k k'); cbn; [split; discriminate | exact IH].
Qed.

Lemma aset_Forall (P : V -> Prop) m k v :
  Forall P (map snd m) -> P v -> Forall P (map snd (aset m k v)).
Proof.
  intros Hm Hv. induction m as [|[k' v'] r IH]; cbn.
  - by constructor.
  - inversion Hm; subst. destruct (String.eqb k k'); cbn; constructor; auto.
Qed.

End AListMore.

Section Views.
Context {num : Type} `{JsNumber num}.
Implicit Types (h : list (obj (num := num))) (cur l : loc).
Implicit Types (st : SimState (num := num)).

Lemma aget_readHoldings h cur t :
  aget (readHoldings h cur) t = holdingAt h <$> aget (entriesOf h cur) t.
Proof.
  unfold readHoldings.
  exact (aget_map (fun _ l => holdingAt h l) (entriesOf h cur) t).
Qed.

(** Writing the holding of [t] is [aset] on the values read. *)
Lemma write_view h cur t l v :
  wfHeap h cur -> NoDup (map snd (entriesOf h cur)) ->
  aget (entriesOf h cur) t = Some l ->
  readHoldings (<[l := OHolding v]> h) cur = aset (readHoldings h cur) t v /\
  entriesOf (<[l := OHolding v]> h) cur = entriesOf h cur.
Proof.
  intros Hwf Hnd Hg.
  assert (l ∈ map snd (entriesOf h cur)) as Hl.
  { apply aget_Some_elem in Hg. apply elem_of_map. by exists (t, l). }
  destruct (write_holding h cur l v Hwf Hl) as (_ & _ & Hent).
  split; [|done]. unfold readHoldings. rewrite Hent.
  assert (l < length h) as Hlt.
  { destruct Hwf as [_ Hes]. destruct (Hes l Hl). by eapply lookup_lt_Some. }
  clear Hent Hl Hwf. revert Hnd Hg.
  generalize (entriesOf h cur). intros es.
  induction es as [|[k l0] r IH]; cbn; [done|].
  intros Hnd Hg. apply NoDup_cons in Hnd as [Hl0 Hnd].
  destruct (String.eqb t k) eqn:E.
  - injection Hg as ->. f_equal.
    + f_equal. unfold holdingAt. by rewrite list_lookup_insert_eq.
    + apply map_ext_in. intros [k' l'] Hin%list_elem_of_In. cbn. f_equal.
      unfold holdingAt. rewrite list_lookup_insert_ne; [done|].
      intros ->. apply Hl0. apply elem_of_map. by exists (k', l').
  - f_equal; [|by apply IH].
    f_equal. unfold holdingAt. rewrite list_lookup_insert_ne; [done|].
    intros ->. apply Hl0. apply aget_Some_elem in Hg.
    apply elem_of_map. by exists (t, l0).
Qed.

Lemma ensureHolding_view h cur t :
  wfHeap h cur -> NoDup (map snd (entriesOf h cur)) ->
  let '(h', l) := ensureHolding h cur t in
  NoDup (map snd (entriesOf h' cur)) /\
  aget (entriesOf h' cur) t = Some l /\
  holdingAt h' l = default noHolding (aget (readHoldings h cur) t) /\
  readHoldings h' cur
  = match aget (readHoldings h cur) t with
    | Some _ => readHoldings h cur
    | None => readHoldings h cur ++ [(t, noHolding)]
    end.
Proof.
  intros Hwf Hnd.
  pose proof (ensureHolding_spec h cur t Hwf) as Hspec.
  pose proof (ensureHolding_value h cur t (wfHeap_lt _ _ Hwf)) as Hval.
  rewrite aget_readHoldings. unfold ensureHolding in *.
  destruct (aget (entriesOf h cur) t) as [l|] eqn:Eg; cbn in *.
  - by rewrite Eg.
  - destruct Hspec as (Hwf' & _ & _ & Hg').
    pose proof Hwf as [[es He] Hes]. pose proof (wfHeap_lt _ _ Hwf) as Hlt.
    set (h' := <[cur := OHoldings (entriesOf h cur ++ [(t, length h)])]>
                 (h ++ [OHolding (mkHolding nzero nzero)])) in *.
    assert (entriesOf h' cur = entriesOf h cur ++ [(t, length h)]) as Hent.
    { apply entriesOf_eq. unfold h'. apply list_lookup_insert_eq.
      rewrite length_app. lia. }
    rewrite Hent. split; [|split; [|split]].
    + rewrite map_app. apply NoDup_app. split; [done|]. split.
      * intros l Hl. cbn. rewrite list_elem_of_singleton. intros ->.
        destruct (Hes _ Hl) as [v Hv]. apply lookup_lt_Some in Hv. lia.
      * cbn. apply NoDup_singleton.
    + by rewrite <- Hent.
    + done.
    + unfold readHoldings. rewrite Hent, map_app. cbn. f_equal.
      * apply map_ext_in. intros [k l] Hin%list_elem_of_In. cbn. f_equal.
        assert (l ∈ map snd (entriesOf h cur)) as Hl
          by (apply elem_of_map; by exists (k, l)).
        destruct (Hes _ Hl) as [v Hv].
        assert (l <> cur) by congruence.
        unfold holdingAt, h'. rewrite list_lookup_insert_ne by done.
        rewrite lookup_app_l; [done|]. by eapply lookup_lt_Some.
      * f_equal. f_equal. unfold holdingAt, h'.
        rewrite list_lookup_insert_ne by lia. by rewrite list_lookup_middle.
Qed.

Lemma applyTrade_view allDates i pm st tr :
  wfHeap (heap st) (currentHoldings st) -> distinctHoldings st ->
  let st' := applyTrade allDates i pm st tr in
  distinctHoldings st' /\ holdingsView st' = tradeView (holdingsView st) tr.
Proof.
  intros Hwf Hnd. unfold distinctHoldings, holdingsView, tradeView, applyTrade in *.
  destruct (tracked (ticker tr)) eqn:Ene; cbn; [|done].
  pose proof (ensureHolding_view _ _ (ticker tr) Hwf Hnd) as Hv.
  pose proof (ensureHolding_spec _ _ (ticker tr) Hwf) as Hs.
  destruct (ensureHolding _ _ _) as [h1 l]. cbn.
  destruct Hv as (Hnd1 & Hg1 & Hval & Hread). destruct Hs as (Hwf1 & _).
  destruct (write_view h1 _ (ticker tr) l (tradeHolding (holdingAt h1 l) tr) Hwf1 Hnd1 Hg1)
    as [Hw Hent].
  rewrite Hent, Hw, Hval, Hread. split; [done|].
  destruct (aget (readHoldings (heap st) (currentHoldings st)) (ticker tr)) eqn:Eg; cbn.
  - done.
  - rewrite aset_snoc by done. by rewrite aget_app_None.
Qed.

Lemma setPrice_view h cur t p :
  wfHeap h cur -> NoDup (map snd (entriesOf h cur)) ->
  entriesOf (setPrice h cur t p) cur = entriesOf h cur /\
  readHoldings (setPrice h cur t p) cur = priceView (readHoldings h cur) (t, p).
Proof.
  intros Hwf Hnd. unfold setPrice, priceView. cbn. rewrite aget_readHoldings.
  destruct (aget (entriesOf h cur) t) as [l|] eqn:Eg; cbn; [|done].
  destruct (write_view h cur t l {| h_shares := h_shares (holdingAt h l); h_price := p |}
              Hwf Hnd Eg) as [Hw Hent].
  by rewrite Hw, Hent.
Qed.

Lemma pricesStep_view pm date st :
  wfHeap (heap st) (currentHoldings st) -> distinctHoldings st ->
  distinctHoldings (pricesStep pm date st) /\
  holdingsView (pricesStep pm date st)
  = match aget pm date with
    | Some m => fold_left priceView m (holdingsView st)
    | None => holdingsView st
    end.
Proof.
  unfold distinctHoldings, holdingsView, pricesStep, applyPrices. cbn.
  destruct (aget pm date) as [m|]; [|done].
  generalize (heap st). intros h. revert h.
  induction m as [|[t p] r IH]; intros h Hwf Hnd; cbn; [done|].
  destruct (setPrice_view h (currentHoldings st) t p Hwf Hnd) as [Hent Hread].
  destruct (setPrice_frame h (currentHoldings st) t p Hwf) as [Hwf1 _].
  rewrite <- Hent in Hnd. destruct (IH _ Hwf1 Hnd) as [Hnd2 Hread2].
  split; [done|]. by rewrite Hread2, Hread.
Qed.

Lemma jsonClone_entries h cur :
  wfHeap h cur -> entriesOf (jsonClone h cur).1 cur = entriesOf h cur.
Proof.
  intros Hwf. unfold jsonClone.
  destruct (copyEntries h h (entriesOf h cur)) as [h1 es'] eqn:E.
  destruct (copyEntries_spec _ _ _ _ _ E) as (Hlen & Hkeep & _).
  cbn. unfold entriesOf at 1.
  pose proof (wfHeap_lt _ _ Hwf) as Hcur.
  rewrite lookup_app_l by lia. by rewrite Hkeep.
Qed.

Lemma snapshotStep_view am date st :
  wfState st -> distinctHoldings st ->
  distinctHoldings (snapshotStep am date st) /\
  holdingsView (snapshotStep am date st) = holdingsView st /\
  exists snap,
    portfolioHistory (snapshotStep am date st) = portfolioHistory st ++ [snap] /\
    ps_date snap = date /\ ps_cash snap = currentCash st /\
    readHoldings (heap (snapshotStep am date st)) (ps_holdings snap) = holdingsView st.
Proof.
  intros [Hwf Hfz] Hnd. unfold distinctHoldings, holdingsView, snapshotStep in *.
  pose proof (jsonClone_spec (heap st) (currentHoldings st) Hwf) as Hc.
  pose proof (jsonClone_entries (heap st) (currentHoldings st) Hwf) as He.
  destruct (jsonClone _ _) as [h' snap]. cbn in *.
  destruct Hc as (_ & _ & _ & Hsnap & Hcur).
  rewrite He. split; [done|]. split; [done|].
  eexists. split; [reflexivity|]. by cbn.
Qed.

End Views.

(** ** Cash *)

Section Cash.
Context {num : Type} `{JsNumber num}.
Implicit Types (st : SimState (num := num)).

Lemma applyTrade_cash allDates i pm st tr :
  currentCash (applyTrade allDates i pm st tr) = addProceeds (currentCash st) tr /\
  portfolioHistory (applyTrade allDates i pm st tr) = portfolioHistory st.
Proof.
  unfold applyTrade. destruct (tracked (ticker tr)); [|done].
  by destruct (ensureHolding _ _ _).
Qed.

Lemma tradesStep_cash allDates trades pm i date st :
  currentCash (tradesStep allDates trades pm i date st)
  = fold_left addProceeds (default [] (aget (groupByDate trades) date)) (currentCash st) /\
  portfolioHistory (tradesStep allDates trades pm i date st) = portfolioHistory st.
Proof.
  unfold tradesStep. generalize (default [] (aget (groupByDate trades) date)).
  intros ts. revert st. induction ts as [|t r IH]; intros st; cbn; [done|].
  destruct (IH (applyTrade allDates i pm st t)) as [-> ->].
  by destruct (applyTrade_cash allDates i pm st t) as [-> ->].
Qed.

Lemma simulateDay_cash allDates trades pm am st i date :
  let c := fold_left addProceeds (default [] (aget (groupByDate trades) date))
             (currentCash st) in
  let st' := simulateDay allDates trades pm am st i date in
  currentCash st' = c /\
  exists snap, portfolioHistory st' = portfolioHistory st ++ [snap] /\
               ps_date snap = date /\ ps_cash snap = c.
Proof.
  intros c st'. unfold st', simulateDay, snapshotStep.
  destruct (jsonClone _ _) as [h' l]. cbn.
  destruct (tradesStep_cash allDates trades pm i date st) as [-> ->].
  split; [done|]. eexists. split; [reflexivity|]. done.
Qed.

Lemma appliedTrades_cons d dates (trades : list (Trade (num := num))) :
  appliedTrades (d :: dates) trades
  = default [] (aget (groupByDate trades) d) ++ appliedTrades dates trades.
Proof. reflexivity. Qed.

Lemma simulateFrom_cash allDates trades pm am dates : forall i st,
  let st' := simulateFrom allDates trades pm am i dates st in
  currentCash st' = fold_left addProceeds (appliedTrades dates trades) (currentCash st) /\
  exists snaps,
    portfolioHistory st' = portfolioHistory st ++ snaps /\
    length snaps = length dates /\
    forall k snap,
      snaps !! k = Some snap ->
      ps_cash snap
      = fold_left addProceeds (appliedTrades (take (S k) dates) trades) (currentCash st).
Proof.
  induction dates as [|d r IH]; intros i st; cbn [simulateFrom].
  - split; [done|]. exists []. rewrite app_nil_r. by repeat split.
  - destruct (simulateDay_cash allDates trades pm am st i d) as (Hc & snap & Hp & _ & Hs).
    destruct (IH (S i) (simulateDay allDates trades pm am st i d))
      as (Hc' & snaps & Hp' & Hlen & Hk).
    cbn zeta. rewrite Hc', Hp', Hc, Hp, appliedTrades_cons, fold_left_app.
    split; [done|]. exists (snap :: snaps).
    split; [by rewrite <- app_assoc|]. split; [cbn; by rewrite Hlen|].
    intros [|k] s; cbn [lookup list_lookup take].
    + intros [= <-]. rewrite Hs, appliedTrades_cons. cbn.
      by rewrite app_nil_r.
    + intros Hs'. rewrite (Hk _ _ Hs'), Hc.
      by rewrite (appliedTrades_cons d), fold_left_app.
Qed.

End Cash.

(** X1.  Cash is the sum, from zero and in the order of application, of the
    net proceeds of the trades applied: at the end of the simulation over all
    the dated trades of the timeline, and in the snapshot of each date over
    the trades of the dates up to it.  Prices, the history and the ticker of
    a trade play no part. *)
Theorem cash_is_the_sum_of_net_proceeds :
  forall (num : Type) (N : JsNumber num) (allDates : list string)
         (trades : list (Trade (num := num))) (pm : PriceMap) (am : AumMap),
    let st := simulatePortfolio allDates trades pm am in
    currentCash st = sumBy netProceeds (appliedTrades allDates trades) /\
    length (portfolioHistory st) = length allDates /\
    forall k snap,
      portfolioHistory st !! k = Some snap ->
      ps_cash snap = sumBy netProceeds (appliedTrades (take (S k) allDates) trades).
Proof.
  intros num N allDates trades pm am st.
  destruct (simulateFrom_cash allDates trades pm am allDates 0 initState)
    as (Hc & snaps & Hp & Hlen & Hk).
  fold (simulatePortfolio allDates trades pm am) in Hc, Hp. fold st in Hc, Hp.
  cbn in Hp. rewrite Hp. split; [exact Hc|]. split; [done|]. exact Hk.
Qed.

(** ** The holdings of the snapshots *)

Section SnapshotViews.
Context {num : Type} `{JsNumber num}.
Implicit Types (st : SimState (num := num)).

Lemma distinct_init : distinctHoldings (initState (num := num)).
Proof. unfold distinctHoldings. cbn. constructor. Qed.

Lemma tradesStep_view allDates trades pm i date st :
  wfState st -> distinctHoldings st ->
  let st' := tradesStep allDates trades pm i date st in
  wfState st' /\ distinctHoldings st' /\
  holdingsView st'
  = fold_left tradeView (default [] (aget (groupByDate trades) date)) (holdingsView st).
Proof.
  unfold tradesStep. generalize (default [] (aget (groupByDate trades) date)).
  intros ts. revert st. induction ts as [|t r IH]; intros st Hwf Hnd; cbn; [done|].
  destruct (applyTrade_view allDates i pm st t (proj1 Hwf) Hnd) as [Hnd1 Hv1].
  destruct (simStep_frame _ _ Hwf (step_trade allDates i pm st t)) as [Hwf1 _].
  destruct (IH _ Hwf1 Hnd1) as (Hwf2 & Hnd2 & Hv2).
  split; [done|]. split; [done|]. by rewrite Hv2, Hv1.
Qed.

Lemma simulateDay_view allDates trades pm am st i date :
  wfState st -> distinctHoldings st ->
  let st' := simulateDay allDates trades pm am st i date in
  wfState st' /\ distinctHoldings st' /\
  holdingsView st' = dayView trades pm date (holdingsView st) /\
  exists snap,
    portfolioHistory st' = portfolioHistory st ++ [snap] /\
    ps_date snap = date /\
    readHoldings (heap st') (ps_holdings snap) = holdingsView st'.
Proof.
  intros Hwf Hnd. unfold simulateDay, dayView.
  destruct (tradesStep_view allDates trades pm i date st Hwf Hnd) as (Hwf1 & Hnd1 & Hv1).
  destruct (tradesStep_cash allDates trades pm i date st) as [_ Hp1].
  set (st1 := tradesStep allDates trades pm i date st) in *.
  destruct (pricesStep_view pm date st1 (proj1 Hwf1) Hnd1) as [Hnd2 Hv2].
  destruct (simStep_frame _ _ Hwf1 (step_prices pm date st1)) as [Hwf2 _].
  set (st2 := pricesStep pm date st1) in *.
  destruct (snapshotStep_view am date st2 Hwf2 Hnd2)
    as (Hnd3 & Hv3 & snap & Hp3 & Hd3 & _ & Hr3).
  destruct (simStep_frame _ _ Hwf2 (step_snapshot am date st2)) as [Hwf3 _].
  cbn zeta. split; [done|]. split; [done|].
  rewrite Hv3, Hv2, Hv1. split; [done|].
  exists snap. split; [rewrite Hp3; unfold st2; cbn; by rewrite Hp1|].
  split; [done|]. by rewrite Hr3, Hv2, Hv1.
Qed.

Lemma simulateFrom_views allDates trades pm am dates : forall i st,
  wfState st -> distinctHoldings st ->
  let st' := simulateFrom allDates trades pm am i dates st in
  wfState st' /\ distinctHoldings st' /\
  holdingsView st' = fold_left (fun v d => dayView trades pm d v) dates (holdingsView st) /\
  exists snaps,
    portfolioHistory st' = portfolioHistory st ++ snaps /\
    map ps_date snaps = dates /\
    map (fun snap => readHoldings (heap st') (ps_holdings snap)) snaps
    = viewsFrom trades pm dates (holdingsView st).
Proof.
  induction dates as [|d r IH]; intros i st Hwf Hnd; cbn [simulateFrom].
  - cbn. split; [done|]. split; [done|]. split; [done|].
    exists []. by rewrite app_nil_r.
  - destruct (simulateDay_view allDates trades pm am st i d Hwf Hnd)
      as (Hwf1 & Hnd1 & Hv1 & snap & Hp1 & Hd1 & Hr1).
    set (st1 := simulateDay allDates trades pm am st i d) in *.
    destruct (IH (S i) st1 Hwf1 Hnd1) as (Hwf2 & Hnd2 & Hv2 & snaps & Hp2 & Hd2 & Hr2).
    pose proof (simulateFrom_steps allDates trades pm am r (S i) st1) as Hsteps.
    destruct (simSteps_frame _ _ Hwf1 Hsteps) as (_ & _ & _ & Hread).
    cbn zeta. split; [done|]. split; [done|].
    split; [cbn [fold_left]; by rewrite Hv2, Hv1|].
    exists (snap :: snaps). split; [by rewrite Hp2, Hp1, <- app_assoc|].
    split; [cbn; by rewrite Hd1, Hd2|].
    cbn [map viewsFrom]. rewrite Hr2, Hv1. f_equal.
    rewrite Hread; [by rewrite Hr1|].
    rewrite Hp1. apply elem_of_app. right. apply list_elem_of_here.
Qed.

(** The snapshots of the whole simulation read as the value-level
    recursion computes. *)
Lemma simulatePortfolio_views allDates trades pm am :
  let st := simulatePortfolio allDates trades pm am in
  map (fun snap => readHoldings (heap st) (ps_holdings snap)) (portfolioHistory st)
  = viewsFrom trades pm allDates [] /\
  holdingsView st = fold_left (fun v d => dayView trades pm d v) allDates [] /\
  wfState st /\ distinctHoldings st.
Proof.
  destruct (simulateFrom_views allDates trades pm am allDates 0 initState
              wfState_init distinct_init) as (Hwf & Hnd & Hv & snaps & Hp & _ & Hr).
  fold (simulatePortfolio allDates trades pm am) in *.
  cbn zeta. cbn in Hp. rewrite Hp. split; [exact Hr|]. split; [exact Hv|].
  by split.
Qed.

End SnapshotViews.

(** ** Tickers *)

Section Keys.
Context {num : Type} `{JsNumber num}.
Implicit Types (st : SimState (num := num)) (v : list (string * Holding (num := num))).

(** The non-empty tickers of a list of trades, in order. *)
Lemma tickersOf_app (l1 l2 : list (Trade (num := num))) :
  tickersOf (l1 ++ l2) = tickersOf l1 ++ tickersOf l2.
Proof. unfold tickersOf. by rewrite map_app, List.filter_app. Qed.

Lemma tradeView_keys v (tr : Trade) :
  map fst (tradeView v tr) = fold_left setAdd (tickersOf [tr]) (map fst v).
Proof.
  unfold tradeView, tickersOf. cbn.
  destruct (tracked (ticker tr)); cbn; [apply aset_keys | done].
Qed.

Lemma priceView_keys v kv : map fst (priceView v kv) = map fst v.
Proof.
  unfold priceView. destruct (aget v kv.1) as [hd|] eqn:E; [|done].
  rewrite aset_keys. unfold setAdd.
  destruct (inList kv.1 (map fst v)) eqn:Ei; [done|].
  apply aget_None_keys in Ei. congruence.
Qed.

Lemma dayView_keys trades pm d v :
  map fst (dayView trades pm d v)
  = fold_left setAdd (tickersOf (default [] (aget (groupByDate trades) d))) (map fst v).
Proof.
  unfold dayView.
  assert (forall m v', map fst (fold_left priceView m v') = map fst v') as Hp.
  { induction m as [|kv r IH]; intros v'; cbn; [done|]. by rewrite IH, priceView_keys. }
  assert (forall ts v', map fst (fold_left tradeView ts v')
                        = fold_left setAdd (tickersOf ts) (map fst v')) as Ht.
  { induction ts as [|t r IH]; intros v'; cbn [fold_left]; [done|].
    rewrite IH, tradeView_keys. change (t :: r) with ([t] ++ r).
    by rewrite tickersOf_app, fold_left_app. }
  destruct (aget pm d); [rewrite Hp|]; apply Ht.
Qed.

Lemma viewsFrom_keys trades pm dates : forall v k w,
  viewsFrom trades pm dates v !! k = Some w ->
  map fst w
  = fold_left setAdd (tickersOf (appliedTrades (take (S k) dates) trades)) (map fst v).
Proof.
  induction dates as [|d r IH]; intros v k w; cbn [viewsFrom]; [done|].
  destruct k as [|k]; cbn [lookup list_lookup take].
  - intros [= <-]. rewrite dayView_keys, appliedTrades_cons. cbn. by rewrite app_nil_r.
  - intros Hk. rewrite (IH _ _ _ Hk), dayView_keys.
    by rewrite (appliedTrades_cons d), tickersOf_app, fold_left_app.
Qed.

Lemma applyTrade_posKeys allDates i pm st (tr : Trade) :
  map fst (positionStates (applyTrade allDates i pm st tr))
  = fold_left setAdd (tickersOf [tr]) (map fst (positionStates st)).
Proof.
  unfold applyTrade, tickersOf. cbn.
  destruct (tracked (ticker tr)); cbn; [|done].
  destruct (ensureHolding _ _ _). cbn. apply aset_keys.
Qed.

Lemma simulateDay_posKeys allDates trades pm am st i d :
  map fst (positionStates (simulateDay allDates trades pm am st i d))
  = fold_left setAdd (tickersOf (default [] (aget (groupByDate trades) d)))
      (map fst (positionStates st)).
Proof.
  unfold simulateDay, snapshotStep. destruct (jsonClone _ _). cbn.
  rewrite map_map. cbn. unfold tradesStep.
  generalize (default [] (aget (groupByDate trades) d)). intros ts. revert st.
  induction ts as [|t r IH]; intros st; cbn [fold_left]; [done|].
  rewrite IH, applyTrade_posKeys. change (t :: r) with ([t] ++ r).
  by rewrite tickersOf_app, fold_left_app.
Qed.

Lemma simulateFrom_posKeys allDates trades pm am dates : forall i st,
  map fst (positionStates (simulateFrom allDates trades pm am i dates st))
  = fold_left setAdd (tickersOf (appliedTrades dates trades)) (map fst (positionStates st)).
Proof.
  induction dates as [|d r IH]; intros i st; cbn [simulateFrom]; [done|].
  by rewrite IH, simulateDay_posKeys, appliedTrades_cons, tickersOf_app, fold_left_app.
Qed.

Lemma fold_setAdd_prefix (l s : list string) : s `prefix_of` fold_left setAdd l s.
Proof.
  revert s. induction l as [|x r IH]; intros s; cbn; [done|].
  etrans; [|apply IH]. unfold setAdd. destruct (inList x s); [done|].
  by apply prefix_app_r.
Qed.

Lemma appliedTrades_app (d1 d2 : list string) (trades : list (Trade (num := num))) :
  appliedTrades (d1 ++ d2) trades = appliedTrades d1 trades ++ appliedTrades d2 trades.
Proof. unfold appliedTrades. by rewrite map_app, concat_app. Qed.

End Keys.

Lemma elem_of_tickersOf {num : Type} `{JsNumber num} (ts : list (Trade (num := num)))
    (t : string) :
  t ∈ tickersOf ts <-> tracked t = true /\ exists tr, tr ∈ ts /\ ticker tr = t.
Proof.
  unfold tickersOf. rewrite list_elem_of_In, List.filter_In, <- list_elem_of_In.
  rewrite elem_of_map. split.
  - intros [(tr & -> & Hin) Hne]. split; [done|]. by exists tr.
  - intros [Hne (tr & Hin & <-)]. split; [|done]. by exists tr.
Qed.

(** X2.  The finalized positions, and the keys of the holdings object, are
    the tickers of the trades applied that are not empty and name no
    inherited property, each once: a ticker has a position exactly when it
    is such a ticker and one of its trades is dated with a date of the
    timeline.  When no ticker is an array index they are listed in the order
    of their first applied trade. *)
Theorem positions_list_the_tickers_traded :
  forall (num : Type) (N : JsNumber num) (allDates : list string)
         (trades : list (Trade (num := num))) (pm : PriceMap) (am : AumMap)
         (lastMap firstMap : list (string * string)),
    let st := simulatePortfolio allDates trades pm am in
    let tickers := newSet (tickersOf (appliedTrades allDates trades)) in
    (map pos_ticker (finalizePositions st trades lastMap firstMap) ≡ₚ tickers /\
     map fst (holdingsView st) ≡ₚ tickers /\
     NoDup tickers /\
     forall t, t ∈ tickers <->
               t <> "" /\ inheritedKey t = false /\
               exists tr, tr ∈ trades /\ ticker tr = t /\
                          tradeDate tr <> "" /\ tradeDate tr ∈ allDates) /\
    (Forall (fun tr => arrayIndex (ticker tr) = false) trades ->
     map pos_ticker (finalizePositions st trades lastMap firstMap) = tickers /\
     map fst (holdingsView st) = tickers).
Proof.
  intros num N allDates trades pm am lastMap firstMap st tickers.
  assert (map pos_ticker (finalizePositions st trades lastMap firstMap) = tickers) as Hp.
  { unfold finalizePositions. rewrite map_map. cbn.
    exact (simulateFrom_posKeys allDates trades pm am allDates 0 initState). }
  assert (map fst (holdingsView st) = tickers) as Hh.
  { destruct (simulatePortfolio_views allDates trades pm am) as (_ & Hv & _).
    fold st in Hv. rewrite Hv.
    assert (forall dates v,
              map fst (fold_left (fun v d => dayView trades pm d v) dates v)
              = fold_left setAdd (tickersOf (appliedTrades dates trades)) (map fst v)) as Hk.
    { induction dates as [|d r IH]; intros v; cbn [fold_left]; [done|].
      by rewrite IH, dayView_keys, appliedTrades_cons, tickersOf_app, fold_left_app. }
    apply Hk. }
  split; [|done].
  split; [by rewrite Hp|]. split; [by rewrite Hh|]. split; [apply newSet_spec|].
  intros t. unfold tickers.
  rewrite (proj2 (newSet_spec _)), elem_of_tickersOf, tracked_true. split.
  - intros [[Hne Hown] (tr & Hin & Ht)]. split; [done|]. split; [done|]. exists tr.
    apply appliedTrades_elem in Hin. tauto.
  - intros (Hne & Hown & tr & Hin & Ht & Hd & Hdin). split; [done|]. exists tr.
    split; [|done]. by apply appliedTrades_elem.
Qed.

Lemma positions_list_the_tickers_traded_witness :
  let dates := ["2024-01-02"; "2024-01-03"] in
  let st := simulatePortfolio dates twoTickerTrades [] [] in
  Forall (fun tr => arrayIndex (ticker tr) = false) twoTickerTrades /\
  map pos_ticker (finalizePositions st twoTickerTrades [] []) = ["ZETA"; "ACME"] /\
  map fst (holdingsView st) = ["ZETA"; "ACME"].
Proof.
  intros dates st.
  assert (Forall (fun tr => arrayIndex (ticker tr) = false) twoTickerTrades) as Hidx
    by (repeat constructor).
  split; [exact Hidx|].
  exact (proj2 (positions_list_the_tickers_traded float _ dates twoTickerTrades [] [] [] [])
           Hidx).
Defined.

(** X3.  A ticker never leaves the holdings, also when the shares held went
    back to zero: the tickers a snapshot lists are those of the trades
    applied up to its date (the tickers that are not empty and name no
    inherited property), so an earlier snapshot lists no ticker that a later
    one lacks.  When no ticker is an array index they are listed in the
    order of their first trade, and the list of an earlier snapshot is a
    prefix of the list of a later one. *)
Theorem snapshot_holdings_only_grow :
  forall (num : Type) (N : JsNumber num) (allDates : list string)
         (trades : list (Trade (num := num))) (pm : PriceMap) (am : AumMap),
    let st := simulatePortfolio allDates trades pm am in
    let tickersAt (snap : PortfolioState) :=
      map fst (readHoldings (heap st) (ps_holdings snap)) in
    let tickersUntil (k : nat) :=
      newSet (tickersOf (appliedTrades (take (S k) allDates) trades)) in
    (forall k snap,
        portfolioHistory st !! k = Some snap -> tickersAt snap ≡ₚ tickersUntil k) /\
    (forall j k snapj snapk,
        j <= k ->
        portfolioHistory st !! j = Some snapj ->
        portfolioHistory st !! k = Some snapk ->
        tickersAt snapj ⊆ tickersAt snapk) /\
    (Forall (fun tr => arrayIndex (ticker tr) = false) trades ->
     (forall k snap,
         portfolioHistory st !! k = Some snap -> tickersAt snap = tickersUntil k) /\
     (forall j k snapj snapk,
         j <= k ->
         portfolioHistory st !! j = Some snapj ->
         portfolioHistory st !! k = Some snapk ->
         tickersAt snapj `prefix_of` tickersAt snapk)).
Proof.
  intros num N allDates trades pm am st tickersAt tickersUntil.
  destruct (simulatePortfolio_views allDates trades pm am) as (Hr & _).
  fold st in Hr.
  assert (forall k snap,
        portfolioHistory st !! k = Some snap -> tickersAt snap = tickersUntil k)
    as Hkeys.
  { intros k snap Hk.
    assert (viewsFrom trades pm allDates [] !! k
            = Some (readHoldings (heap st) (ps_holdings snap))) as Hv.
    { rewrite <- Hr, list_lookup_fmap. by rewrite Hk. }
    exact (viewsFrom_keys trades pm allDates [] k _ Hv). }
  assert (forall j k snapj snapk,
        j <= k ->
        portfolioHistory st !! j = Some snapj ->
        portfolioHistory st !! k = Some snapk ->
        tickersAt snapj `prefix_of` tickersAt snapk) as Hprefix.
  { intros j k snapj snapk Hjk Hj Hk.
    rewrite (Hkeys _ _ Hj), (Hkeys _ _ Hk). unfold tickersUntil.
    assert (take (S k) allDates = take (S j) allDates ++ drop (S j) (take (S k) allDates))
      as ->.
    { rewrite <- (take_drop (S j) (take (S k) allDates)) at 1.
      f_equal. rewrite take_take. f_equal. lia. }
    rewrite appliedTrades_app, tickersOf_app. unfold newSet. rewrite fold_left_app.
    apply fold_setAdd_prefix. }
  split; [|split; [|done]].
  - intros k snap Hk. by rewrite (Hkeys _ _ Hk).
  - intros j k snapj snapk Hjk Hj Hk x Hx.
    destruct (Hprefix j k snapj snapk Hjk Hj Hk) as [rest ->].
    apply elem_of_app. by left.
Qed.

Lemma snapshot_holdings_only_grow_witness :
  let dates := ["2024-01-02"; "2024-01-03"] in
  let st := simulatePortfolio dates twoTickerTrades [] [] in
  exists first second,
    portfolioHistory st = [first; second] /\
    map fst (readHoldings (heap st) (ps_holdings first)) = ["ZETA"] /\
    map fst (readHoldings (heap st) (ps_holdings second)) = ["ZETA"; "ACME"] /\
    map fst (readHoldings (heap st) (ps_holdings first))
      `prefix_of` map fst (readHoldings (heap st) (ps_holdings second)).
Proof.
  intros dates st. eexists _, _. split; [vm_compute; reflexivity|].
  split; [vm_compute; reflexivity|]. split; [vm_compute; reflexivity|].
  refine (proj2 (proj2 (proj2 (snapshot_holdings_only_grow float _ dates twoTickerTrades
                                 [] [])) _) 0 1 _ _ _ _ _).
  - repeat constructor.
  - lia.
  - vm_compute. reflexivity.
  - vm_compute. reflexivity.
Defined.

(** ** Shares *)

Section Shares.
Context {num : Type} `{JsNumber num}.
Implicit Types (st : SimState (num := num)) (v : list (string * Holding (num := num))).
Implicit Types (ps : PosState (num := num)) (tr : Trade (num := num)).

Lemma netShares_snoc (ts : list Trade) tr s :
  netShares (ts ++ [tr]) s = netShares [tr] (netShares ts s).
Proof. unfold netShares. by rewrite fold_left_app. Qed.

Lemma tradePos_shares ps tr : st_shares (tradePos ps tr) = netShares [tr] (st_shares ps).
Proof.
  unfold tradePos, netShares. cbn [fold_left].
  destruct (inList (txnType tr) BUY_TYPES); [done|].
  destruct (inList (txnType tr) SELL_TYPES); [|done].
  unfold sellPos. by destruct (sellLots _ _).
Qed.

Lemma fold_tradePos_shares (ts : list Trade) : forall ps,
  st_shares (fold_left tradePos ts ps) = netShares ts (st_shares ps).
Proof.
  induction ts as [|t r IH]; intros ps; cbn [fold_left]; [done|].
  rewrite IH, tradePos_shares. reflexivity.
Qed.

Lemma tradeHolding_shares (hd : Holding) tr :
  h_shares (tradeHolding hd tr) = netShares [tr] (h_shares hd).
Proof. reflexivity. Qed.

Lemma tickerTrades_snoc t (applied : list Trade) tr :
  tickerTrades t (applied ++ [tr])
  = tickerTrades t applied ++ (if String.eqb (ticker tr) t then [tr] else []).
Proof. unfold tickerTrades. rewrite List.filter_app. reflexivity. Qed.

Lemma tradeView_shares v applied tr :
  sharesInv v applied -> sharesInv (tradeView v tr) (applied ++ [tr]).
Proof.
  intros Hinv t. unfold tradeView. rewrite tickerTrades_snoc.
  destruct (tracked (ticker tr)) eqn:Ene.
  - destruct (String.eqb (ticker tr) t) eqn:E.
    + apply String.eqb_eq in E as <-. rewrite aget_aset_eq. split; [done|].
      rewrite tradeHolding_shares, netShares_snoc. f_equal.
      specialize (Hinv (ticker tr)).
      destruct (aget v (ticker tr)) as [hd|]; cbn; [by destruct Hinv|].
      by rewrite Hinv.
    + apply eqb_false_ne in E. rewrite aget_aset_ne by done.
      rewrite app_nil_r. apply Hinv.
  - destruct (String.eqb (ticker tr) t) eqn:E.
    + apply String.eqb_eq in E as <-.
      specialize (Hinv (ticker tr)).
      destruct (aget v (ticker tr)); [destruct Hinv; congruence | intros; congruence].
    + rewrite app_nil_r. apply Hinv.
Qed.

Lemma priceView_shares v applied kv :
  sharesInv v applied -> sharesInv (priceView v kv) applied.
Proof.
  intros Hinv t. unfold priceView.
  destruct (aget v kv.1) as [hd|] eqn:Eg; [|apply Hinv].
  destruct (String.eqb kv.1 t) eqn:E.
  - apply String.eqb_eq in E as <-. rewrite aget_aset_eq. cbn.
    specialize (Hinv kv.1). by rewrite Eg in Hinv.
  - apply eqb_false_ne in E. rewrite aget_aset_ne by done. apply Hinv.
Qed.

Lemma dayView_shares trades pm d v applied :
  sharesInv v applied ->
  sharesInv (dayView trades pm d v)
            (applied ++ default [] (aget (groupByDate trades) d)).
Proof.
  intros Hinv. unfold dayView.
  assert (forall ts v' applied', sharesInv v' applied' ->
            sharesInv (fold_left tradeView ts v') (applied' ++ ts)) as Ht.
  { induction ts as [|t r IH]; intros v' applied' Hv'; cbn [fold_left].
    - by rewrite app_nil_r.
    - change (t :: r) with ([t] ++ r). rewrite app_assoc.
      apply IH. by apply tradeView_shares. }
  assert (forall m v' applied', sharesInv v' applied' ->
            sharesInv (fold_left priceView m v') applied') as Hp.
  { induction m as [|kv r IH]; intros v' applied' Hv'; cbn [fold_left]; [done|].
    apply IH. by apply priceView_shares. }
  destruct (aget pm d); [apply Hp|]; by apply Ht.
Qed.

Lemma sharesInv_nil : sharesInv [] [].
Proof. intros t. cbn. done. Qed.

Lemma viewsFrom_shares trades pm dates : forall v applied k w,
  sharesInv v applied ->
  viewsFrom trades pm dates v !! k = Some w ->
  sharesInv w (applied ++ appliedTrades (take (S k) dates) trades).
Proof.
  induction dates as [|d r IH]; intros v applied k w Hinv; cbn [viewsFrom]; [done|].
  pose proof (dayView_shares trades pm d v applied Hinv) as Hd.
  destruct k as [|k]; cbn [lookup list_lookup take].
  - intros [= <-]. rewrite appliedTrades_cons. cbn. by rewrite app_nil_r.
  - intros Hk. rewrite appliedTrades_cons, app_assoc. by eapply IH.
Qed.

End Shares.

(** X4.  Shares are the net of the trades applied, from zero and in the
    order of application (buy-like trades add their quantity, sell-like
    trades subtract it, other types leave it): in every snapshot for the
    trades of the dates up to it, and in every finalized position for all of
    them.  No price and no figure of the history enters a share count; with a
    non-empty timeline the shares of a position are those its ticker has in
    the last snapshot. *)
Theorem shares_are_net_of_applied_trades :
  forall (num : Type) (N : JsNumber num) (allDates : list string)
         (trades : list (Trade (num := num))) (pm : PriceMap) (am : AumMap)
         (lastMap firstMap : list (string * string)),
    let st := simulatePortfolio allDates trades pm am in
    (forall k snap t hd,
        portfolioHistory st !! k = Some snap ->
        aget (readHoldings (heap st) (ps_holdings snap)) t = Some hd ->
        h_shares hd
        = netShares (tickerTrades t (appliedTrades (take (S k) allDates) trades)) nzero) /\
    (forall p,
        p ∈ finalizePositions st trades lastMap firstMap ->
        pos_shares p
        = netShares (tickerTrades (pos_ticker p) (appliedTrades allDates trades)) nzero) /\
    (forall p snap,
        p ∈ finalizePositions st trades lastMap firstMap ->
        last (portfolioHistory st) = Some snap ->
        exists hd,
          aget (readHoldings (heap st) (ps_holdings snap)) (pos_ticker p) = Some hd /\
          h_shares hd = pos_shares p).
Proof.
  intros num N allDates trades pm am lastMap firstMap st.
  destruct (simulatePortfolio_views allDates trades pm am) as (Hr & _).
  fold st in Hr.
  assert (forall k snap,
        portfolioHistory st !! k = Some snap ->
        sharesInv (readHoldings (heap st) (ps_holdings snap))
                  (appliedTrades (take (S k) allDates) trades)) as Hsnap.
  { intros k snap Hk.
    assert (viewsFrom trades pm allDates [] !! k
            = Some (readHoldings (heap st) (ps_holdings snap))) as Hv.
    { rewrite <- Hr, list_lookup_fmap. by rewrite Hk. }
    exact (viewsFrom_shares trades pm allDates [] [] k _ sharesInv_nil Hv). }
  assert (forall p,
        p ∈ finalizePositions st trades lastMap firstMap ->
        tracked (pos_ticker p) = true /\
        tickerTrades (pos_ticker p) (appliedTrades allDates trades) <> [] /\
        pos_shares p
        = netShares (tickerTrades (pos_ticker p) (appliedTrades allDates trades)) nzero)
    as Hpos.
  { intros p Hp. unfold finalizePositions in Hp.
    apply elem_of_map in Hp as ([t ps] & -> & Hin). cbn.
    pose proof (simulatePortfolio_posInv allDates trades pm am t) as Hinv.
    fold st in Hinv.
    destruct (aget (positionStates st) t) as [ps'|] eqn:Eg.
    - destruct Hinv as (Hne & (Hs & _) & Hnn).
      assert (NoDup (map fst (positionStates st))) as Hnd.
      { unfold st, simulatePortfolio. rewrite simulateFrom_posKeys. apply newSet_spec. }
      assert (ps = ps') as ->.
      { clear -Hnd Hin Eg. induction (positionStates st) as [|[k x] r IH]; [inversion Hin|].
        cbn in *. apply NoDup_cons in Hnd as [Hk Hnd].
        destruct (String.eqb t k) eqn:E.
        - apply String.eqb_eq in E as ->. injection Eg as <-.
          apply elem_of_cons in Hin as [[= <-]|Hin]; [done|].
          exfalso. apply Hk. apply elem_of_map. by exists (k, ps).
        - apply eqb_false_ne in E. apply elem_of_cons in Hin as [[= -> ->]|Hin]; [done|].
          by apply IH. }
      split; [done|]. split; [done|].
      rewrite Hs, fold_tradePos_shares. reflexivity.
    - exfalso. assert (t ∈ map fst (positionStates st)) as Hk
        by (apply elem_of_map; by exists (t, ps)).
      assert (inList t (map fst (positionStates st)) = true) as Hi by by apply inList_true.
      apply aget_None_keys in Eg. congruence. }
  split; [|split].
  - intros k snap t hd Hk Hg. specialize (Hsnap k snap Hk t). rewrite Hg in Hsnap.
    by destruct Hsnap.
  - intros p Hp. by destruct (Hpos p Hp) as (_ & _ & ?).
  - intros p snap Hp Hlast. destruct (Hpos p Hp) as (Hne & Hnn & Hs).
    rewrite last_lookup in Hlast.
    pose proof (simulateFrom_cash allDates trades pm am allDates 0 initState)
      as (_ & snaps & Hh & Hlen & _).
    fold (simulatePortfolio allDates trades pm am) in Hh. fold st in Hh. cbn in Hh.
    assert (length (portfolioHistory st) = length allDates) as Hl by by rewrite Hh.
    specialize (Hsnap _ _ Hlast (pos_ticker p)).
    assert (take (S (pred (length (portfolioHistory st)))) allDates = allDates) as Ht.
    { apply take_ge. lia. }
    rewrite Ht in Hsnap.
    destruct (aget (readHoldings (heap st) (ps_holdings snap)) (pos_ticker p)) as [hd|].
    + exists hd. split; [done|]. destruct Hsnap as [_ ->]. by rewrite Hs.
    + by specialize (Hsnap Hne).
Qed.

(** ** Prices *)

Section Prices.
Context {num : Type} `{JsNumber num}.
Implicit Types (v : list (string * Holding (num := num))) (tr : Trade (num := num)).

Lemma tradeView_price v tr t :
  tracked t = true ->
  priceOf (tradeView v tr) t
  = tradedPrice (tickerTrades t [tr]) (priceOf v t).
Proof.
  intros Hne. unfold tradeView, priceOf, tickerTrades, tradedPrice. cbn [List.filter].
  destruct (String.eqb (ticker tr) t) eqn:E.
  - apply String.eqb_eq in E as <-. rewrite Hne.
    rewrite aget_aset_eq. cbn. by destruct (aget v (ticker tr)).
  - cbn. destruct (tracked (ticker tr)); [|done].
    apply eqb_false_ne in E. by rewrite aget_aset_ne.
Qed.

Lemma tradeViews_price (ts : list Trade) t : forall v,
  tracked t = true ->
  priceOf (fold_left tradeView ts v) t = tradedPrice (tickerTrades t ts) (priceOf v t).
Proof.
  induction ts as [|tr r IH]; intros v Hne; cbn [fold_left]; [done|].
  rewrite IH, tradeView_price by done.
  change (tr :: r) with ([tr] ++ r). rewrite tickerTrades_app.
  unfold tradedPrice. by rewrite fold_left_app.
Qed.

Lemma priceView_other v kv t : kv.1 <> t -> aget (priceView v kv) t = aget v t.
Proof.
  intros Hne. unfold priceView. destruct (aget v kv.1); [|done].
  by rewrite aget_aset_ne.
Qed.

Lemma priceViews_other (m : list (string * num)) t : forall v,
  t ∉ map fst m -> aget (fold_left priceView m v) t = aget v t.
Proof.
  induction m as [|kv r IH]; intros v Hn; cbn [fold_left]; [done|].
  cbn in Hn. rewrite not_elem_of_cons in Hn. destruct Hn as [Hne Hn].
  rewrite IH by done. apply priceView_other. congruence.
Qed.

Lemma aget_None_notin {V : Type} (m : list (string * V)) t :
  aget m t = None <-> t ∉ map fst m.
Proof.
  rewrite aget_None_keys. split.
  - intros Hi Hin. apply inList_true in Hin. congruence.
  - intros Hn. destruct (inList t (map fst m)) eqn:E; [|done].
    apply inList_true in E. done.
Qed.

(** The prices of a date on the holdings: a listed ticker takes the price
    the date has for it, when it has one. *)
Lemma priceViews_price (m : list (string * num)) t : forall v,
  NoDup (map fst m) ->
  aget (fold_left priceView m v) t
  = match aget v t, aget m t with
    | Some hd, Some p => Some {| h_shares := h_shares hd; h_price := p |}
    | o, _ => o
    end.
Proof.
  induction m as [|[k p] r IH]; intros v Hnd; cbn [fold_left].
  - cbn. by destruct (aget v t).
  - cbn [map fst] in Hnd. apply NoDup_cons in Hnd as [Hk Hnd]. cbn [aget].
    destruct (String.eqb t k) eqn:E.
    + apply String.eqb_eq in E as ->.
      rewrite priceViews_other by done. unfold priceView. cbn.
      destruct (aget v k) as [hd|] eqn:Eg; [|by rewrite Eg].
      by rewrite aget_aset_eq.
    + apply eqb_false_ne in E. rewrite IH by done.
      rewrite priceView_other by (cbn; congruence). done.
Qed.

Lemma viewsFrom_step trades pm dates : forall v k w d,
  viewsFrom trades pm dates v !! k = Some w ->
  dates !! k = Some d ->
  w = dayView trades pm d
        match k with
        | 0 => v
        | S j => default v (viewsFrom trades pm dates v !! j)
        end.
Proof.
  induction dates as [|d0 r IH]; intros v k w d; cbn [viewsFrom]; [done|].
  destruct k as [|k]; cbn [lookup list_lookup].
  - by intros [= <-] [= <-].
  - intros Hw Hd. rewrite (IH _ _ _ _ Hw Hd).
    destruct k as [|k]; [done|]. cbn [lookup list_lookup].
    f_equal. destruct (viewsFrom trades pm r (dayView trades pm d0 v) !! k) eqn:E; [done|].
    apply lookup_ge_None in E. apply lookup_lt_Some in Hw. lia.
Qed.

End Prices.

(** X5.  The price a snapshot records for a ticker it lists is the price the
    history has for that ticker on that date, when it has one; otherwise the
    price of the last trade of the ticker on that date whose price is
    positive; otherwise the price of the previous snapshot, and zero when
    there is none. *)
Theorem snapshot_price_rule :
  forall (num : Type) (N : JsNumber num) (allDates : list string)
         (trades : list (Trade (num := num))) (pm : PriceMap) (am : AumMap)
         (k : nat) (snap : PortfolioState) (date t : string) (hd : Holding),
    let st := simulatePortfolio allDates trades pm am in
    let before :=
      match k with
      | 0 => []
      | S j => match portfolioHistory st !! j with
               | Some prev => readHoldings (heap st) (ps_holdings prev)
               | None => []
               end
      end in
    let traded := tradedPrice (tickerTrades t (daysTrades trades date)) (priceOf before t) in
    portfolioHistory st !! k = Some snap ->
    allDates !! k = Some date ->
    (forall m, aget pm date = Some m -> NoDup (map fst m)) ->
    aget (readHoldings (heap st) (ps_holdings snap)) t = Some hd ->
    h_price hd
    = match aget pm date with
      | Some m => match aget m t with Some p => p | None => traded end
      | None => traded
      end.
Proof.
  intros num N allDates trades pm am k snap date t hd st before traded Hk Hd Hm Hg.
  destruct (simulatePortfolio_views allDates trades pm am) as (Hr & _).
  fold st in Hr.
  assert (forall j s, portfolioHistory st !! j = Some s ->
            viewsFrom trades pm allDates [] !! j
            = Some (readHoldings (heap st) (ps_holdings s))) as Hv.
  { intros j s Hj. rewrite <- Hr, list_lookup_fmap. by rewrite Hj. }
  pose proof (viewsFrom_step trades pm allDates [] k _ date (Hv _ _ Hk) Hd) as Hw.
  assert (match k with
          | 0 => []
          | S j => default [] (viewsFrom trades pm allDates [] !! j)
          end = before) as Hb.
  { unfold before. destruct k as [|j]; [done|].
    destruct (portfolioHistory st !! j) as [prev|] eqn:Ej.
    - by rewrite (Hv _ _ Ej).
    - apply lookup_ge_None in Ej. apply lookup_lt_Some in Hk. lia. }
  rewrite Hb in Hw.
  assert (tracked t = true) as Hne.
  { pose proof (viewsFrom_shares trades pm allDates [] [] k _ sharesInv_nil (Hv _ _ Hk) t)
      as Hs. rewrite Hg in Hs. by destruct Hs. }
  pose proof (tradeViews_price (daysTrades trades date) t before Hne) as Ht.
  fold traded in Ht.
  rewrite Hw in Hg. unfold dayView in Hg. fold (daysTrades trades date) in Hg.
  unfold priceOf in Ht at 1.
  destruct (aget pm date) as [m|] eqn:Em.
  - rewrite (priceViews_price m t _ (Hm m eq_refl)) in Hg.
    destruct (aget (fold_left tradeView (daysTrades trades date) before) t) as [hd0|];
      [|done].
    destruct (aget m t) as [p|]; injection Hg as <-; [done|]. exact Ht.
  - rewrite Hg in Ht. exact Ht.
Qed.

Lemma snapshot_price_rule_witness :
  let allDates := ["2024-01-02"; "2024-01-03"] in
  let pm : PriceMap := [("2024-01-03", [("ACME", 11%float)])] in
  let st := simulatePortfolio allDates buyThenSell pm [] in
  exists snap hd,
    portfolioHistory st !! 1 = Some snap /\
    aget (readHoldings (heap st) (ps_holdings snap)) "ACME" = Some hd /\
    h_price hd = 11%float.
Proof.
  intros allDates pm st. eexists. eexists.
  split; [vm_compute; reflexivity|]. split; [vm_compute; reflexivity|].
  refine (eq_trans (snapshot_price_rule float Float64 allDates buyThenSell pm [] 1 _
                      "2024-01-03" "ACME" _ eq_refl eq_refl _ eq_refl) eq_refl).
  intros m [= <-]. cbn. repeat constructor. intros Hin. inversion Hin.
Defined.

(** ** The dates of a position history *)

Section FindIndex.
Context {A : Type} (p : A -> bool).

Lemma findIndex_app_Some (l1 l2 : list A) i :
  findIndex p l1 = Some i -> findIndex p (l1 ++ l2) = Some i.
Proof.
  revert i. induction l1 as [|x r IH]; intros i; cbn; [done|].
  destruct (p x); [done|].
  destruct (findIndex p r) as [j|]; [|done]. cbn. intros [= <-].
  by rewrite (IH j).
Qed.

Lemma findIndex_app_None (l1 l2 : list A) :
  findIndex p l1 = None ->
  findIndex p (l1 ++ l2) = (fun j => length l1 + j) <$> findIndex p l2.
Proof.
  induction l1 as [|x r IH]; cbn.
  - intros _. by destruct (findIndex p l2).
  - destruct (p x); [done|].
    destruct (findIndex p r) as [j|] eqn:E; [done|]. intros _.
    rewrite IH by done. by destruct (findIndex p l2).
Qed.

Lemma findIndex_Some (l : list A) i :
  findIndex p l = Some i ->
  exists x, l !! i = Some x /\ p x = true /\ Forall (fun y => p y = false) (take i l).
Proof.
  revert i. induction l as [|x r IH]; intros i; cbn; [done|].
  destruct (p x) eqn:E.
  - intros [= <-]. exists x. cbn. by repeat split.
  - destruct (findIndex p r) as [j|]; [|done]. cbn. intros [= <-].
    destruct (IH j eq_refl) as (y & Hy & Hp & Hf). exists y. cbn.
    split; [done|]. split; [done|]. by constructor.
Qed.

Lemma findIndex_None (l : list A) :
  findIndex p l = None <-> Forall (fun y => p y = false) l.
Proof.
  induction l as [|x r IH]; cbn; [by split; [constructor|]|].
  destruct (p x) eqn:E.
  - split; [done|]. intros Hf. apply Forall_cons in Hf as [Hx _]. congruence.
  - destruct (findIndex p r) as [j|]; cbn.
    + split; [done|]. intros Hf. apply Forall_cons in Hf as [_ Hr].
      by apply IH in Hr.
    + split; [|done]. intros _. constructor; [done|]. by apply IH.
Qed.

End FindIndex.

Section HistoryDates.
Context {num : Type} `{JsNumber num}.
Implicit Types (st : SimState (num := num)) (ps : PosState (num := num))
  (tr : Trade (num := num)).
Variables (allDates : list string) (trades : list (Trade (num := num)))
  (pm : PriceMap (num := num)) (am : AumMap (num := num)).

Lemma tradePos_history ps tr : st_history (tradePos ps tr) = st_history ps.
Proof.
  unfold tradePos. destruct (inList (txnType tr) BUY_TYPES); [done|].
  destruct (inList (txnType tr) SELL_TYPES); [|done].
  unfold sellPos. by destruct (sellLots _ _).
Qed.

Lemma tradedOn_false t d :
  tickerTrades t (daysTrades trades d) = [] -> tradedOn trades t d = false.
Proof.
  unfold tradedOn, tickerTrades. induction (daysTrades trades d) as [|tr r IH]; cbn; [done|].
  destruct (String.eqb (ticker tr) t); [done|]. exact IH.
Qed.

Lemma tradedOn_true t d tr :
  tr ∈ daysTrades trades d -> ticker tr = t -> tradedOn trades t d = true.
Proof.
  intros Hin <-. unfold tradedOn. apply existsb_exists. exists tr.
  split; [by apply list_elem_of_In | apply String.eqb_refl].
Qed.

Lemma untraded_before t (dates : list string) :
  tickerTrades t (appliedTrades dates trades) = [] ->
  findIndex (tradedOn trades t) dates = None.
Proof.
  intros Hn. apply findIndex_None.
  induction dates as [|d r IH]; [constructor|].
  rewrite appliedTrades_cons, tickerTrades_app in Hn.
  apply app_eq_nil in Hn as [Hd Hr].
  constructor; [by apply tradedOn_false | by apply IH].
Qed.

Lemma applyTrade_hist k d st applied tr :
  allDates !! k = Some d ->
  posInv st applied ->
  (forall t, tickerTrades t applied = [] ->
             findIndex (tradedOn trades t) (take k allDates) = None) ->
  tr ∈ daysTrades trades d ->
  histDatesInv allDates trades (S k) k (positionStates st) ->
  histDatesInv allDates trades (S k) k (positionStates (applyTrade allDates k pm st tr)).
Proof.
  intros Hd Hpos Hprev Hin Hinv t ps. unfold applyTrade.
  destruct (tracked (ticker tr)) eqn:Ene; [|apply Hinv].
  destruct (ensureHolding _ _ _) as [h1 l]. cbn.
  destruct (decide (ticker tr = t)) as [<-|Hne]; [|rewrite aget_aset_ne by done; apply Hinv].
  rewrite aget_aset_eq. intros [= <-]. rewrite tradePos_history.
  unfold ensurePosState. specialize (Hpos (ticker tr)).
  destruct (aget (positionStates st) (ticker tr)) as [ps0|] eqn:Eg; [by apply Hinv|].
  cbn. specialize (Hpos Ene).
  exists k. split.
  - rewrite (take_S_r _ _ _ Hd), findIndex_app_None by by apply Hprev.
    cbn. rewrite (tradedOn_true _ _ _ Hin eq_refl). cbn.
    rewrite length_take. apply lookup_lt_Some in Hd. f_equal. lia.
  - unfold startBuffer. destruct k as [|j]; [done|].
    assert (j < length allDates) as Hj by (apply lookup_lt_Some in Hd; lia).
    destruct (lookup_lt_is_Some_2 _ _ Hj) as [prev Hprevd]. rewrite Hprevd. cbn.
    rewrite (drop_S _ _ _ Hprevd). replace (S j - j) with 1 by lia. reflexivity.
Qed.

Lemma tradesFold_hist k d (ts : list Trade) : forall st applied,
  allDates !! k = Some d ->
  posInv st applied ->
  (forall t, tickerTrades t applied = [] ->
             findIndex (tradedOn trades t) (take k allDates) = None) ->
  Forall (fun tr => tr ∈ daysTrades trades d) ts ->
  histDatesInv allDates trades (S k) k (positionStates st) ->
  histDatesInv allDates trades (S k) k
    (positionStates (fold_left (applyTrade allDates k pm) ts st)).
Proof.
  induction ts as [|tr r IH]; intros st applied Hd Hpos Hprev Hin Hinv; cbn; [done|].
  apply Forall_cons in Hin as [Hin Hr].
  apply (IH _ (applied ++ [tr])); [done| | |done|].
  - by apply applyTrade_posInv.
  - intros t Ht. rewrite tickerTrades_app in Ht. apply app_eq_nil in Ht as [Ht _].
    by apply Hprev.
  - by eapply applyTrade_hist.
Qed.

Lemma snapshotStep_hist k d st :
  allDates !! k = Some d ->
  histDatesInv allDates trades (S k) k (positionStates st) ->
  histDatesInv allDates trades (S k) (S k) (positionStates (snapshotStep am d st)).
Proof.
  intros Hd Hinv t ps. unfold snapshotStep. destruct (jsonClone _ _) as [h' snap]. cbn.
  rewrite (aget_map (fun t ps =>
             dayMetrics (heap st) (currentHoldings st) d
               (determineAum (heap st) (currentHoldings st) (currentCash st) am d) t ps)).
  destruct (aget (positionStates st) t) as [ps0|] eqn:Eg; [|done]. cbn. intros [= <-].
  destruct (Hinv t ps0 Eg) as (i & Hi & Hdates). exists i. split; [done|].
  cbn. rewrite map_app, Hdates. cbn.
  assert (i <= k) as Hik.
  { destruct (findIndex_Some _ _ _ Hi) as (x & Hx & _).
    apply lookup_lt_Some in Hx. rewrite length_take in Hx. lia. }
  replace (S k - pred i) with (S (k - pred i)) by lia.
  symmetry. apply take_S_r. rewrite lookup_drop. rewrite <- Hd. f_equal. lia.
Qed.

Lemma simulateFrom_hist (dates : list string) : forall k st,
  drop k allDates = dates ->
  posInv st (appliedTrades (take k allDates) trades) ->
  histDatesInv allDates trades k k (positionStates st) ->
  histDatesInv allDates trades (length allDates) (length allDates)
    (positionStates (simulateFrom allDates trades pm am k dates st)).
Proof.
  induction dates as [|d r IH]; intros k st Hdrop Hpos Hinv; cbn [simulateFrom].
  - assert (length allDates <= k) as Hk.
    { destruct (decide (length allDates <= k)) as [|Hn]; [done|].
      apply (f_equal length) in Hdrop. rewrite length_drop in Hdrop. cbn in Hdrop. lia. }
    intros t ps Hg. destruct (Hinv t ps Hg) as (i & Hi & Hd). exists i.
    rewrite take_ge in Hi by done. rewrite take_ge by done. split; [done|].
    rewrite Hd. rewrite !take_ge; [done| |]; rewrite length_drop; lia.
  - assert (allDates !! k = Some d) as Hd.
    { rewrite <- (Nat.add_0_r k), <- lookup_drop, Hdrop. done. }
    assert (drop (S k) allDates = r) as Hdrop'.
    { rewrite (drop_S _ _ _ Hd) in Hdrop. by injection Hdrop. }
    assert (appliedTrades (take (S k) allDates) trades
            = appliedTrades (take k allDates) trades ++ daysTrades trades d) as Happ.
    { rewrite (take_S_r _ _ _ Hd), appliedTrades_app. f_equal.
      unfold appliedTrades. cbn. by rewrite app_nil_r. }
    apply IH; [done| |].
    + rewrite Happ. unfold simulateDay.
      apply snapshotStep_posInv, pricesStep_posInv.
      unfold tradesStep. by apply tradesFold_posInv.
    + unfold simulateDay. apply snapshotStep_hist; [done|]. cbn.
      unfold tradesStep.
      apply (tradesFold_hist k d _ _ (appliedTrades (take k allDates) trades));
        [done|done| | |].
      * intros t Ht. by apply untraded_before.
      * apply Forall_forall. by intros tr Htr.
      * intros t ps Hg. destruct (Hinv t ps Hg) as (i & Hi & Hdt). exists i.
        split; [|done]. rewrite (take_S_r _ _ _ Hd). by apply findIndex_app_Some.
Qed.

End HistoryDates.

(** X6.  The history of a position state has one point per date of the
    timeline, in order, from the date before the first date on which a trade
    of its ticker is applied (from that date itself when it is the first of
    the timeline) to the last date of the timeline. *)
Theorem position_history_follows_the_timeline :
  forall (num : Type) (N : JsNumber num) (allDates : list string)
         (trades : list (Trade (num := num))) (pm : PriceMap) (am : AumMap)
         (t : string) (ps : PosState),
    aget (positionStates (simulatePortfolio allDates trades pm am)) t = Some ps ->
    exists i,
      findIndex (tradedOn trades t) allDates = Some i /\
      map hp_date (st_history ps) = drop (pred i) allDates.
Proof.
  intros num N allDates trades pm am t ps Hg.
  assert (histDatesInv allDates trades (length allDates) (length allDates)
            (positionStates (simulatePortfolio allDates trades pm am))) as Hinv.
  { apply simulateFrom_hist; [done|apply posInv_init|]. intros t' ps'. cbn. done. }
  destruct (Hinv t ps Hg) as (i & Hi & Hd). exists i.
  rewrite take_ge in Hi by done. split; [done|].
  rewrite Hd. apply take_ge. rewrite length_drop. lia.
Qed.

Lemma position_history_follows_the_timeline_witness :
  let allDates := ["2023-12-29"; "2024-01-01"; "2024-01-02"; "2024-01-03"] in
  exists ps,
    aget (positionStates (simulatePortfolio allDates buyThenSell [] [])) "ACME" = Some ps /\
    map hp_date (st_history ps) = ["2024-01-01"; "2024-01-02"; "2024-01-03"].
Proof.
  intros allDates. eexists. split; [vm_compute; reflexivity|].
  destruct (position_history_follows_the_timeline float Float64 allDates buyThenSell [] []
              "ACME" _ eq_refl) as (i & Hi & Hd).
  vm_compute in Hi. injection Hi as <-. exact Hd.
Defined.

(** ** Invariants of the position states *)

Section PosStateInvariants.
Context {num : Type} `{JsNumber num}.
Implicit Types (st : SimState (num := num)) (ps : PosState (num := num))
  (tr : Trade (num := num)).
Variable P : PosState (num := num) -> Prop.
Hypothesis P_new : forall allDates i pm tr,
  P {| st_shares := nzero; lots := []; st_realizedPnL := nzero;
       st_history := startBuffer allDates i pm tr;
       sumSizePercentAUM := nzero; daysPresent := nzero; maxSizePercentAUM := nzero |}.
Hypothesis P_trade : forall ps tr, P ps -> P (tradePos ps tr).
Hypothesis P_day : forall h cur date aum t ps, P ps -> P (dayMetrics h cur date aum t ps).

Lemma applyTrade_Forall allDates i pm st tr :
  Forall P (map snd (positionStates st)) ->
  Forall P (map snd (positionStates (applyTrade allDates i pm st tr))).
Proof using All.
  intros Hall. unfold applyTrade. destruct (tracked (ticker tr)); [|done].
  destruct (ensureHolding _ _ _). cbn. apply aset_Forall; [done|].
  apply P_trade. unfold ensurePosState.
  destruct (aget (positionStates st) (ticker tr)) as [ps|] eqn:Eg; [|apply P_new].
  apply aget_Some_elem in Eg. rewrite Forall_forall in Hall. apply Hall.
  apply elem_of_map. by exists (ticker tr, ps).
Qed.

Lemma simulateDay_Forall allDates trades pm am st i d :
  Forall P (map snd (positionStates st)) ->
  Forall P (map snd (positionStates (simulateDay allDates trades pm am st i d))).
Proof using All.
  intros Hall. unfold simulateDay, snapshotStep. destruct (jsonClone _ _). cbn.
  rewrite map_map. cbn. rewrite Forall_map.
  assert (Forall P (map snd (positionStates (tradesStep allDates trades pm i d st)))) as Ht.
  { unfold tradesStep. generalize (default [] (aget (groupByDate trades) d)).
    intros ts. revert st Hall. induction ts as [|t r IH]; intros st Hall; cbn; [done|].
    apply IH. by apply applyTrade_Forall. }
  rewrite Forall_map in Ht. eapply Forall_impl; [exact Ht|].
  intros [t ps] Hps. cbn in *. by apply P_day.
Qed.

Lemma simulatePortfolio_Forall allDates trades pm am :
  Forall P (map snd (positionStates (simulatePortfolio allDates trades pm am))).
Proof using All.
  unfold simulatePortfolio.
  assert (Forall P (map snd (positionStates (initState (num := num))))) as Hinit
    by constructor.
  revert Hinit. generalize (initState (num := num)). generalize 0.
  generalize allDates at 2. intros dates.
  induction dates as [|d r IH]; intros i st Hall; cbn [simulateFrom]; [done|].
  apply IH. by apply simulateDay_Forall.
Qed.

End PosStateInvariants.

(** ** Size metrics *)

Section Sizes.
Open Scope Q_scope.

Lemma tradePos_metrics {num : Type} `{JsNumber num} (ps : PosState) (tr : Trade) :
  sumSizePercentAUM (tradePos ps tr) = sumSizePercentAUM ps /\
  daysPresent (tradePos ps tr) = daysPresent ps /\
  maxSizePercentAUM (tradePos ps tr) = maxSizePercentAUM ps.
Proof.
  unfold tradePos. destruct (inList (txnType tr) BUY_TYPES); [done|].
  destruct (inList (txnType tr) SELL_TYPES); [|done].
  unfold sellPos. by destruct (sellLots _ _).
Qed.

Lemma dayMetrics_sizeInv h cur date aum t (ps : PosState (num := Q)) :
  sizeInv ps -> sizeInv (dayMetrics h cur date aum t ps).
Proof.
  unfold sizeInv, dayMetrics. cbn [sumSizePercentAUM daysPresent maxSizePercentAUM].
  set (s := if ngtb aum nzero then _ else _).
  intros (Hm & Hd & Hs).
  assert (0 <= (if ngtb s (maxSizePercentAUM ps) then s else maxSizePercentAUM ps) /\
          maxSizePercentAUM ps <= (if ngtb s (maxSizePercentAUM ps) then s else maxSizePercentAUM ps) /\
          s <= (if ngtb s (maxSizePercentAUM ps) then s else maxSizePercentAUM ps))
    as (Hm' & Hmm & Hsm).
  { unfold ngtb. cbn [nltb Exact].
    destruct (Qltb (maxSizePercentAUM ps) s) eqn:E.
    - apply Qltb_true in E. lra.
    - apply Qltb_false in E. lra. }
  set (m' := if ngtb s (maxSizePercentAUM ps) then s else maxSizePercentAUM ps) in *.
  split; [done|].
  destruct (ngtb (nabs (st_shares ps)) nheld_eps).
  - cbn [nadd Exact none_]. rewrite !Qred_correct. split; [lra|].
    assert (daysPresent ps * maxSizePercentAUM ps <= daysPresent ps * m').
    { nra. }
    lra.
  - split; [done|].
    assert (daysPresent ps * maxSizePercentAUM ps <= daysPresent ps * m').
    { nra. }
    lra.
Qed.

Lemma simulatePortfolio_sizeInv allDates (trades : list (Trade (num := Q))) pm am :
  Forall sizeInv (map snd (positionStates (simulatePortfolio allDates trades pm am))).
Proof.
  apply simulatePortfolio_Forall.
  - intros. unfold sizeInv. cbn. lra.
  - intros ps tr. unfold sizeInv.
    destruct (tradePos_metrics ps tr) as (-> & -> & ->). done.
  - intros. by apply dayMetrics_sizeInv.
Qed.

End Sizes.

(** In exact arithmetic the average size of a finalized position is at most
    its maximum size. *)
Lemma exact_average_at_most_max :
  forall (allDates : list string) (trades : list (Trade (num := Q)))
         (pm : PriceMap) (am : AumMap) (lastMap firstMap : list (string * string))
         (p : Position),
    p ∈ finalizePositions (simulatePortfolio allDates trades pm am) trades lastMap firstMap ->
    (0 <= pos_maxSizePercentAUM p /\ avgSizePercentAUM p <= pos_maxSizePercentAUM p)%Q.
Proof.
  intros allDates trades pm am lastMap firstMap p Hp.
  unfold finalizePositions in Hp. apply elem_of_map in Hp as ([t ps] & -> & Hin).
  pose proof (simulatePortfolio_sizeInv allDates trades pm am) as Hall.
  rewrite Forall_forall in Hall.
  assert (sizeInv ps) as (Hm & Hd & Hs).
  { apply Hall. apply elem_of_map. by exists (t, ps). }
  cbn. split; [done|].
  unfold ngtb. cbn [nltb Exact nzero].
  destruct (Qltb 0 (daysPresent ps)) eqn:E; [|done].
  apply Qltb_true in E. cbn [ndiv Exact]. rewrite Qred_correct.
  apply Qle_shift_div_r; [done|]. lra.
Qed.

(** In binary64 a value above one that is at least 0 is at least 0: neither
    is NaN. *)
Lemma leb_ltb_zero (m s : float) :
  PrimFloat.leb 0 m = true -> PrimFloat.ltb m s = true -> PrimFloat.leb 0 s = true.
Proof.
  rewrite !leb_spec, ltb_spec.
  change (Prim2SF 0) with (S754_zero false).
  destruct (Prim2SF m) as [[]|[]| |[] mm me], (Prim2SF s) as [[]|[]| |[] sm se];
    cbn; try discriminate; try reflexivity.
Qed.

Lemma simulatePortfolio_maxSize allDates (trades : list (Trade (num := float))) pm am :
  Forall (fun ps => PrimFloat.leb 0 (maxSizePercentAUM ps) = true)
    (map snd (positionStates (simulatePortfolio allDates trades pm am))).
Proof.
  apply simulatePortfolio_Forall.
  - reflexivity.
  - intros ps tr. by destruct (tradePos_metrics ps tr) as (_ & _ & ->).
  - intros h cur date aum t ps Hm. unfold dayMetrics. cbn [maxSizePercentAUM].
    set (s := if ngtb aum nzero then _ else _).
    destruct (ngtb s (maxSizePercentAUM ps)) eqn:E; [|done].
    exact (leb_ltb_zero _ _ Hm E).
Qed.

(** X7.  In binary64, the arithmetic of the engine, the maximum size of a
    finalized position is never negative and never NaN: it compares as at
    least 0.  The average size is not bounded by it: one share at price 1
    held on three days with an AUM of 1000 has size 0.1 on each day, the
    maximum, while the sum of the three sizes divided by 3 rounds to
    0.10000000000000002. *)
Theorem max_size_is_never_negative :
  (forall (allDates : list string) (trades : list (Trade (num := float)))
          (pm : PriceMap) (am : AumMap) (lastMap firstMap : list (string * string))
          (p : Position),
      p ∈ finalizePositions (simulatePortfolio allDates trades pm am) trades lastMap firstMap ->
      PrimFloat.leb 0 (pos_maxSizePercentAUM p) = true) /\
  (exists p,
      finalizePositions (simulatePortfolio threeDays oneShareTrades [] threeDaysAum)
        oneShareTrades [] [] = [p] /\
      pos_maxSizePercentAUM p = 0.1%float /\
      avgSizePercentAUM p = 0.10000000000000002%float /\
      PrimFloat.ltb (pos_maxSizePercentAUM p) (avgSizePercentAUM p) = true).
Proof.
  split.
  - intros allDates trades pm am lastMap firstMap p Hp.
    unfold finalizePositions in Hp. apply elem_of_map in Hp as ([t ps] & -> & Hin).
    pose proof (simulatePortfolio_maxSize allDates trades pm am) as Hall.
    rewrite Forall_forall in Hall. cbn [fst snd finalizePosition pos_maxSizePercentAUM].
    apply Hall. apply elem_of_map. by exists (t, ps).
  - eexists. split; [vm_compute; reflexivity|]. repeat split.
Qed.

Lemma max_size_is_never_negative_witness :
  exists p,
    finalizePositions (simulatePortfolio threeDays oneShareTrades [] threeDaysAum)
      oneShareTrades [] [] = [p] /\
    PrimFloat.leb 0 (pos_maxSizePercentAUM p) = true.
Proof.
  eexists. split; [vm_compute; reflexivity|].
  apply (proj1 max_size_is_never_negative threeDays oneShareTrades [] threeDaysAum [] []).
  vm_compute. apply list_elem_of_here.
Defined.

(** ** Position histories and snapshots *)

Section HistoryMatch.
Context {num : Type} `{JsNumber num}.
Implicit Types (st : SimState (num := num)) (ps : PosState (num := num))
  (tr : Trade (num := num)).
Variables (allDates : list string) (trades : list (Trade (num := num)))
  (pm : PriceMap (num := num)) (am : AumMap (num := num)).

Lemma first_traded_today k d st applied tr :
  allDates !! k = Some d ->
  posInv st applied ->
  (forall t, tickerTrades t applied = [] ->
             findIndex (tradedOn trades t) (take k allDates) = None) ->
  tr ∈ daysTrades trades d ->
  tracked (ticker tr) = true ->
  aget (positionStates st) (ticker tr) = None ->
  findIndex (tradedOn trades (ticker tr)) (take (S k) allDates) = Some k.
Proof.
  intros Hd Hpos Hprev Hin Hne Eg. specialize (Hpos (ticker tr)). rewrite Eg in Hpos.
  rewrite (take_S_r _ _ _ Hd), findIndex_app_None by (apply Hprev; by apply Hpos).
  cbn. rewrite (tradedOn_true _ _ _ _ Hin eq_refl). cbn.
  rewrite length_take. apply lookup_lt_Some in Hd. f_equal. lia.
Qed.

Lemma startBuffer_length i (tr : Trade) :
  length (startBuffer allDates i pm tr) <= i - pred i.
Proof.
  unfold startBuffer. destruct i as [|j]; [done|].
  destruct (allDates !! j); cbn; lia.
Qed.

Lemma applyTrade_match k d st applied tr views :
  allDates !! k = Some d ->
  length views = k ->
  posInv st applied ->
  (forall t, tickerTrades t applied = [] ->
             findIndex (tradedOn trades t) (take k allDates) = None) ->
  tr ∈ daysTrades trades d ->
  histMatchInv allDates trades (S k) (positionStates st) views ->
  histMatchInv allDates trades (S k)
    (positionStates (applyTrade allDates k pm st tr)) views.
Proof.
  intros Hd Hlen Hpos Hprev Hin Hinv t ps. unfold applyTrade.
  destruct (tracked (ticker tr)) eqn:Ene; [|apply Hinv].
  destruct (ensureHolding _ _ _) as [h1 l]. cbn.
  destruct (decide (ticker tr = t)) as [<-|Hne]; [|rewrite aget_aset_ne by done; apply Hinv].
  rewrite aget_aset_eq. intros [= <-]. rewrite tradePos_history.
  unfold ensurePosState.
  destruct (aget (positionStates st) (ticker tr)) as [ps0|] eqn:Eg; [by apply Hinv|].
  cbn. exists k. split; [|split].
  - by eapply first_traded_today.
  - apply Forall_take. unfold startBuffer. destruct k as [|j]; [constructor|].
    destruct (allDates !! j); constructor; [|constructor]. by repeat split.
  - rewrite (drop_ge views) by lia.
    rewrite drop_ge by apply startBuffer_length. constructor.
Qed.

Lemma tradesFold_match k d views (ts : list Trade) : forall st applied,
  allDates !! k = Some d ->
  length views = k ->
  posInv st applied ->
  (forall t, tickerTrades t applied = [] ->
             findIndex (tradedOn trades t) (take k allDates) = None) ->
  Forall (fun tr => tr ∈ daysTrades trades d) ts ->
  histMatchInv allDates trades (S k) (positionStates st) views ->
  histMatchInv allDates trades (S k)
    (positionStates (fold_left (applyTrade allDates k pm) ts st)) views.
Proof.
  induction ts as [|tr r IH]; intros st applied Hd Hlen Hpos Hprev Hin Hinv; cbn; [done|].
  apply Forall_cons in Hin as [Hin Hr].
  apply (IH _ (applied ++ [tr])); [done|done| | |done|].
  - by apply applyTrade_posInv.
  - intros t Ht. rewrite tickerTrades_app in Ht. apply app_eq_nil in Ht as [Ht _].
    by apply Hprev.
  - by eapply applyTrade_match.
Qed.

Lemma snapshotStep_match k d st applied views :
  allDates !! k = Some d ->
  length views = k ->
  posInv st applied ->
  sharesInv (holdingsView st) applied ->
  map fst (holdingsView st) = map fst (positionStates st) ->
  histDatesInv allDates trades (S k) k (positionStates st) ->
  histMatchInv allDates trades (S k) (positionStates st) views ->
  histMatchInv allDates trades (S k) (positionStates (snapshotStep am d st))
    (views ++ [holdingsView st]).
Proof.
  intros Hd Hlen Hpos Hsh Hkeys Hdates Hinv t ps.
  unfold snapshotStep. destruct (jsonClone _ _) as [h' snap]. cbn.
  rewrite (aget_map (fun t ps =>
             dayMetrics (heap st) (currentHoldings st) d
               (determineAum (heap st) (currentHoldings st) (currentCash st) am d) t ps)).
  destruct (aget (positionStates st) t) as [ps0|] eqn:Eg; [|done]. cbn. intros [= <-].
  destruct (Hinv t ps0 Eg) as (i & Hi & Hpad & Hf).
  destruct (Hdates t ps0 Eg) as (i' & Hi' & Hdt).
  assert (i' = i) as -> by congruence.
  assert (i <= k) as Hik.
  { destruct (findIndex_Some _ _ _ Hi) as (x & Hx & _).
    apply lookup_lt_Some in Hx. rewrite length_take in Hx. lia. }
  assert (length (st_history ps0) = k - pred i) as Hl.
  { rewrite <- (length_map hp_date), Hdt, length_take, length_drop.
    apply lookup_lt_Some in Hd. lia. }
  exists i. split; [done|]. cbn [st_history dayMetrics].
  split; [by rewrite take_app_le by lia|].
  rewrite !drop_app_le by lia. apply Forall2_app; [done|].
  constructor; [|constructor].
  (* the point of the day against the holdings of the day *)
  assert (t ∈ map fst (holdingsView st)) as Hin.
  { rewrite Hkeys. apply aget_Some_elem in Eg. apply elem_of_map. by exists (t, ps0). }
  destruct (aget (holdingsView st) t) as [hd|] eqn:Ev;
    [|apply aget_None_notin in Ev; done].
  exists hd. split; [done|]. cbn.
  pose proof (Hsh t) as Hs. rewrite Ev in Hs. destruct Hs as [_ Hs].
  pose proof (Hpos t) as Hp. rewrite Eg in Hp. destruct Hp as (_ & (Hps & _) & _).
  split.
  - by rewrite Hs, Hps, fold_tradePos_shares.
  - unfold holdingsView in Ev. rewrite aget_readHoldings in Ev.
    destruct (aget (entriesOf (heap st) (currentHoldings st)) t); [|done].
    by injection Ev as <-.
Qed.

Lemma simulateFrom_match (dates : list string) : forall k st views,
  drop k allDates = dates ->
  length views = k ->
  wfState st -> distinctHoldings st ->
  posInv st (appliedTrades (take k allDates) trades) ->
  sharesInv (holdingsView st) (appliedTrades (take k allDates) trades) ->
  map fst (holdingsView st) = map fst (positionStates st) ->
  histDatesInv allDates trades k k (positionStates st) ->
  histMatchInv allDates trades k (positionStates st) views ->
  histMatchInv allDates trades (length allDates)
    (positionStates (simulateFrom allDates trades pm am k dates st))
    (views ++ viewsFrom trades pm dates (holdingsView st)).
Proof.
  induction dates as [|d r IH];
    intros k st views Hdrop Hlen Hwf Hnd Hpos Hsh Hkeys Hdates Hinv; cbn [simulateFrom].
  - assert (length allDates <= k) as Hk.
    { destruct (decide (length allDates <= k)) as [|Hn]; [done|].
      apply (f_equal length) in Hdrop. rewrite length_drop in Hdrop. cbn in Hdrop. lia. }
    cbn. rewrite app_nil_r.
    intros t ps Hg. destruct (Hinv t ps Hg) as (i & Hi & Hf). exists i.
    rewrite take_ge in Hi by done. rewrite (take_ge allDates) by done. done.
  - assert (allDates !! k = Some d) as Hd.
    { rewrite <- (Nat.add_0_r k), <- lookup_drop, Hdrop. done. }
    assert (drop (S k) allDates = r) as Hdrop'.
    { rewrite (drop_S _ _ _ Hd) in Hdrop. by injection Hdrop. }
    assert (appliedTrades (take (S k) allDates) trades
            = appliedTrades (take k allDates) trades ++ daysTrades trades d) as Happ.
    { rewrite (take_S_r _ _ _ Hd), appliedTrades_app. f_equal.
      unfold appliedTrades. cbn. by rewrite app_nil_r. }
    set (applied := appliedTrades (take k allDates) trades) in *.
    (* step A *)
    destruct (tradesStep_view allDates trades pm k d st Hwf Hnd) as (Hwf1 & Hnd1 & Hv1).
    set (st1 := tradesStep allDates trades pm k d st) in *.
    assert (posInv st1 (applied ++ daysTrades trades d)) as Hpos1
      by (unfold st1, tradesStep; by apply tradesFold_posInv).
    assert (forall t, tickerTrades t applied = [] ->
              findIndex (tradedOn trades t) (take k allDates) = None) as Hprev
      by (intros t Ht; by apply untraded_before).
    assert (Forall (fun tr => tr ∈ daysTrades trades d) (daysTrades trades d)) as Hall
      by (apply Forall_forall; by intros tr Htr).
    assert (histDatesInv allDates trades (S k) k (positionStates st1)) as Hdates1.
    { unfold st1, tradesStep.
      apply (tradesFold_hist allDates trades pm k d _ _ applied); [done|done|done|done|].
      intros t ps Hg. destruct (Hdates t ps Hg) as (i & Hi & Hdt). exists i.
      split; [|done]. rewrite (take_S_r _ _ _ Hd). by apply findIndex_app_Some. }
    assert (histMatchInv allDates trades (S k) (positionStates st1) views) as Hinv1.
    { unfold st1, tradesStep.
      apply (tradesFold_match k d views _ _ applied); [done|done|done|done|done|].
      intros t ps Hg. destruct (Hinv t ps Hg) as (i & Hi & Hf). exists i.
      split; [|done]. rewrite (take_S_r _ _ _ Hd). by apply findIndex_app_Some. }
    (* step B *)
    destruct (pricesStep_view pm d st1 (proj1 Hwf1) Hnd1) as [Hnd2 Hv2].
    destruct (simStep_frame _ _ Hwf1 (step_prices pm d st1)) as [Hwf2 _].
    set (st2 := pricesStep pm d st1) in *.
    assert (holdingsView st2 = dayView trades pm d (holdingsView st)) as Hview2.
    { rewrite Hv2, Hv1. reflexivity. }
    assert (posInv st2 (applied ++ daysTrades trades d)) as Hpos2
      by by apply pricesStep_posInv.
    assert (sharesInv (holdingsView st2) (applied ++ daysTrades trades d)) as Hsh2
      by (rewrite Hview2; by apply dayView_shares).
    assert (map fst (holdingsView st2) = map fst (positionStates st2)) as Hkeys2.
    { rewrite Hview2, dayView_keys, Hkeys.
      pose proof (simulateDay_posKeys allDates trades pm am st k d) as Hpk.
      unfold simulateDay, snapshotStep in Hpk. destruct (jsonClone _ _) in Hpk.
      cbn in Hpk. rewrite map_map in Hpk. cbn in Hpk. symmetry. exact Hpk. }
    (* steps C and D *)
    destruct (snapshotStep_view am d st2 Hwf2 Hnd2) as (Hnd3 & Hv3 & _).
    destruct (simStep_frame _ _ Hwf2 (step_snapshot am d st2)) as [Hwf3 _].
    pose proof (snapshotStep_match k d st2 _ views Hd Hlen Hpos2 Hsh2 Hkeys2 Hdates1 Hinv1)
      as Hinv3.
    pose proof (snapshotStep_hist allDates trades am k d st2 Hd Hdates1) as Hdates3.
    pose proof (snapshotStep_posInv am d st2 _ Hpos2) as Hpos3.
    set (st3 := snapshotStep am d st2) in *.
    change (simulateDay allDates trades pm am st k d) with st3.
    assert (holdingsView st3 = dayView trades pm d (holdingsView st)) as Hview3
      by by rewrite Hv3.
    cbn [viewsFrom]. rewrite <- Hview3.
    replace (views ++ holdingsView st3 :: viewsFrom trades pm r (holdingsView st3))
      with ((views ++ [holdingsView st3]) ++ viewsFrom trades pm r (holdingsView st3))
      by by rewrite <- app_assoc.
    apply IH; [done| | done | done | | | | done | ].
    + rewrite length_app. cbn. lia.
    + by rewrite Happ.
    + rewrite Happ, Hview3, <- Hview2. done.
    + rewrite Hview3, <- Hview2, Hkeys2. unfold st3, snapshotStep.
      destruct (jsonClone _ _). cbn. rewrite map_map. done.
    + rewrite Hview3, <- Hview2. exact Hinv3.
Qed.

End HistoryMatch.

Lemma Forall2_with_keys {A B K : Type} (R : A -> B -> Prop) (f : A -> K) (g : B -> K)
    (l1 : list A) (l2 : list B) :
  Forall2 R l1 l2 -> map f l1 = map g l2 ->
  Forall2 (fun a b => f a = g b /\ R a b) l1 l2.
Proof.
  induction 1 as [|a b l1 l2 Hab Hl IH]; cbn; [constructor|].
  intros [= Hk Hr]. constructor; [done | by apply IH].
Qed.

Lemma Forall2_map_r {A B C : Type} (R : A -> C -> Prop) (f : B -> C)
    (l : list A) (k : list B) :
  Forall2 R l (map f k) -> Forall2 (fun a b => R a (f b)) l k.
Proof.
  revert k. induction l as [|a l IH]; intros [|b k]; cbn; intros Hf;
    inversion Hf; subst; constructor; auto.
Qed.

Lemma sliceHistory_elem {num : Type} `{JsNumber num}
    (history : list (PositionHistoryPoint (num := num))) (startDate endDate : string)
    (pt : PositionHistoryPoint (num := num)) :
  pt ∈ sliceHistory history startDate endDate -> pt ∈ history.
Proof.
  unfold sliceHistory. destruct (nonEmpty startDate && nonEmpty endDate); [|done].
  destruct (findIndex _ history); [|done].
  destruct (findIndex _ history); [|done].
  intros Hin. eapply elem_of_sublist; [exact Hin|].
  etrans; [apply sublist_take | apply sublist_drop].
Qed.

(** X8.  The history of a finalized position and the portfolio snapshots tell
    the same story: every point of the history is either the padding point
    before the first trade (no shares, no P&L) or has, in the snapshot of its
    date, the ticker of the position listed with the shares and the price of
    the point. *)
Theorem position_history_agrees_with_snapshots :
  forall (num : Type) (N : JsNumber num) (allDates : list string)
         (trades : list (Trade (num := num))) (pm : PriceMap) (am : AumMap)
         (lastMap firstMap : list (string * string))
         (p : Position) (pt : PositionHistoryPoint),
    let st := simulatePortfolio allDates trades pm am in
    p ∈ finalizePositions st trades lastMap firstMap ->
    pt ∈ pos_history p ->
    padding pt \/
    exists snap,
      snap ∈ portfolioHistory st /\ ps_date snap = hp_date pt /\
      pointMatches (pos_ticker p) pt (readHoldings (heap st) (ps_holdings snap)).
Proof.
  intros num N allDates trades pm am lastMap firstMap p pt st Hp Hpt.
  unfold finalizePositions in Hp. apply elem_of_map in Hp as ([t ps] & -> & Hin).
  cbn in *. apply sliceHistory_elem in Hpt.
  assert (aget (positionStates st) t = Some ps) as Hg.
  { assert (NoDup (map fst (positionStates st))) as Hnd.
    { unfold st, simulatePortfolio. rewrite simulateFrom_posKeys. apply newSet_spec. }
    clear -Hnd Hin. induction (positionStates st) as [|[k x] r IH]; [inversion Hin|].
    cbn in *. apply NoDup_cons in Hnd as [Hk Hnd].
    apply elem_of_cons in Hin as [[= -> ->]|Hin]; [by rewrite String.eqb_refl|].
    destruct (String.eqb t k) eqn:E; [|by apply IH].
    apply String.eqb_eq in E as ->. exfalso. apply Hk. apply elem_of_map. by exists (k, ps). }
  assert (histMatchInv allDates trades (length allDates) (positionStates st)
            (viewsFrom trades pm allDates [])) as Hm.
  { apply (simulateFrom_match allDates trades pm am allDates 0 initState []);
      first [ done | apply wfState_init | apply distinct_init
            | apply posInv_init | apply sharesInv_nil ]. }
  assert (histDatesInv allDates trades (length allDates) (length allDates)
            (positionStates st)) as Hd.
  { apply simulateFrom_hist; [done|apply posInv_init|]. intros t' ps'. cbn. done. }
  destruct (Hm t ps Hg) as (i & Hi & Hpad & Hf).
  destruct (Hd t ps Hg) as (i' & Hi' & Hdt).
  assert (i' = i) as -> by congruence.
  destruct (simulatePortfolio_views allDates trades pm am) as (Hr & _).
  fold st in Hr. rewrite <- Hr in Hf.
  pose proof (simulatePortfolio_dates allDates trades pm am) as Hsd. fold st in Hsd.
  rewrite <- (take_drop (i - pred i) (st_history ps)) in Hpt.
  apply elem_of_app in Hpt as [Hpt|Hpt].
  - left. rewrite Forall_forall in Hpad. by apply Hpad.
  - right.
    assert (i < length allDates) as Hlt.
    { rewrite take_ge in Hi by done. destruct (findIndex_Some _ _ _ Hi) as (x & Hx & _).
      by eapply lookup_lt_Some. }
    assert (map hp_date (drop (i - pred i) (st_history ps))
            = map ps_date (drop i (portfolioHistory st))) as Hdates.
    { rewrite <- !skipn_map.
      rewrite Hdt, Hsd. rewrite take_ge by (rewrite length_drop; lia).
      rewrite drop_drop. f_equal. lia. }
    rewrite skipn_map in Hf. apply Forall2_map_r in Hf.
    pose proof (Forall2_with_keys _ hp_date ps_date _ _ Hf Hdates) as Hall.
    apply list_elem_of_lookup in Hpt as [j Hj].
    destruct (Forall2_lookup_l _ _ _ _ _ Hall Hj) as (snap & Hs & Hdate & Hmt).
    exists snap. split; [|by split].
    apply list_elem_of_lookup_2 in Hs.
    eapply elem_of_sublist; [exact Hs | apply sublist_drop].
Qed.

Lemma position_history_agrees_with_snapshots_witness :
  let allDates := ["2024-01-01"; "2024-01-02"; "2024-01-03"] in
  let st := simulatePortfolio allDates buyThenSell [] [] in
  exists p pt,
    finalizePositions st buyThenSell [] [] = [p] /\
    pos_history p !! 1 = Some pt /\
    (padding pt \/
     exists snap,
       snap ∈ portfolioHistory st /\ ps_date snap = hp_date pt /\
       pointMatches (pos_ticker p) pt (readHoldings (heap st) (ps_holdings snap))).
Proof.
  intros allDates st. eexists. eexists.
  split; [vm_compute; reflexivity|]. split; [vm_compute; reflexivity|].
  apply (position_history_agrees_with_snapshots float Float64 allDates buyThenSell [] [] [] []).
  - vm_compute. apply list_elem_of_here.
  - vm_compute. apply list_elem_of_further, list_elem_of_here.
Defined.

(** ** The window of a position history *)

(** X9.  The history of a finalized position is a contiguous run of the
    history simulated for it.  When the first date of the window is found at
    index [a] and the last at index [b], the run goes from [a - 1] (from 0
    when [a] is 0) up to [b + 1] (up to the end when [b] is the last index):
    the window with one point of padding on each side; it is empty when
    [b + 2 <= a - 1].  When a bound of the window is empty or dated outside
    the history, the whole history is kept. *)
Theorem history_window_is_a_padded_slice :
  forall (num : Type) (N : JsNumber num)
         (history : list (PositionHistoryPoint (num := num))) (startDate endDate : string),
    let kept := sliceHistory history startDate endDate in
    let at_ d := findIndex (fun p => String.eqb (hp_date p) d) history in
    (exists before after, history = before ++ kept ++ after) /\
    (forall a b,
        startDate <> "" -> endDate <> "" ->
        at_ startDate = Some a -> at_ endDate = Some b ->
        forall j, kept !! j = if decide (pred a + j < b + 2) then history !! (pred a + j)
                              else None) /\
    (startDate = "" \/ endDate = "" \/ at_ startDate = None \/ at_ endDate = None ->
     kept = history).
Proof.
  intros num N history startDate endDate kept at_. unfold kept, sliceHistory. fold at_.
  split; [|split].
  - destruct (nonEmpty startDate && nonEmpty endDate);
      [|exists [], []; by rewrite app_nil_r].
    fold (at_ startDate) (at_ endDate).
    destruct (at_ startDate) as [a|]; [|exists [], []; by rewrite app_nil_r].
    destruct (at_ endDate) as [b|]; [|exists [], []; by rewrite app_nil_r].
    exists (take (pred a) history),
           (drop (Nat.min (length history) (b + 2) - pred a) (drop (pred a) history)).
    by rewrite take_drop, take_drop.
  - intros a b Hs He Ha Hb j.
    apply nonEmpty_true in Hs, He. rewrite Hs, He. cbn [andb].
    fold (at_ startDate) (at_ endDate). rewrite Ha, Hb.
    destruct (decide (pred a + j < b + 2)) as [Hlt|Hge].
    + destruct (decide (pred a + j < length history)) as [Hl|Hl].
      * rewrite lookup_take_lt by lia. by rewrite lookup_drop.
      * rewrite (lookup_ge_None_2 history) by lia.
        apply lookup_ge_None_2. rewrite length_take, length_drop. lia.
    + apply lookup_ge_None_2. rewrite length_take, length_drop. lia.
  - intros Hc. destruct (nonEmpty startDate) eqn:Es; [|done].
    destruct (nonEmpty endDate) eqn:Ee; [|done]. cbn [andb].
    apply nonEmpty_true in Es, Ee.
    fold (at_ startDate) (at_ endDate).
    destruct Hc as [?|[?|[Hn|Hn]]]; [done|done| |]; rewrite Hn; [done|].
    by destruct (at_ startDate).
Qed.

(** ** White space *)

Lemma trimStart_idem (s : string) : trimStart (trimStart s) = trimStart s.
Proof.
  induction s as [|c r IH]; cbn; [done|].
  destruct (isSpace c) eqn:E; [done|]. cbn. by rewrite E.
Qed.

Lemma trimEnd_idem (s : string) : trimEnd (trimEnd s) = trimEnd s.
Proof.
  induction s as [|c r IH]; cbn; [done|].
  destruct (trimEnd r) as [|c' r'] eqn:Er.
  - destruct (isSpace c) eqn:E; cbn; [done|]. by rewrite E.
  - cbn [trimEnd] in *. fold trimEnd in *. rewrite IH. done.
Qed.

Lemma trimStart_trimEnd (s : string) :
  trimStart s = s -> trimStart (trimEnd s) = trimEnd s.
Proof.
  destruct s as [|c r]; cbn; [done|].
  destruct (isSpace c) eqn:E.
  - intros Hs. exfalso.
    assert (String.length (trimStart r) <= String.length r) as Hle.
    { clear. induction r as [|c r IH]; cbn; [done|]. destruct (isSpace c); cbn; lia. }
    rewrite Hs in Hle. cbn in Hle. lia.
  - intros _. destruct (trimEnd r); cbn; by rewrite E.
Qed.

Lemma trim_idem (s : string) : trim (trim s) = trim s.
Proof.
  unfold trim.
  rewrite (trimStart_trimEnd (trimStart s)) by apply trimStart_idem.
  apply trimEnd_idem.
Qed.

(** ** What [parseTradeBlotter] emits *)

Section Blotter.
Context {num : Type} `{JsNumber num} `{JsRuntime num}.
Implicit Types (row : Row (num := num)) (acc : nat * list (Trade (num := num))).

Lemma blotterRow_cases rnd acc row :
  blotterRow rnd acc row = acc \/
  exists id,
    (blotterRow rnd acc row).2 = acc.2 ++ [rowTrade id row] /\
    includes (toUpperCase (firstText [col_Description row] "")) "FX SPOT" = false.
Proof.
  unfold blotterRow.
  repeat match goal with
         | |- context [if ?c then acc else _] => destruct c eqn:?; [by left|]
         end.
  right. destruct (nonEmpty (explicitId (col_TradeId row))); eexists; by split.
Qed.

Lemma parseTradeBlotter_Forall (P : Trade (num := num) -> Prop) rnd (rows : list Row) :
  (forall id row,
      includes (toUpperCase (firstText [col_Description row] "")) "FX SPOT" = false ->
      P (rowTrade id row)) ->
  Forall P (parseTradeBlotter rnd rows).
Proof.
  intros HP. unfold parseTradeBlotter.
  assert (Forall P (0, @nil (Trade (num := num))).2) as Hacc by constructor.
  revert Hacc. generalize (0, @nil (Trade (num := num))).
  induction rows as [|row r IH]; intros acc Hacc; cbn [fold_left]; [done|].
  apply IH. destruct (blotterRow_cases rnd acc row) as [->|(id & -> & Hfx)]; [done|].
  apply Forall_app. split; [done|]. constructor; [by apply HP | constructor].
Qed.

Lemma parseTradeBlotter_length rnd (rows : list Row) :
  length (parseTradeBlotter rnd rows) <= length rows.
Proof.
  unfold parseTradeBlotter.
  enough (forall acc, length (fold_left (blotterRow rnd) rows acc).2
                      <= length acc.2 + length rows) as Hgen
    by (specialize (Hgen (0, [])); cbn in *; lia).
  induction rows as [|row r IH]; intros acc; cbn [fold_left length]; [lia|].
  specialize (IH (blotterRow rnd acc row)).
  destruct (blotterRow_cases rnd acc row) as [E|(id & E & _)].
  - rewrite E in IH |- *. lia.
  - rewrite E, length_app in IH. cbn in IH. lia.
Qed.

Lemma getUniqueTicker_trimmed (tk desc : string) :
  trim (getUniqueTicker tk desc) = getUniqueTicker tk desc.
Proof. unfold getUniqueTicker. destruct (isOption tk desc); apply trim_idem. Qed.

End Blotter.

(** X10.  [parseTradeBlotter] emits at most one trade per row; the ticker of
    every trade it emits is trimmed (trimming it again changes nothing), and
    no trade it emits has FX SPOT in its description, in whatever letter
    case. *)
Theorem blotter_trades_are_clean :
  forall (num : Type) (N : JsNumber num) (R : JsRuntime num)
         (rnd : nat -> string) (rows : list Row),
    let trades := parseTradeBlotter rnd rows in
    length trades <= length rows /\
    Forall (fun t => trim (ticker t) = ticker t) trades /\
    Forall (fun t => includes (toUpperCase (description t)) "FX SPOT" = false) trades.
Proof.
  intros num N R rnd rows trades. split; [apply parseTradeBlotter_length|]. split.
  - apply parseTradeBlotter_Forall. intros id row _. apply getUniqueTicker_trimmed.
  - apply parseTradeBlotter_Forall. by intros id row Hfx.
Qed.

(** ** More on consolidation *)

Section ConsolidationMore.
Context {num : Type} `{JsNumber num} `{JsDate}.
Implicit Types (ts : list (Trade (num := num))) (t x : Trade (num := num)).

Lemma elem_of_omap {A B : Type} (f : A -> option B) (l : list A) (b : B) :
  b ∈ omap f l <-> exists a, a ∈ l /\ f a = Some b.
Proof.
  induction l as [|a r IH]; cbn.
  - split; [intros Hb; inversion Hb | intros (a & Ha & _); inversion Ha].
  - destruct (f a) as [b'|] eqn:E.
    + rewrite elem_of_cons, IH. split.
      * intros [->|(a' & Ha' & Hf)]; [exists a; split; [apply list_elem_of_here|done]|].
        exists a'. split; [by apply list_elem_of_further|done].
      * intros (a' & Ha' & Hf). apply elem_of_cons in Ha' as [->|Ha'].
        -- left. congruence.
        -- right. by exists a'.
    + rewrite IH. split.
      * intros (a' & Ha' & Hf). exists a'. split; [by apply list_elem_of_further|done].
      * intros (a' & Ha' & Hf). apply elem_of_cons in Ha' as [->|Ha']; [congruence|].
        by exists a'.
Qed.

(** The merged trades are those of the groups with a positive share total. *)
Lemma consolidatedArgx_elem ts x :
  Forall (fun t => pipeFree (tradeDate t) = true) ts ->
  x ∈ consolidatedArgx ts <->
  exists d ty,
    let members := List.filter (inGroup d ty) (argxTrades ts) in
    members <> [] /\ ngtb (sumBy quantity members) nzero = true /\
    x = mergedTrade d ty members.
Proof.
  intros Hpf. set (argx := argxTrades ts).
  assert (forall t, t ∈ argx -> pipeFree (tradeDate t) = true) as Hpfa.
  { intros t (_ & t0 & Ht0 & ->)%argxTrades_elem.
    rewrite Forall_forall in Hpf. by apply Hpf. }
  assert (forall b, b ∈ argx ->
            keyMembers (groupKey b) argx
            = List.filter (inGroup (tradeDate b) (txnType b)) argx) as Hkm.
  { intros b Hb. unfold keyMembers. apply List.filter_ext_in.
    intros t Ht%list_elem_of_In. unfold groupKey at 2.
    apply groupKey_inGroup; by apply Hpfa. }
  assert (forall b, b ∈ argx ->
            consolidatedTrade (groupKey b) (groupOf (groupKey b) argx)
            = let members := List.filter (inGroup (tradeDate b) (txnType b)) argx in
              if ngtb (sumBy quantity members) nzero
              then Some (mergedTrade (tradeDate b) (txnType b) members) else None) as Hct.
  { intros b Hb. unfold consolidatedTrade, groupOf.
    cbn [grp_shares grp_trades cashFlowUsd]. rewrite (Hkm b Hb). cbn zeta.
    destruct (ngtb _ nzero); [|done].
    assert (b ∈ List.filter (inGroup (tradeDate b) (txnType b)) argx) as Hbm.
    { rewrite list_elem_of_In, List.filter_In, <- list_elem_of_In. split; [done|].
      unfold inGroup. by rewrite !String.eqb_refl. }
    destruct (List.filter (inGroup (tradeDate b) (txnType b)) argx) as [|b0 r] eqn:Em;
      [inversion Hbm|].
    assert (b0 ∈ List.filter (inGroup (tradeDate b) (txnType b)) argx) as Hb0
      by (rewrite Em; apply list_elem_of_here).
    rewrite list_elem_of_In, List.filter_In, <- list_elem_of_In in Hb0.
    destruct Hb0 as [_ Hg]. unfold inGroup in Hg.
    apply andb_true_iff in Hg as [Hd%String.eqb_eq Hty%String.eqb_eq].
    unfold groupKey. rewrite splitPipe_key by by apply Hpfa.
    destruct (splitPipe_cons (txnType b)) as (w & ws & Hw). rewrite Hw. cbn [nth hd].
    unfold mergedTrade. rewrite Hw, Hd, Hty. reflexivity. }
  rewrite consolidatedArgx_spec. fold argx. rewrite elem_of_omap. split.
  - intros (k & Hk & Hx). apply (proj1 (proj2 (newSet_spec _) _)) in Hk.
    apply elem_of_map in Hk as (b & -> & Hb). rewrite (Hct b Hb) in Hx. cbn zeta in Hx.
    exists (tradeDate b), (txnType b). cbn zeta.
    destruct (ngtb _ nzero) eqn:Ep; [|done]. injection Hx as <-.
    split; [|done]. intros Hnil.
    assert (b ∈ List.filter (inGroup (tradeDate b) (txnType b)) argx) as Hbm.
    { rewrite list_elem_of_In, List.filter_In, <- list_elem_of_In. split; [done|].
      unfold inGroup. by rewrite !String.eqb_refl. }
    rewrite Hnil in Hbm. inversion Hbm.
  - intros (d & ty & Hne & Hpos & ->). cbn zeta in *.
    destruct (List.filter (inGroup d ty) argx) as [|b r] eqn:Em; [done|].
    assert (b ∈ List.filter (inGroup d ty) argx) as Hb
      by (rewrite Em; apply list_elem_of_here).
    rewrite list_elem_of_In, List.filter_In, <- list_elem_of_In in Hb.
    destruct Hb as [Hb Hg]. unfold inGroup in Hg.
    apply andb_true_iff in Hg as [Hd%String.eqb_eq Hty%String.eqb_eq]. subst d ty.
    exists (groupKey b). split.
    + apply newSet_spec. apply elem_of_map. by exists b.
    + rewrite (Hct b Hb). cbn zeta. rewrite Em, Hpos. done.
Qed.

Lemma elem_of_otherTrades ts x : x ∈ otherTrades ts <-> x ∈ ts /\ ticker x <> "ARGX".
Proof.
  unfold otherTrades, isArgx.
  rewrite list_elem_of_In, List.filter_In, <- list_elem_of_In, negb_true_iff.
  by rewrite eqb_false_ne.
Qed.

(** With valid dates the sort of the consolidator orders by time. *)
Lemma sortBy_tradeAfter_sorted ts :
  Forall (fun t => validDate (tradeDate t)) ts ->
  StronglySorted (fun a b => notLater (tradeDate a) (tradeDate b)) (sortBy tradeAfter ts).
Proof.
  intros Hv.
  assert (Forall (fun t => validDate (tradeDate t)) (sortBy tradeAfter ts)) as Hv'.
  { rewrite Forall_forall in Hv |- *. intros d Hd. apply Hv.
    by rewrite sortBy_Permutation in Hd. }
  assert (StronglySorted (notAfter tradeAfter) (sortBy tradeAfter ts)) as Hs.
  { apply (sortBy_sorted tradeAfter (fun t => validDate (tradeDate t))); [| |done].
    - intros x y [tx Hx] [ty Hy]. unfold tradeAfter, dateAfter. rewrite Hx, Hy.
      rewrite !Z.ltb_lt, Z.ltb_ge. lia.
    - intros x y z [tx Hx] [ty Hy] [tz Hz]. unfold notAfter, tradeAfter, dateAfter.
      rewrite Hx, Hy, Hz, !Z.ltb_ge. lia. }
  revert Hv'. induction Hs as [|a r Hr IH Ha]; intros Hv'; constructor.
  - apply IH. by apply Forall_cons in Hv' as [_ ?].
  - apply Forall_cons in Hv' as [[ta Hta] Hv'].
    rewrite Forall_forall in Ha, Hv' |- *. intros b Hb.
    destruct (Hv' b Hb) as [tb Htb]. exists ta, tb. split; [done|]. split; [done|].
    specialize (Ha b Hb). unfold notAfter, tradeAfter, dateAfter in Ha.
    rewrite Hta, Htb, Z.ltb_ge in Ha. lia.
Qed.

End ConsolidationMore.

(** X11.  When no trade date contains a bar, the consolidator returns the
    trades of the other tickers unchanged and, for ARGX, the merged trades of
    the groups (date, type) whose share total is positive, and nothing else:
    the ARGX trades of a group whose share total is zero or negative (entries
    of quantity 0, for instance) are dropped, net proceeds included. *)
Theorem consolidation_keeps_and_drops :
  forall (num : Type) (N : JsNumber num) (D : JsDate)
         (ts : list (Trade (num := num))) (x : Trade),
    Forall (fun t => pipeFree (tradeDate t) = true) ts ->
    x ∈ consolidateArgxTrades ts <->
    (x ∈ ts /\ ticker x <> "ARGX") \/
    exists d ty,
      let members := List.filter (inGroup d ty) (argxTrades ts) in
      members <> [] /\ ngtb (sumBy quantity members) nzero = true /\
      x = mergedTrade d ty members.
Proof.
  intros num N D ts x Hpf. unfold consolidateArgxTrades.
  rewrite sortBy_Permutation, elem_of_app, elem_of_otherTrades.
  by rewrite (consolidatedArgx_elem ts x Hpf).
Qed.

Lemma consolidation_keeps_and_drops_witness :
  @consolidateArgxTrades float Float64 isoDate zeroArgxEntry
  = [ mkTrade "T2" "ACME INC" "ACME" "2024-01-03" "Buy"
        100%float 10%float "USD" (-1000)%float 0%float 0%float ] /\
  mkTrade "T2" "ACME INC" "ACME" "2024-01-03" "Buy"
    100%float 10%float "USD" (-1000)%float 0%float 0%float
  ∈ @consolidateArgxTrades float Float64 isoDate zeroArgxEntry.
Proof.
  split; [reflexivity|].
  apply (consolidation_keeps_and_drops float Float64 isoDate zeroArgxEntry).
  - repeat constructor.
  - left. split; [|discriminate]. apply list_elem_of_further, list_elem_of_here.
Defined.

(** X12.  When every trade date is a valid date, the consolidator returns
    the trades in ascending order of time. *)
Theorem consolidated_trades_are_chronological :
  forall (num : Type) (N : JsNumber num) (D : JsDate) (ts : list (Trade (num := num))),
    Forall (fun t => validDate (tradeDate t)) ts ->
    StronglySorted (fun a b => notLater (tradeDate a) (tradeDate b))
                   (consolidateArgxTrades ts).
Proof.
  intros num N D ts Hv. unfold consolidateArgxTrades.
  apply sortBy_tradeAfter_sorted. apply Forall_app. split.
  - unfold otherTrades. rewrite Forall_forall in Hv |- *. intros t Ht. apply Hv.
    apply elem_of_otherTrades in Ht. tauto.
  - rewrite Forall_forall. intros t Ht. unfold consolidatedArgx in Ht.
    apply elem_of_omap in Ht as ([k g] & Hkg & Hct). unfold consolidatedTrade in Hct.
    cbn in Hct. destruct (ngtb (grp_shares g) nzero); [|done].
    destruct (grp_trades g) as [|b r] eqn:Eg; [done|]. injection Hct as <-. cbn.
    (* the base trade of a group is a converted input trade *)
    rewrite groupArgx_spec in Hkg. apply elem_of_map in Hkg as (k' & [= -> ->] & _).
    cbn in Eg. assert (b ∈ keyMembers k' (argxTrades ts)) as Hb
      by (rewrite Eg; apply list_elem_of_here).
    unfold keyMembers in Hb.
    rewrite list_elem_of_In, List.filter_In, <- list_elem_of_In in Hb.
    destruct Hb as [Hb _]. apply argxTrades_elem in Hb as (_ & t0 & Ht0 & ->).
    rewrite Forall_forall in Hv. by apply Hv.
Qed.

Lemma consolidated_trades_are_chronological_witness :
  StronglySorted (fun a b => @notLater isoDate (tradeDate a) (tradeDate b))
    (@consolidateArgxTrades float Float64 isoDate (rev buyThenSell)) /\
  map tradeDate (@consolidateArgxTrades float Float64 isoDate (rev buyThenSell))
  = ["2024-01-02"; "2024-01-03"].
Proof.
  split; [|reflexivity].
  apply (consolidated_trades_are_chronological float Float64 isoDate (rev buyThenSell)).
  repeat constructor; by eexists.
Defined.

(** ** The pipeline *)

Section ExactBlotter.
Context `{R : JsRuntime Q} `{D : JsDate}.
Open Scope Q_scope.

Lemma consolidateArgxTrades_quantity (ts : list (Trade (num := Q))) :
  Forall (fun t => 0 <= quantity t) ts ->
  Forall (fun t => 0 <= quantity t) (consolidateArgxTrades ts).
Proof.
  intros Hq. unfold consolidateArgxTrades.
  rewrite Forall_forall in Hq |- *. intros t Ht.
  rewrite sortBy_Permutation, elem_of_app in Ht. destruct Ht as [Ht|Ht].
  - apply Hq. apply elem_of_otherTrades in Ht. tauto.
  - unfold consolidatedArgx in Ht.
    apply elem_of_omap in Ht as ([k g] & _ & Hct). unfold consolidatedTrade in Hct.
    cbn [fst snd] in Hct. destruct (ngtb (grp_shares g) nzero) eqn:Ep; [|done].
    destruct (grp_trades g); [done|]. injection Hct as <-. cbn [quantity].
    unfold ngtb in Ep. cbn [nltb Exact nzero] in Ep. apply Qltb_true in Ep. lra.
Qed.

End ExactBlotter.

(** X13.  In exact arithmetic no trade of the dashboard has a negative
    quantity, whatever sign or parentheses the quantity cell of its row
    carried: the direction of a trade is in its type alone. *)
Theorem quantities_are_never_negative :
  forall (R : JsRuntime Q) (D : JsDate) (rnd : nat -> string)
         (rows : list (Row (num := Q))) (hist : HistoryData),
    Forall (fun t => (0 <= quantity t)%Q) (dd_trades (parseTradeData rnd rows hist)).
Proof.
  intros R D rnd rows hist. unfold parseTradeData. cbn [dd_trades].
  apply consolidateArgxTrades_quantity.
  apply parseTradeBlotter_Forall. intros id row _. cbn.
  rewrite Qred_correct. apply Qabs_nonneg.
Qed.

(** X14.  The dashboard has one snapshot per date of the timeline: the dates
    of the snapshots are pairwise distinct, they are the trade dates (the
    empty date of undated trades included) and the history dates, and they
    ascend in time when all of these are valid dates. *)
Theorem one_snapshot_per_timeline_date :
  forall (num : Type) (N : JsNumber num) (R : JsRuntime num) (D : JsDate)
         (rnd : nat -> string) (rows : list Row) (hist : HistoryData),
    let d := parseTradeData rnd rows hist in
    let dates := map ps_date (dd_portfolioHistory d) in
    NoDup dates /\
    (forall x, x ∈ dates <-> x ∈ map tradeDate (dd_trades d) \/ x ∈ historyDates hist) /\
    (Forall validDate (map tradeDate (dd_trades d) ++ historyDates hist) ->
     StronglySorted notLater dates).
Proof.
  intros num N R D rnd rows hist d dates.
  unfold dates, d, parseTradeData. cbn [dd_portfolioHistory dd_trades].
  rewrite simulatePortfolio_dates.
  split; [apply buildTimeline_elem|]. split; [apply buildTimeline_elem|].
  apply buildTimeline_sorted.
Qed.

(** ** Substrings *)

Lemma append_nil_l (x : string) : String.append "" x = x.
Proof. reflexivity. Qed.

Lemma substring_prefix (s : string) : forall n,
  exists post, s = String.append (String.substring 0 n s) post.
Proof.
  induction s as [|c r IH]; intros n.
  - exists "". by destruct n.
  - destruct n as [|n]; [by exists (String c r)|].
    destruct (IH n) as [p Hp]. exists p. cbn [String.substring].
    rewrite append_String. f_equal. exact Hp.
Qed.

Lemma substring_segment (s : string) : forall m n,
  exists pre post, s = String.append pre (String.append (String.substring m n s) post).
Proof.
  induction s as [|c r IH]; intros m n.
  - exists "", "". by destruct m, n.
  - destruct m as [|m].
    + destruct (substring_prefix (String c r) n) as [post E]. by exists "", post.
    + destruct (IH m n) as (pre & post & E). exists (String c pre), post.
      cbn [String.substring]. rewrite append_String. f_equal. exact E.
Qed.

Lemma substring_append (pre sub post : string) :
  String.substring (String.length pre) (String.length sub)
    (String.append pre (String.append sub post)) = sub.
Proof.
  induction pre as [|c r IH].
  - rewrite append_nil_l. cbn [String.length].
    induction sub as [|c r IH].
    + rewrite append_nil_l. by destruct post.
    + rewrite append_String. cbn [String.length String.substring]. by rewrite IH.
  - rewrite append_String. cbn [String.length String.substring]. exact IH.
Qed.

(** [s.includes(sub)] says that [sub] is a segment of [s]. *)
Lemma includes_segment (s sub : string) :
  includes s sub = true <->
  exists pre post, s = String.append pre (String.append sub post).
Proof.
  unfold includes. split.
  - destruct (String.index 0 sub s) as [m|] eqn:E; [|done]. intros _.
    apply String.index_correct1 in E.
    destruct (substring_segment s m (String.length sub)) as (pre & post & Hs).
    rewrite E in Hs. by exists pre, post.
  - intros (pre & post & ->).
    destruct (String.index 0 sub _) as [m|] eqn:E; [done|]. exfalso.
    destruct (string_dec sub "") as [->|Hne].
    + apply String.index_correct4 in E. lia.
    + apply (String.index_correct3 0 (String.length pre) _ _ E Hne); [lia|].
      apply substring_append.
Qed.

Lemma append_assoc (a b c : string) :
  String.append (String.append a b) c = String.append a (String.append b c).
Proof.
  induction a as [|x a IH]; [done|]. rewrite !append_String. by rewrite IH.
Qed.

Lemma append_nil_r (a : string) : String.append a "" = a.
Proof. induction a as [|x a IH]; [done|]. rewrite append_String. by rewrite IH. Qed.

Lemma includes_trans (a b c : string) :
  includes a b = true -> includes b c = true -> includes a c = true.
Proof.
  rewrite !includes_segment. intros (p1 & q1 & ->) (p2 & q2 & ->).
  exists (String.append p1 p2), (String.append q2 q1).
  by rewrite !append_assoc.
Qed.

Lemma includes_refl (a : string) : includes a a = true.
Proof.
  apply includes_segment. exists "", "". by rewrite append_nil_l, append_nil_r.
Qed.

Lemma includes_empty (c : string) : includes "" c = true -> c = "".
Proof.
  rewrite includes_segment. intros (pre & post & E).
  destruct pre; [|done]. rewrite append_nil_l in E. by destruct c.
Qed.

(** ** [findCol] *)

(** The equality test of [findCol] is covered by its [includes] test. *)
Lemma matchesCol_includes (cand k : string) :
  matchesCol cand k = includes (toLowerCase k) (toLowerCase cand).
Proof.
  unfold matchesCol. destruct (String.eqb _ _) eqn:E; [|done].
  apply String.eqb_eq in E. rewrite E. cbn. symmetry. apply includes_refl.
Qed.

Lemma toLowerCase_nonempty (s : string) : s <> "" -> toLowerCase s <> "".
Proof. by destruct s. Qed.

Lemma find_ext_in {A : Type} (f g : A -> bool) (l : list A) :
  (forall x, x ∈ l -> f x = g x) -> List.find f l = List.find g l.
Proof.
  induction l as [|x r IH]; cbn; [done|]. intros Hfg.
  rewrite (Hfg x) by apply list_elem_of_here.
  destruct (g x); [done|]. apply IH. intros y Hy. apply Hfg. by apply list_elem_of_further.
Qed.

Lemma find_Some_elem {A : Type} (f : A -> bool) (l : list A) (x : A) :
  List.find f l = Some x -> x ∈ l /\ f x = true.
Proof.
  intros Hf. apply List.find_some in Hf as [Hin Hx]. split; [by apply list_elem_of_In|done].
Qed.

Lemma find_None_all {A : Type} (f : A -> bool) (l : list A) :
  List.find f l = None <-> forall x, x ∈ l -> f x = false.
Proof.
  split.
  - intros Hn x Hx. apply (List.find_none _ _ Hn). by apply list_elem_of_In.
  - intros Hall. destruct (List.find f l) as [x|] eqn:E; [|done].
    apply find_Some_elem in E as [Hin Hx]. rewrite (Hall x Hin) in Hx. done.
Qed.

Lemma findCol_sound (keys cands : list string) (k : string) :
  findCol keys cands = Some k ->
  k ∈ keys /\ k <> "" /\
  exists c, c ∈ cands /\ includes (toLowerCase k) (toLowerCase c) = true.
Proof.
  induction cands as [|c r IH]; cbn; [done|].
  destruct (List.find (matchesCol c) keys) as [key|] eqn:E.
  - destruct (nonEmpty key) eqn:En.
    + intros [= <-]. apply find_Some_elem in E as [Hin Hm].
      split; [done|]. split; [by apply nonEmpty_true|].
      exists c. split; [apply list_elem_of_here | by rewrite <- matchesCol_includes].
    + intros Hr. destruct (IH Hr) as (? & ? & c' & ? & ?).
      split; [done|]. split; [done|]. exists c'. split; [by apply list_elem_of_further|done].
  - intros Hr. destruct (IH Hr) as (? & ? & c' & ? & ?).
    split; [done|]. split; [done|]. exists c'. split; [by apply list_elem_of_further|done].
Qed.

Lemma findCol_None (keys cands : list string) :
  Forall (fun c => c <> "") cands ->
  (findCol keys cands = None <->
   forall k c, k ∈ keys -> c ∈ cands ->
               includes (toLowerCase k) (toLowerCase c) = false).
Proof.
  intros Hne. induction Hne as [|c r Hc Hr IH]; cbn.
  - split; [|done]. intros _ k c _ Hc. inversion Hc.
  - destruct (List.find (matchesCol c) keys) as [key|] eqn:E.
    + apply find_Some_elem in E as [Hin Hm]. rewrite matchesCol_includes in Hm.
      assert (key <> "") as Hk.
      { intros ->. apply includes_empty in Hm. by apply (toLowerCase_nonempty c). }
      apply nonEmpty_true in Hk. rewrite Hk. split; [done|].
      intros Hall. rewrite (Hall key c Hin (list_elem_of_here _ _)) in Hm. done.
    + rewrite IH. pose proof (proj1 (find_None_all _ _) E) as Hn. split.
      * intros Hall k c' Hk Hc'. apply elem_of_cons in Hc' as [->|Hc'].
        -- rewrite <- matchesCol_includes. by apply Hn.
        -- by apply Hall.
      * intros Hall k c' Hk Hc'. apply Hall; [done|]. by apply list_elem_of_further.
Qed.

(** A candidate that contains an earlier, non-empty candidate never
    decides. *)
Lemma findCol_shadowed (keys pre mid post : list string) (c1 c2 : string) :
  c1 <> "" ->
  includes (toLowerCase c2) (toLowerCase c1) = true ->
  findCol keys (pre ++ c1 :: mid ++ c2 :: post) = findCol keys (pre ++ c1 :: mid ++ post).
Proof.
  intros Hne Hinc.
  induction pre as [|c r IH]; cbn [app findCol].
  - destruct (List.find (matchesCol c1) keys) as [key|] eqn:E.
    + apply find_Some_elem in E as [Hin Hm]. rewrite matchesCol_includes in Hm.
      assert (key <> "") as Hk.
      { intros ->. apply includes_empty in Hm. by apply (toLowerCase_nonempty c1). }
      apply nonEmpty_true in Hk. by rewrite Hk.
    + pose proof (proj1 (find_None_all _ _) E) as Hn.
      assert (List.find (matchesCol c2) keys = None) as E2.
      { apply find_None_all. intros k Hk. specialize (Hn k Hk).
        rewrite matchesCol_includes in Hn |- *.
        destruct (includes (toLowerCase k) (toLowerCase c2)) eqn:E2; [|done].
        by rewrite (includes_trans _ _ _ E2 Hinc) in Hn. }
      induction mid as [|m r IH]; cbn [app findCol].
      * by rewrite E2.
      * destruct (List.find (matchesCol m) keys) as [key|]; [|exact IH].
        destruct (nonEmpty key); [done | exact IH].
  - destruct (List.find (matchesCol c) keys) as [key|]; [|exact IH].
    destruct (nonEmpty key); [done | exact IH].
Qed.

(** X15.  [findCol] returns a non-empty key of the row that contains one of
    the candidates, letter case ignored (the test for equality adds nothing to
    the test for containment), and with non-empty candidates it returns
    nothing exactly when no key contains any candidate. *)
Theorem column_lookup_is_containment :
  (forall cand k, matchesCol cand k = includes (toLowerCase k) (toLowerCase cand)) /\
  (forall keys cands k,
      findCol keys cands = Some k ->
      k ∈ keys /\ k <> "" /\
      exists c, c ∈ cands /\ includes (toLowerCase k) (toLowerCase c) = true) /\
  (forall keys cands,
      Forall (fun c => c <> "") cands ->
      (findCol keys cands = None <->
       forall k c, k ∈ keys -> c ∈ cands ->
                   includes (toLowerCase k) (toLowerCase c) = false)).
Proof.
  split; [exact matchesCol_includes|]. split; [exact findCol_sound | exact findCol_None].
Qed.

(** X16.  A candidate of [findCol] that contains an earlier non-empty
    candidate never decides; so three of the candidates [parseHistorySheet]
    passes are dead: Valuation Date (after Date), Instrument Symbol (after
    Symbol) and Security Description (after Description). *)
Theorem shadowed_column_candidates_are_dead :
  (forall keys pre mid post c1 c2,
      c1 <> "" ->
      includes (toLowerCase c2) (toLowerCase c1) = true ->
      findCol keys (pre ++ c1 :: mid ++ c2 :: post)
      = findCol keys (pre ++ c1 :: mid ++ post)) /\
  (forall keys,
      findCol keys ["Date"; "As Of"; "Valuation Date"] = findCol keys ["Date"; "As Of"]) /\
  (forall keys,
      findCol keys ["Ticker"; "Symbol"; "Security"; "Instrument Symbol"]
      = findCol keys ["Ticker"; "Symbol"; "Security"]) /\
  (forall keys,
      findCol keys ["Description"; "Security Description"; "Name"]
      = findCol keys ["Description"; "Name"]).
Proof.
  split; [exact findCol_shadowed|]. split; [|split]; intros keys.
  - exact (findCol_shadowed keys [] ["As Of"] [] "Date" "Valuation Date"
             ltac:(done) eq_refl).
  - exact (findCol_shadowed keys ["Ticker"] ["Security"] [] "Symbol" "Instrument Symbol"
             ltac:(done) eq_refl).
  - exact (findCol_shadowed keys [] [] ["Name"] "Description" "Security Description"
             ltac:(done) eq_refl).
Qed.

(** ** The history sheet *)

Section AListKeys.
Context {V : Type}.
Implicit Types (m : list (string * V)) (k : string) (v : V).

Lemma setAdd_spec (s : list string) (x : string) :
  NoDup s -> NoDup (setAdd s x) /\ forall y, y ∈ setAdd s x <-> y ∈ s \/ y = x.
Proof.
  intros Hs. destruct (fold_setAdd [x] s Hs) as [Hn He]. cbn in Hn, He.
  split; [done|]. intros y. rewrite He, list_elem_of_singleton. done.
Qed.

Lemma aset_NoDup m k v : NoDup (map fst m) -> NoDup (map fst (aset m k v)).
Proof. intros Hm. rewrite aset_keys. by apply setAdd_spec. Qed.

Lemma aset_key_elem m k v y : y ∈ map fst (aset m k v) <-> y ∈ map fst m \/ y = k.
Proof.
  rewrite aset_keys. unfold setAdd. destruct (inList k (map fst m)) eqn:E.
  - apply inList_true in E. split; [tauto|]. intros [?| ->]; done.
  - rewrite elem_of_app, list_elem_of_singleton. done.
Qed.

Lemma aset_elem m k v (kv : string * V) :
  NoDup (map fst m) ->
  kv ∈ aset m k v <-> kv = (k, v) \/ (kv ∈ m /\ kv.1 <> k).
Proof.
  induction m as [|[k' v'] r IH]; cbn.
  - intros _. rewrite list_elem_of_singleton. split; [tauto|].
    intros [?|[Hin _]]; [done|inversion Hin].
  - intros Hnd. apply NoDup_cons in Hnd as [Hk Hnd].
    destruct (String.eqb k k') eqn:E.
    + apply String.eqb_eq in E as <-. rewrite !elem_of_cons. split.
      * intros [->|Hin]; [by left|]. right. split; [by right|].
        intros Heq. apply Hk. apply elem_of_map. exists kv. by rewrite Heq.
      * intros [->|[[->|Hin] Hne]]; [by left|done|by right].
    + apply eqb_false_ne in E. rewrite !elem_of_cons, (IH Hnd). split.
      * intros [->|[->|[Hin Hne]]]; [right; split; [by left|cbn; congruence]|by left|].
        right. split; [by right|done].
      * intros [->|[[->|Hin] Hne]]; [right; by left|by left|right; right; by split].
Qed.

End AListKeys.

Section HistoryFacts.
Context {num : Type} `{JsNumber num} `{JsRuntime num}.
Implicit Types (acc : HistAcc (num := num)) (row : SheetRow (num := num))
  (cols : HistCols).

Lemma historyRow_spec cols acc row :
  historyRow cols acc row
  = match rowDate cols row with
    | None => Some acc
    | Some date =>
        if isFxRow (rowRawTicker cols row) then Some (withDate acc date)
        else match getUniqueTickerCell (rowRawTicker cols row) (descriptionCell cols row) with
             | None => None
             | Some ticker => Some (processRow cols acc row date ticker)
             end
    end.
Proof.
  unfold historyRow, rowDate, rowRawTicker, isFxRow, processRow, descriptionCell,
    showsPosition, withDate.
  destruct (dateCol cols) as [dc|]; [|done].
  destruct (tickerCol cols) as [tc|]; [|done].
  destruct (truthy (cellAt row dc)); cbn [negb andb]; [|done].
  destruct (nonEmpty (parseExcelDate (cellAt row dc))); cbn [negb]; [|done].
  destruct (includes (toUpperCase (cleanTicker (cellAt row tc))) "FX SPOT");
    cbn [orb]; [done|].
  destruct (String.eqb (toUpperCase (cleanTicker (cellAt row tc))) "EURUSD"); [done|].
  destruct (getUniqueTickerCell _ _) as [ticker|]; [|done].
  by destruct (String.eqb ticker "ARGX").
Qed.

End HistoryFacts.

Section HistoryInvariants.
Context {num : Type} `{JsNumber num} `{JsRuntime num}.
Implicit Types (acc : HistAcc (num := num)) (row : SheetRow (num := num))
  (cols : HistCols).

(** An invariant of the row loop, indexed by the rows done. *)
Lemma historyRows_ind cols (Inv : list SheetRow -> HistAcc -> Prop) :
  (forall done acc row acc',
      Inv done acc -> historyRow cols acc row = Some acc' -> Inv (done ++ [row]) acc') ->
  forall rows done acc acc',
    Inv done acc -> historyRows cols rows acc = Some acc' -> Inv (done ++ rows) acc'.
Proof.
  intros Hstep. induction rows as [|row r IH]; intros done acc acc' Hinv; cbn.
  - intros [= <-]. by rewrite app_nil_r.
  - destruct (historyRow cols acc row) as [acc1|] eqn:E; [|done]. intros Hr.
    change (row :: r) with ([row] ++ r). rewrite app_assoc.
    eapply IH; [|exact Hr]. by eapply Hstep.
Qed.

Lemma histWf_empty : histWf emptyAcc.
Proof.
  split; cbn; try apply NoDup_nil_2;
    first [ intros Hin; by inversion Hin
          | intros ? Hin; by inversion Hin
          | intros ? ? Hin; by inversion Hin ].
Qed.

Lemma pricesOk_aset (m : list (string * num)) (t : string) (p : num) :
  (m = [] \/ pricesOk m) -> t <> "" -> ngtb p nzero = true -> pricesOk (aset m t p).
Proof.
  intros Hm Ht Hp.
  assert (pricesOk m) as [Hnd Hall].
  { destruct Hm as [->|?]; [|done]. split; [constructor|]. intros ? ? Hin. inversion Hin. }
  split; [by apply aset_NoDup|].
  intros t' p' Hin. apply aset_elem in Hin as [[= -> ->]|[Hin _]]; [done| |done].
  by apply Hall.
Qed.

Lemma histWf_withDate acc (date : string) :
  histWf acc -> date <> "" -> histWf (withDate acc date) /\ date ∈ acc_dates (withDate acc date).
Proof.
  intros [] Hne. destruct (setAdd_spec (acc_dates acc) date wf_dates0) as [Hnd Hel].
  split; [split; cbn|]; try done.
  - rewrite Hel. intros [?|?]; done.
  - intros d Hd. apply Hel. left. by apply wf_aum_dates0.
  - intros d m Hd. destruct (wf_prices_ok0 d m Hd). split; [|done]. apply Hel. by left.
  - intros d Hd. apply Hel. left. by apply wf_argx_dates0.
  - intros t d Hd. apply Hel. left. by eapply wf_last_dates0.
  - intros t d Hd. apply Hel. left. by eapply wf_first_dates0.
  - cbn. apply Hel. by right.
Qed.

Lemma histWf_noteDates acc (ticker date : string) :
  histWf acc -> date ∈ acc_dates acc -> histWf (noteDates acc ticker date).
Proof.
  intros [] Hd. split; cbn; try done.
  - destruct (String.ltb _ date); [by apply aset_NoDup|done].
  - intros t d. destruct (String.ltb _ date); [|by apply wf_last_dates0].
    intros Hin. apply aset_elem in Hin as [[= -> ->]|[Hin _]]; [done| |done].
    by eapply wf_last_dates0.
  - destruct (negb _ || _); [by apply aset_NoDup|done].
  - intros t d. destruct (negb _ || _); [|by apply wf_first_dates0].
    intros Hin. apply aset_elem in Hin as [[= -> ->]|[Hin _]]; [done| |done].
    by eapply wf_first_dates0.
Qed.

Lemma noteDates_dates acc ticker date :
  acc_dates (noteDates acc ticker date) = acc_dates acc.
Proof. reflexivity. Qed.

Lemma histWf_argxRow acc (date d : string) (price qty : num) :
  histWf acc -> date ∈ acc_dates acc -> histWf (argxRow acc date d price qty).
Proof.
  intros [] Hd. split; cbn; try done.
  - by apply aset_NoDup.
  - intros d'. unfold addAum. rewrite aset_key_elem. intros [?| ->]; [|done].
    by apply wf_aum_dates0.
  - by apply aset_NoDup.
  - intros d'. rewrite aset_key_elem. intros [?| ->]; [|done]. by apply wf_argx_dates0.
Qed.

Lemma setDailyPrice_ok (m : PriceMap (num := num)) (dates : list string)
    (date ticker : string) (p : num) :
  NoDup (map fst m) ->
  (forall d m', (d, m') ∈ m -> d ∈ dates /\ pricesOk m') ->
  date ∈ dates -> ticker <> "" -> ngtb p nzero = true ->
  NoDup (map fst (setDailyPrice m date ticker p)) /\
  forall d m', (d, m') ∈ setDailyPrice m date ticker p -> d ∈ dates /\ pricesOk m'.
Proof.
  intros Hnd Hall Hd Ht Hp. unfold setDailyPrice. split; [by apply aset_NoDup|].
  intros d m' Hin. apply aset_elem in Hin as [[= -> ->]|[Hin _]]; [|by apply Hall|done].
  split; [done|]. apply pricesOk_aset; [|done|done].
  destruct (aget m date) as [m0|] eqn:Eg; cbn; [|by left].
  right. apply aget_Some_elem in Eg. by destruct (Hall _ _ Eg).
Qed.

Lemma histWf_plainRow cols acc (date ticker : string) (mv price : num) :
  histWf acc -> date ∈ acc_dates acc -> histWf (plainRow cols acc date ticker mv price).
Proof.
  intros [] Hd.
  assert (NoDup (map fst (acc_prices (plainRow cols acc date ticker mv price))) /\
          forall d m, (d, m) ∈ acc_prices (plainRow cols acc date ticker mv price) ->
                      d ∈ acc_dates acc /\ pricesOk m) as [Hp1 Hp2].
  { cbn. destruct (nonEmpty ticker) eqn:En; cbn [andb]; [|done].
    destruct (ngtb price nzero) eqn:Ep; [|done].
    apply nonEmpty_true in En. by apply setDailyPrice_ok. }
  split; try done; cbn.
  - destruct (mvCol cols); [by apply aset_NoDup|done].
  - intros d'. destruct (mvCol cols); [|by apply wf_aum_dates0].
    unfold addAum. rewrite aset_key_elem. intros [?| ->]; [|done]. by apply wf_aum_dates0.
Qed.

Lemma histWf_historyRow cols acc row acc' :
  histWf acc -> historyRow cols acc row = Some acc' -> histWf acc'.
Proof.
  intros Hwf. rewrite historyRow_spec.
  destruct (rowDate cols row) as [date|] eqn:Ed; [|by intros [= <-]].
  assert (date <> "") as Hne.
  { unfold rowDate in Ed. destruct (dateCol cols); [|done]. destruct (tickerCol cols); [|done].
    destruct (truthy _); [|done]. cbn in Ed.
    destruct (nonEmpty _) eqn:En; [|done]. injection Ed as <-. by apply nonEmpty_true. }
  destruct (histWf_withDate acc date Hwf Hne) as [Hwf1 Hd1].
  destruct (isFxRow _); [by intros [= <-]|].
  destruct (getUniqueTickerCell _ _) as [ticker|]; [|done]. intros [= <-].
  unfold processRow.
  set (acc2 := if showsPosition cols row then _ else _).
  assert (histWf acc2 /\ date ∈ acc_dates acc2) as [Hwf2 Hd2].
  { unfold acc2. destruct (showsPosition cols row); [|done].
    split; [by apply histWf_noteDates | done]. }
  destruct (String.eqb ticker "ARGX"); [by apply histWf_argxRow | by apply histWf_plainRow].
Qed.

Lemma histWf_historyRows cols rows acc acc' :
  histWf acc -> historyRows cols rows acc = Some acc' -> histWf acc'.
Proof.
  intros Hwf Hr.
  refine (historyRows_ind cols (fun _ a => histWf a) _ rows [] acc acc' Hwf Hr).
  intros done a row a' Ha Hrow. by eapply histWf_historyRow.
Qed.

Lemma finalizeArgx_ok (argx : list (string * ArgxDay)) (dates : list string) :
  forall m : PriceMap (num := num),
  NoDup (map fst m) ->
  (forall d m', (d, m') ∈ m -> d ∈ dates /\ pricesOk m') ->
  (forall d, d ∈ map fst argx -> d ∈ dates) ->
  NoDup (map fst (finalizeArgx m argx)) /\
  forall d m', (d, m') ∈ finalizeArgx m argx -> d ∈ dates /\ pricesOk m'.
Proof.
  unfold finalizeArgx.
  induction argx as [|[d agg] r IH]; intros m Hnd Hall Hdates; cbn [fold_left]; [done|].
  apply IH.
  - cbn. destruct (ngtb (argxFinalPrice agg) nzero) eqn:Ep; [|done].
    apply setDailyPrice_ok with (dates := dates); try done.
    apply Hdates. cbn. apply list_elem_of_here.
  - cbn. destruct (ngtb (argxFinalPrice agg) nzero) eqn:Ep; [|done].
    apply setDailyPrice_ok with (dates := dates); try done.
    apply Hdates. cbn. apply list_elem_of_here.
  - intros d' Hd'. apply Hdates. cbn. by apply list_elem_of_further.
Qed.

End HistoryInvariants.

Section HistoryResults.
Context {num : Type} `{JsNumber num} `{JsRuntime num}.
Implicit Types (acc : HistAcc (num := num)) (row : SheetRow (num := num))
  (cols : HistCols).


Lemma processRow_dates cols acc row date ticker :
  acc_dates (processRow cols acc row date ticker) = setAdd (acc_dates acc) date.
Proof.
  unfold processRow. destruct (String.eqb ticker "ARGX"); cbn;
    by destruct (showsPosition cols row).
Qed.

Lemma historyRow_dates cols acc row acc' :
  historyRow cols acc row = Some acc' ->
  acc_dates acc' = fold_left setAdd (omap (rowDate cols) [row]) (acc_dates acc).
Proof.
  rewrite historyRow_spec. cbn. destruct (rowDate cols row) as [d|]; [|by intros [= <-]].
  destruct (isFxRow _); [by intros [= <-]|].
  destruct (getUniqueTickerCell _ _); [|done]. intros [= <-]. apply processRow_dates.
Qed.

Lemma historyRows_dates cols rows : forall acc acc',
  historyRows cols rows acc = Some acc' ->
  acc_dates acc' = fold_left setAdd (omap (rowDate cols) rows) (acc_dates acc).
Proof.
  induction rows as [|row r IH]; intros acc acc'; cbn [historyRows].
  - by intros [= <-].
  - destruct (historyRow cols acc row) as [acc1|] eqn:E; [|done]. intros Hr.
    rewrite (IH _ _ Hr). apply historyRow_dates in E. rewrite E. cbn.
    by destruct (rowDate cols row).
Qed.

Lemma historyRows_undated cols rows acc :
  Forall (fun row => rowDate cols row = None) rows ->
  historyRows cols rows acc = Some acc.
Proof.
  induction 1 as [|row r Hd _ IH]; cbn; [done|].
  by rewrite historyRow_spec, Hd.
Qed.

Lemma getUniqueTickerCell_None (rawTicker : string) (desc : cell) :
  getUniqueTickerCell rawTicker desc = None <-> badDescription rawTicker desc.
Proof.
  unfold getUniqueTickerCell, badDescription, descText. destruct desc as [|x|s]; cbn.
  - destruct (isOption rawTicker ""); split; done.
  - destruct (nfalsy x); [|split; [by left|done]].
    destruct (isOption rawTicker ""); split; try done; [by right|by intros [|]].
  - destruct (isOption rawTicker s); split; done.
Qed.

Lemma historyRows_None cols rows : forall acc,
  historyRows cols rows acc = None <->
  exists row, row ∈ rows /\ rowDate cols row <> None /\
              isFxRow (rowRawTicker cols row) = false /\
              badDescription (rowRawTicker cols row) (descriptionCell cols row).
Proof.
  induction rows as [|row r IH]; intros acc; cbn [historyRows].
  - split; [done|]. intros (row & Hin & _). inversion Hin.
  - destruct (historyRow cols acc row) as [acc1|] eqn:E.
    + rewrite IH. split; intros (row' & Hin & Hrest).
      * exists row'. split; [by apply list_elem_of_further|done].
      * apply elem_of_cons in Hin as [->|Hin]; [|by exists row'].
        exfalso. destruct Hrest as (Hd & Hfx & Hbad).
        rewrite historyRow_spec in E. destruct (rowDate cols row); [|done].
        rewrite Hfx in E. apply getUniqueTickerCell_None in Hbad. by rewrite Hbad in E.
    + split; [intros _|done]. exists row. split; [apply list_elem_of_here|].
      rewrite historyRow_spec in E. destruct (rowDate cols row); [|done].
      destruct (isFxRow _); [done|]. split; [done|]. split; [done|].
      apply getUniqueTickerCell_None. by destruct (getUniqueTickerCell _ _).
Qed.

Lemma parseHistoryRows_spec (rows : list SheetRow) :
  parseHistoryRows rows
  = match historyRows (sheetCols rows) rows emptyAcc with
    | None => None
    | Some acc =>
        Some {| dailyAumMap := acc_aum acc;
                dailyPriceMap := finalizeArgx (acc_prices acc) (acc_argx acc);
                lastHistoryDateMap := acc_last acc;
                firstHistoryDateMap := acc_first acc;
                historyDates := acc_dates acc |}
    end.
Proof. by destruct rows. Qed.

End HistoryResults.

(** X17.  Whatever the history sheet holds, what [parseHistorySheet] returns
    is well formed: the history dates are pairwise distinct and none is
    empty; every date the four maps mention is a history date; the price map
    of a date lists each ticker once, no ticker is empty and every price is
    positive. *)
Theorem history_sheet_is_well_formed :
  forall (num : Type) (N : JsNumber num) (R : JsRuntime num)
         (sheetNames : list string) (rowsOf : string -> list SheetRow)
         (h : HistoryData),
    parseHistorySheet sheetNames rowsOf = Some h ->
    NoDup (historyDates h) /\ ("" ∉ historyDates h) /\
    (forall d, d ∈ map fst (dailyAumMap h) ++ map fst (dailyPriceMap h)
                   ++ map snd (lastHistoryDateMap h) ++ map snd (firstHistoryDateMap h) ->
               d ∈ historyDates h) /\
    NoDup (map fst (dailyAumMap h)) /\
    NoDup (map fst (dailyPriceMap h)) /\
    (forall d m, (d, m) ∈ dailyPriceMap h ->
       NoDup (map fst m) /\ forall t p, (t, p) ∈ m -> t <> "" /\ ngtb p nzero = true).
Proof.
  intros num N R sheetNames rowsOf h Hh.
  assert (exists acc, histWf acc /\
            h = {| dailyAumMap := acc_aum acc;
                   dailyPriceMap := finalizeArgx (acc_prices acc) (acc_argx acc);
                   lastHistoryDateMap := acc_last acc;
                   firstHistoryDateMap := acc_first acc;
                   historyDates := acc_dates acc |}) as (acc & Hwf & ->).
  { assert (forall rows, parseHistoryRows rows = Some h -> exists acc, histWf acc /\
              h = {| dailyAumMap := acc_aum acc;
                     dailyPriceMap := finalizeArgx (acc_prices acc) (acc_argx acc);
                     lastHistoryDateMap := acc_last acc;
                     firstHistoryDateMap := acc_first acc;
                     historyDates := acc_dates acc |}) as Hrows.
    { intros rows. rewrite parseHistoryRows_spec.
      destruct (historyRows _ rows emptyAcc) as [acc|] eqn:E; [|done]. intros [= <-].
      exists acc. split; [|done]. eapply histWf_historyRows; [apply histWf_empty|exact E]. }
    assert (exists acc, histWf (num := num) acc /\
              emptyHistory = {| dailyAumMap := acc_aum acc;
                     dailyPriceMap := finalizeArgx (acc_prices acc) (acc_argx acc);
                     lastHistoryDateMap := acc_last acc;
                     firstHistoryDateMap := acc_first acc;
                     historyDates := acc_dates acc |}) as Hempty.
    { exists emptyAcc. split; [apply histWf_empty|done]. }
    unfold parseHistorySheet in Hh. destruct (List.find isHistoryName sheetNames) as [n|].
    - destruct (nonEmpty n); [by apply (Hrows (rowsOf n))|]. by injection Hh as <-.
    - by injection Hh as <-. }
  destruct Hwf. cbn.
  destruct (finalizeArgx_ok (acc_argx acc) (acc_dates acc) (acc_prices acc)
              wf_prices0 wf_prices_ok0 wf_argx_dates0) as [Hp1 Hp2].
  split; [done|]. split; [done|]. split.
  { intros d. rewrite !elem_of_app. intros [Hd|[Hd|[Hd|Hd]]].
    - by apply wf_aum_dates0.
    - apply elem_of_map in Hd as ([d' m] & -> & Hin). by destruct (Hp2 _ _ Hin).
    - apply elem_of_map in Hd as ([t d'] & -> & Hin). by eapply wf_last_dates0.
    - apply elem_of_map in Hd as ([t d'] & -> & Hin). by eapply wf_first_dates0. }
  split; [done|]. split; [done|]. intros d m Hin. by destruct (Hp2 _ _ Hin).
Qed.

Lemma history_sheet_is_well_formed_witness :
  exists h,
    @parseHistorySheet Q Exact exampleRuntime ["Trade Blotter"; "ITD History Portfolio"]
      (fun _ => exampleSheet) = Some h /\
    historyDates h = ["2024-01-02"; "2024-01-03"] /\
    map fst (dailyPriceMap h) = ["2024-01-02"; "2024-01-03"] /\
    NoDup (historyDates h) /\ NoDup (map fst (dailyPriceMap h)).
Proof.
  eexists. split; [vm_compute; reflexivity|]. split; [reflexivity|]. split; [reflexivity|].
  lazymatch goal with
  | |- NoDup (historyDates ?h) /\ _ =>
      destruct (history_sheet_is_well_formed Q Exact exampleRuntime
                  ["Trade Blotter"; "ITD History Portfolio"] (fun _ => exampleSheet) h
                  ltac:(vm_compute; reflexivity))
        as (Hd & _ & _ & _ & Hp & _)
  end.
  split; [exact Hd | exact Hp].
Defined.

(** X18.  The history dates are the dates of the rows of the sheet, each once
    and in the order of first appearance: a row counts when the date and the
    ticker columns were found on the first row and its date cell parses,
    and a currency row counts too, although nothing else of it is kept. *)
Theorem history_dates_are_the_dates_of_the_rows :
  forall (num : Type) (N : JsNumber num) (R : JsRuntime num)
         (histJson : list SheetRow) (h : HistoryData),
    parseHistoryRows histJson = Some h ->
    historyDates h = newSet (omap (rowDate (sheetCols histJson)) histJson).
Proof.
  intros num N R rows h. rewrite parseHistoryRows_spec.
  destruct (historyRows _ rows emptyAcc) as [acc|] eqn:E; [|done]. intros [= <-]. cbn.
  by rewrite (historyRows_dates _ _ _ _ E).
Qed.

Lemma history_dates_are_the_dates_of_the_rows_witness :
  exists h,
    @parseHistoryRows Q Exact exampleRuntime exampleSheet = Some h /\
    historyDates h = ["2024-01-02"; "2024-01-03"].
Proof.
  eexists. split; [vm_compute; reflexivity|].
  lazymatch goal with
  | |- historyDates ?h = _ =>
      refine (eq_trans (history_dates_are_the_dates_of_the_rows Q Exact exampleRuntime
                          exampleSheet h ltac:(vm_compute; reflexivity)) _)
  end.
  vm_compute. reflexivity.
Defined.

(** X19.  The parser returns five empty results exactly when no row of the
    sheet has a date it can use; in particular when no sheet name matches,
    when the sheet has no rows, and when the first row lacks a date or a
    ticker column. *)
Theorem history_sheet_without_dates_is_empty :
  forall (num : Type) (N : JsNumber num) (R : JsRuntime num),
    (forall histJson : list SheetRow,
        parseHistoryRows histJson = Some emptyHistory <->
        Forall (fun row => rowDate (sheetCols histJson) row = None) histJson) /\
    (forall histJson : list SheetRow,
        dateCol (sheetCols histJson) = None \/ tickerCol (sheetCols histJson) = None ->
        parseHistoryRows histJson = Some emptyHistory) /\
    (forall (sheetNames : list string) (rowsOf : string -> list SheetRow),
        Forall (fun n => isHistoryName n = false) sheetNames ->
        parseHistorySheet sheetNames rowsOf = Some emptyHistory).
Proof.
  intros num N R.
  assert (forall rows : list SheetRow,
             Forall (fun row => rowDate (sheetCols rows) row = None) rows ->
             parseHistoryRows rows = Some emptyHistory) as Hback.
  { intros rows Hall. rewrite parseHistoryRows_spec.
    by rewrite (historyRows_undated _ _ _ Hall). }
  split; [|split].
  - intros rows. split; [|apply Hback]. intros Hh.
    pose proof Hh as Hd. rewrite parseHistoryRows_spec in Hd.
    destruct (historyRows _ rows emptyAcc) as [acc|] eqn:E; [|done].
    apply historyRows_dates in E. injection Hd as _ _ _ _ Hd. rewrite Hd in E. cbn in E.
    apply Forall_forall. intros row Hin.
    destruct (rowDate (sheetCols rows) row) as [d|] eqn:Ed; [|done]. exfalso.
    assert (d ∈ newSet (omap (rowDate (sheetCols rows)) rows)) as Hel.
    { apply newSet_spec. apply elem_of_omap. by exists row. }
    unfold newSet in Hel. rewrite <- E in Hel. inversion Hel.
  - intros rows Hc. apply Hback. apply Forall_forall. intros row _. unfold rowDate.
    destruct Hc as [-> | ->]; [done|]. by destruct (dateCol _).
  - intros names rowsOf Hall. unfold parseHistorySheet.
    destruct (List.find isHistoryName names) as [n|] eqn:Ef; [|done].
    apply find_some in Ef as [Hin Hn]. rewrite Forall_forall in Hall.
    apply list_elem_of_In in Hin. by rewrite (Hall _ Hin) in Hn.
Qed.

(** X20.  The parser throws exactly when some row with a usable date, not a
    currency row, carries a description [getUniqueTicker] cannot handle: a
    number that is not falsy, or no text at all while the ticker alone is
    taken for an option.  Rows whose description is text never throw.  (Date
    serials are taken to be in the range of [Date]: [serialToISODate] is
    total.) *)
Theorem history_sheet_throws_on_bad_description :
  forall (num : Type) (N : JsNumber num) (R : JsRuntime num)
         (histJson : list SheetRow),
    let cols := sheetCols histJson in
    (parseHistoryRows histJson = None <->
     exists row, row ∈ histJson /\ rowDate cols row <> None /\
                 isFxRow (rowRawTicker cols row) = false /\
                 badDescription (rowRawTicker cols row) (descriptionCell cols row)) /\
    ((descCol cols = None \/
      forall row, row ∈ histJson -> exists s, descriptionCell cols row = CString s) ->
     parseHistoryRows histJson <> None).
Proof.
  intros num N R rows cols.
  assert (parseHistoryRows rows = None <-> historyRows cols rows emptyAcc = None) as Hn.
  { rewrite parseHistoryRows_spec. fold cols.
    destruct (historyRows cols rows emptyAcc); split; done. }
  split; [by rewrite Hn, historyRows_None|].
  intros Htext. rewrite Hn, historyRows_None. intros (row & Hin & _ & _ & Hbad).
  assert (exists s, descriptionCell cols row = CString s) as [s Hs].
  { destruct Htext as [Hc|Hall]; [|by apply Hall].
    exists "". unfold descriptionCell. by rewrite Hc. }
  by rewrite Hs in Hbad.
Qed.

(** ** The order of strings *)




(** ** The first and the last date of a ticker *)



Section HistoryFolds.
Context {num : Type} `{JsNumber num} `{JsRuntime num}.
Implicit Types (acc : HistAcc (num := num)) (row : SheetRow (num := num))
  (cols : HistCols).

Lemma omap_one {A B : Type} (f : A -> option B) (a : A) :
  omap f [a] = match f a with Some b => [b] | None => [] end.
Proof. reflexivity. Qed.

(** What one row does to the maps of first and last dates and to the assets. *)
Lemma historyRow_folds cols acc row acc' :
  historyRow cols acc row = Some acc' ->
  acc_last acc' = fold_left noteLast (omap (shownPair cols) [row]) (acc_last acc) /\
  acc_first acc' = fold_left noteFirst (omap (shownPair cols) [row]) (acc_first acc) /\
  acc_aum acc' = fold_left addAumOf (omap (aumOf cols) [row]) (acc_aum acc).
Proof.
  rewrite historyRow_spec, !omap_one. unfold shownPair, aumOf, rowTicker.
  destruct (rowDate cols row) as [d|]; [|by intros [= <-]].
  destruct (isFxRow _); [by intros [= <-]|].
  destruct (getUniqueTickerCell _ _) as [t|]; [|done]. intros [= <-].
  unfold processRow, noteLast, noteFirst, addAumOf.
  destruct (String.eqb t "ARGX"); destruct (showsPosition cols row); cbn;
    try done; by destruct (mvCol cols).
Qed.

Lemma historyRows_folds cols rows : forall acc acc',
  historyRows cols rows acc = Some acc' ->
  acc_last acc' = fold_left noteLast (omap (shownPair cols) rows) (acc_last acc) /\
  acc_first acc' = fold_left noteFirst (omap (shownPair cols) rows) (acc_first acc) /\
  acc_aum acc' = fold_left addAumOf (omap (aumOf cols) rows) (acc_aum acc).
Proof.
  induction rows as [|row r IH]; intros acc acc'; cbn [historyRows].
  - by intros [= <-].
  - destruct (historyRow cols acc row) as [acc1|] eqn:E; [|done]. intros Hr.
    destruct (IH _ _ Hr) as (-> & -> & ->).
    apply historyRow_folds in E as (-> & -> & ->).
    change (row :: r) with ([row] ++ r). rewrite !omap_app, !fold_left_app. done.
Qed.


End HistoryFolds.



(** ** The assets of a date, in exact arithmetic *)

Section ExactAum.
Open Scope Q_scope.

Lemma total_app (l1 l2 : list Q) : total (l1 ++ l2) == total l1 + total l2.
Proof.
  induction l1 as [|x l1 IH]; [change (total l2 == 0 + total l2); lra|].
  change (x + total (l1 ++ l2) == x + total l1 + total l2). rewrite IH. lra.
Qed.

Lemma addAum_fold (parts : list (string * Q)) (d : string) :
  match aget (fold_left addAumOf parts []) d with
  | Some v => v == total (map snd (filter (fun x => x.1 = d) parts)) /\ d ∈ map fst parts
  | None => d ∉ map fst parts
  end.
Proof.
  induction parts as [|[d0 v0] r IH] using rev_ind.
  - cbn. intros Hin. inversion Hin.
  - rewrite fold_left_app. cbn [fold_left]. set (m := fold_left addAumOf r []) in *.
    unfold addAumOf, addAum. cbn [fst snd].
    rewrite filter_app, !map_app.
    destruct (decide (d = d0)) as [->|Hne].
    + rewrite aget_aset_eq. split; [|apply elem_of_app; right; apply list_elem_of_here].
      rewrite total_app, filter_cons_True by done.
      change (total (map snd ((d0, v0) :: filter (fun x : string * Q => x.1 = d0) []))) with (v0 + 0).
      unfold orZero. cbn [nadd nfalsy nzero Exact]. rewrite Qred_correct.
      destruct (aget m d0) as [v|]; unfold default, from_option, id.
      * destruct IH as [IH _]. destruct (Qeq_bool v 0) eqn:Ez.
        -- apply Qeq_bool_iff in Ez. lra.
        -- lra.
      * assert (filter (fun x : string * Q => x.1 = d0) r = []) as ->.
        { clear -IH. induction r as [|[d' v'] r IHr]; [done|].
          rewrite filter_cons_False.
          - apply IHr. intros Hin. apply IH. cbn. by apply list_elem_of_further.
          - cbn. intros ->. apply IH. cbn. apply list_elem_of_here. }
        change (total (map snd [])) with 0. change (Qeq_bool 0 0) with true. cbn iota. lra.
    + rewrite aget_aset_ne by done. rewrite filter_cons_False by (cbn; congruence).
      destruct (aget m d) as [v|].
      * destruct IH as [IH Hin]. split; [|apply elem_of_app; by left].
        rewrite total_app. change (total (map snd (filter (fun x : string * Q => x.1 = d) []))) with 0. lra.
      * intros Hin. apply elem_of_app in Hin as [Hin|Hin]; [done|].
        apply list_elem_of_singleton in Hin. done.
Qed.

End ExactAum.

(** X22.  In exact arithmetic the assets of a date are the sum of what its
    rows add: the market value of a row of another ticker than ARGX (when
    the sheet has a market value column), and for a row of ARGX the absolute
    quantity times the price in dollars.  A date no row adds to has no
    entry. *)
Theorem daily_aum_is_the_sum_of_the_rows :
  forall (R : JsRuntime Q) (histJson : list (SheetRow (num := Q)))
         (h : HistoryData) (d : string),
    parseHistoryRows histJson = Some h ->
    let cols := sheetCols histJson in
    match aget (dailyAumMap h) d with
    | Some v => (v == total (aumParts cols histJson d))%Q /\
                d ∈ map fst (omap (aumOf cols) histJson)
    | None => d ∉ map fst (omap (aumOf cols) histJson)
    end.
Proof.
  intros R rows h d Hh cols. rewrite parseHistoryRows_spec in Hh. fold cols in Hh.
  destruct (historyRows cols rows emptyAcc) as [acc|] eqn:E; [|done]. injection Hh as <-.
  apply historyRows_folds in E as (_ & _ & Ea). cbn [dailyAumMap]. rewrite Ea.
  apply addAum_fold.
Qed.

Lemma daily_aum_is_the_sum_of_the_rows_witness :
  exists h v,
    @parseHistoryRows Q Exact exampleRuntime exampleSheet = Some h /\
    aget (dailyAumMap h) "2024-01-03" = Some v /\ (v == 1100 + 1200)%Q.
Proof.
  eexists. eexists. split; [vm_compute; reflexivity|]. split; [reflexivity|].
  pose proof (daily_aum_is_the_sum_of_the_rows exampleRuntime exampleSheet _ "2024-01-03"
                ltac:(vm_compute; reflexivity)) as Hthm.
  destruct Hthm as [Hv _]. rewrite Hv. vm_compute. reflexivity.
Defined.

(** ** The price of a date and a ticker *)

Section HistoryPrices.
Context {num : Type} `{JsNumber num} `{JsRuntime num}.
Implicit Types (acc : HistAcc (num := num)) (row : SheetRow (num := num))
  (cols : HistCols) (m : PriceMap (num := num)).

Lemma priceAt_set m (d t d' t' : string) (p : num) :
  priceAt (setDailyPrice m d t p) d' t'
  = if decide (d' = d /\ t' = t) then Some p else priceAt m d' t'.
Proof.
  unfold priceAt, setDailyPrice. destruct (decide (d' = d)) as [->|Hd].
  - rewrite aget_aset_eq. destruct (decide (t' = t)) as [->|Ht].
    + rewrite aget_aset_eq. by rewrite decide_True.
    + rewrite aget_aset_ne by done. rewrite decide_False by tauto.
      by destruct (aget m d).
  - rewrite aget_aset_ne by done. rewrite decide_False by tauto. done.
Qed.

Lemma historyRow_prices cols acc row acc' :
  historyRow cols acc row = Some acc' ->
  acc_prices acc' = fold_left setPriceOf (omap (pricePart cols) [row]) (acc_prices acc).
Proof.
  rewrite historyRow_spec, !omap_one. unfold pricePart, rowTicker.
  destruct (rowDate cols row) as [d|]; [|by intros [= <-]].
  destruct (isFxRow _); [by intros [= <-]|].
  destruct (getUniqueTickerCell _ _) as [t|]; [|done]. intros [= <-].
  unfold processRow, setPriceOf.
  destruct (String.eqb t "ARGX"); destruct (showsPosition cols row); cbn;
    try done; by destruct (nonEmpty t && ngtb _ nzero).
Qed.

Lemma historyRows_prices cols rows : forall acc acc',
  historyRows cols rows acc = Some acc' ->
  acc_prices acc' = fold_left setPriceOf (omap (pricePart cols) rows) (acc_prices acc).
Proof.
  induction rows as [|row r IH]; intros acc acc'; cbn [historyRows].
  - by intros [= <-].
  - destruct (historyRow cols acc row) as [acc1|] eqn:E; [|done]. intros Hr.
    rewrite (IH _ _ Hr). apply historyRow_prices in E as ->.
    change (row :: r) with ([row] ++ r). by rewrite !omap_app, !fold_left_app.
Qed.

Lemma setPriceOf_fold (parts : list (string * string * num)) (d t : string) :
  priceAt (fold_left setPriceOf parts []) d t
  = last (map snd (filter (fun x => x.1 = (d, t)) parts)).
Proof.
  induction parts as [|[[d0 t0] p0] r IH] using rev_ind; [done|].
  rewrite fold_left_app. cbn [fold_left]. unfold setPriceOf at 1. cbn [fst snd].
  rewrite priceAt_set, filter_app, map_app. destruct (decide (d = d0 /\ t = t0)) as [[-> ->]|Hne].
  - rewrite filter_cons_True by done. cbn. by rewrite last_snoc.
  - rewrite filter_cons_False by (cbn; intros [= -> ->]; tauto).
    cbn. by rewrite app_nil_r.
Qed.


End HistoryPrices.



(** ** The price of ARGX *)

Section ArgxPrices.
Context {num : Type} `{JsNumber num} `{JsRuntime num}.
Implicit Types (acc : HistAcc (num := num)) (row : SheetRow (num := num))
  (cols : HistCols) (m : PriceMap (num := num)).

Lemma historyRow_argx cols acc row acc' :
  historyRow cols acc row = Some acc' ->
  acc_argx acc' = fold_left addArgxOf (omap (argxPart cols) [row]) (acc_argx acc).
Proof.
  rewrite historyRow_spec, !omap_one. unfold argxPart, rowTicker.
  destruct (rowDate cols row) as [d|]; [|by intros [= <-]].
  destruct (isFxRow _); [by intros [= <-]|].
  destruct (getUniqueTickerCell _ _) as [t|]; [|done]. intros [= <-].
  unfold processRow, addArgxOf.
  destruct (String.eqb t "ARGX"); by destruct (showsPosition cols row).
Qed.

Lemma historyRows_argx cols rows : forall acc acc',
  historyRows cols rows acc = Some acc' ->
  acc_argx acc' = fold_left addArgxOf (omap (argxPart cols) rows) (acc_argx acc).
Proof.
  induction rows as [|row r IH]; intros acc acc'; cbn [historyRows].
  - by intros [= <-].
  - destruct (historyRow cols acc row) as [acc1|] eqn:E; [|done]. intros Hr.
    rewrite (IH _ _ Hr). apply historyRow_argx in E as ->.
    change (row :: r) with ([row] ++ r). by rewrite !omap_app, !fold_left_app.
Qed.

(** No row writes a price of ARGX; the aggregates do. *)
Lemma pricePart_not_argx cols rows (d : string) :
  filter (fun x => x.1 = (d, "ARGX")) (omap (pricePart cols) rows) = [].
Proof.
  induction rows as [|row r IH]; [done|].
  change (row :: r) with ([row] ++ r). rewrite omap_app, filter_app, IH, app_nil_r, omap_one.
  unfold pricePart. destruct (rowDate cols row) as [d'|]; [|done].
  destruct (rowTicker cols row) as [t|]; [|done].
  destruct (String.eqb t "ARGX") eqn:Et; cbn [negb andb]; [done|].
  destruct (nonEmpty t && ngtb _ nzero); [|done].
  rewrite filter_cons_False; [done|]. cbn. intros [= _ ->]. done.
Qed.

Lemma finalizeArgx_argx (argx : list (string * ArgxDay)) (d : string) :
  NoDup (map fst argx) ->
  forall m,
    priceAt (finalizeArgx m argx) d "ARGX"
    = match aget argx d with
      | Some agg =>
          if ngtb (argxFinalPrice agg) nzero then Some (argxFinalPrice agg)
          else priceAt m d "ARGX"
      | None => priceAt m d "ARGX"
      end.
Proof.
  unfold finalizeArgx.
  induction argx as [|[d0 agg] r IH]; intros Hnd m; cbn [fold_left]; [done|].
  cbn in Hnd. apply NoDup_cons in Hnd as [Hd0 Hnd]. rewrite (IH Hnd). cbn [fst snd aget].
  destruct (String.eqb d d0) eqn:Ed.
  - apply String.eqb_eq in Ed as ->.
    assert (aget r d0 = None) as ->.
    { destruct (aget r d0) eqn:Eg; [|done]. exfalso. apply Hd0.
      apply aget_Some_elem in Eg. apply elem_of_map. by exists (d0, a). }
    destruct (ngtb (argxFinalPrice agg) nzero); [|done].
    rewrite priceAt_set. by rewrite decide_True.
  - apply eqb_false_ne in Ed.
    assert (priceAt (if ngtb (argxFinalPrice agg) nzero
                     then setDailyPrice m d0 "ARGX" (argxFinalPrice agg) else m) d "ARGX"
            = priceAt m d "ARGX") as ->; [|done].
    destruct (ngtb (argxFinalPrice agg) nzero); [|done].
    rewrite priceAt_set. by rewrite decide_False by tauto.
Qed.

End ArgxPrices.

Section ExactArgx.
Open Scope Q_scope.

Lemma addArgx_fold (parts : list (string * (Q * Q * bool))) (d : string) :
  match aget (fold_left addArgxOf parts []) d with
  | Some agg =>
      totQty agg == argxQuantity (map snd (filter (fun x => x.1 = d) parts)) /\
      totMvUsd agg == argxValue (map snd (filter (fun x => x.1 = d) parts)) /\
      d ∈ map fst parts
  | None => d ∉ map fst parts
  end.
Proof.
  unfold argxQuantity, argxValue.
  induction parts as [|[d0 [[q px] o]] r IH] using rev_ind.
  - cbn. intros Hin. inversion Hin.
  - rewrite fold_left_app. cbn [fold_left]. set (m := fold_left addArgxOf r []) in *.
    unfold addArgxOf. cbn [fst snd].
    rewrite filter_app, !map_app.
    destruct (decide (d = d0)) as [->|Hne].
    + rewrite aget_aset_eq. cbn [totQty totMvUsd].
      rewrite filter_cons_True by done. rewrite !total_app.
      change (total (map (fun x : Q * Q * bool => x.1.1)
                (map snd ((d0, (q, px, o)) :: filter (fun x : string * (Q * Q * bool) => x.1 = d0) []))))
        with (q + 0).
      change (total (map (fun x : Q * Q * bool => Qabs x.1.1 * x.1.2)
                (map snd ((d0, (q, px, o)) :: filter (fun x : string * (Q * Q * bool) => x.1 = d0) []))))
        with (Qabs q * px + 0).
      cbn [nadd nmul nabs nzero Exact]. rewrite !Qred_correct.
      split; [|split; [|apply elem_of_app; right; apply list_elem_of_here]].
      * destruct (aget m d0) as [agg|]; unfold default, from_option, id.
        -- destruct IH as (IH & _ & _). rewrite IH. lra.
        -- assert (filter (fun x : string * (Q * Q * bool) => x.1 = d0) r = []) as ->.
           { clear -IH. induction r as [|[d' v'] r IHr]; [done|].
             rewrite filter_cons_False.
             - apply IHr. intros Hin. apply IH. cbn. by apply list_elem_of_further.
             - cbn. intros ->. apply IH. cbn. apply list_elem_of_here. }
           cbn [totQty map total fold_right]. lra.
      * destruct (aget m d0) as [agg|]; unfold default, from_option, id.
        -- destruct IH as (_ & IH & _). rewrite IH. lra.
        -- assert (filter (fun x : string * (Q * Q * bool) => x.1 = d0) r = []) as ->.
           { clear -IH. induction r as [|[d' v'] r IHr]; [done|].
             rewrite filter_cons_False.
             - apply IHr. intros Hin. apply IH. cbn. by apply list_elem_of_further.
             - cbn. intros ->. apply IH. cbn. apply list_elem_of_here. }
           cbn [totMvUsd map total fold_right]. lra.
    + rewrite aget_aset_ne by done. rewrite filter_cons_False by (cbn; congruence).
      destruct (aget m d) as [agg|].
      * destruct IH as (IH1 & IH2 & Hin). rewrite !total_app.
        split; [|split; [|apply elem_of_app; by left]].
        -- change (total (map (fun x : Q * Q * bool => x.1.1)
                     (map snd (filter (fun x : string * (Q * Q * bool) => x.1 = d) [])))) with 0.
           lra.
        -- change (total (map (fun x : Q * Q * bool => Qabs x.1.1 * x.1.2)
                     (map snd (filter (fun x : string * (Q * Q * bool) => x.1 = d) [])))) with 0.
           lra.
      * intros Hin. apply elem_of_app in Hin as [Hin|Hin]; [done|].
        apply list_elem_of_singleton in Hin. done.
Qed.

End ExactArgx.

(** X24.  In exact arithmetic the history price of ARGX on a date is the
    value in dollars of its rows of that date (absolute quantity times
    price, the price of the ordinary shares converted at 1.17) divided by
    their signed quantity, when both sums are positive; a date with no row
    of ARGX has no price of ARGX. *)
Theorem argx_history_price_is_value_over_quantity :
  forall (R : JsRuntime Q) (histJson : list (SheetRow (num := Q)))
         (h : HistoryData) (d : string),
    parseHistoryRows histJson = Some h ->
    let parts := argxParts (sheetCols histJson) histJson d in
    (parts = [] -> priceAt (dailyPriceMap h) d "ARGX" = None) /\
    ((0 < argxQuantity parts)%Q -> (0 < argxValue parts)%Q ->
     exists p, priceAt (dailyPriceMap h) d "ARGX" = Some p /\
               (p == argxValue parts / argxQuantity parts)%Q).
Proof.
  intros R rows h d Hh parts. rewrite parseHistoryRows_spec in Hh.
  set (cols := sheetCols rows) in *.
  destruct (historyRows cols rows emptyAcc) as [acc|] eqn:E; [|done]. injection Hh as <-.
  cbn [dailyPriceMap].
  pose proof (histWf_historyRows _ _ _ _ histWf_empty E) as Hwf.
  rewrite (finalizeArgx_argx _ _ (wf_argx _ Hwf)).
  assert (priceAt (acc_prices acc) d "ARGX" = None) as ->.
  { rewrite (historyRows_prices _ _ _ _ E). cbn [emptyAcc acc_prices].
    by rewrite setPriceOf_fold, pricePart_not_argx. }
  rewrite (historyRows_argx _ _ _ _ E). cbn [emptyAcc acc_argx].
  pose proof (addArgx_fold (omap (argxPart cols) rows) d) as Hfold.
  fold (argxParts cols rows d) in Hfold. fold parts in Hfold.
  destruct (aget (fold_left addArgxOf (omap (argxPart cols) rows) []) d) as [agg|].
  - destruct Hfold as (Hq & Hv & Hin). split.
    + intros Hnil. exfalso. unfold parts, argxParts in Hnil.
      apply elem_of_map in Hin as ([d' x] & -> & Hin).
      assert ((d', x) ∈ filter (fun y : string * (Q * Q * bool) => y.1 = d')
                          (omap (argxPart cols) rows)) as Hf.
      { apply list_elem_of_filter. by split. }
      cbn [fst] in Hnil. destruct (filter _ _); [inversion Hf|done].
    + intros Hqpos Hvpos. unfold argxFinalPrice, ngtb. cbn [nltb nzero ndiv Exact].
      assert (Qltb 0 (totQty agg) = true) as -> by (apply Qltb_true; lra).
      assert (Qltb 0 (totMvUsd agg) = true) as -> by (apply Qltb_true; lra).
      cbn [andb].
      assert (Qred (totMvUsd agg / totQty agg) == argxValue parts / argxQuantity parts)%Q
        as Heq.
      { rewrite Qred_correct, Hq, Hv. reflexivity. }
      assert (Qltb 0 (Qred (totMvUsd agg / totQty agg)) = true) as ->.
      { apply Qltb_true. rewrite Heq. apply Qlt_shift_div_l; lra. }
      eexists. split; [reflexivity | exact Heq].
  - split; [done|]. intros Hqpos _. exfalso.
    assert (parts = []) as Hnil.
    { unfold parts, argxParts.
      assert (filter (fun x : string * (Q * Q * bool) => x.1 = d)
                (omap (argxPart cols) rows) = []) as ->; [|done].
      generalize dependent (omap (argxPart cols) rows). clear.
      induction l as [|[d' v'] r IHr]; intros Hn; [done|].
      rewrite filter_cons_False.
      - apply IHr. intros Hin. apply Hn. cbn. by apply list_elem_of_further.
      - cbn. intros ->. apply Hn. cbn. apply list_elem_of_here. }
    rewrite Hnil in Hqpos. vm_compute in Hqpos. done.
Qed.

Lemma argx_history_price_is_value_over_quantity_witness :
  exists h p,
    @parseHistoryRows Q Exact exampleRuntime argxSheet = Some h /\
    priceAt (dailyPriceMap h) "2024-01-02" "ARGX" = Some p /\
    (p == 484 # 10)%Q.
Proof.
  eexists. eexists. split; [vm_compute; reflexivity|]. split; [reflexivity|].
  destruct (proj2 (argx_history_price_is_value_over_quantity exampleRuntime argxSheet _
                     "2024-01-02" ltac:(vm_compute; reflexivity))
              ltac:(vm_compute; reflexivity) ltac:(vm_compute; reflexivity))
    as (p & Hp & Heq).
  vm_compute in Hp. injection Hp as <-. rewrite Heq. vm_compute. reflexivity.
Defined.

(** ** The dashboard *)

Section DashboardFacts.
Open Scope Q_scope.
Implicit Types (p q : Position (num := Q)).

Lemma bySizeDesc_lt p q :
  bySizeDesc p q = true <-> avgSizePercentAUM p < avgSizePercentAUM q.
Proof.
  unfold bySizeDesc, ngtb. cbn [nltb nsub nzero Exact].
  rewrite Qltb_true, Qred_correct. split; lra.
Qed.

Lemma bySizeDesc_ge p q :
  bySizeDesc p q = false <-> avgSizePercentAUM q <= avgSizePercentAUM p.
Proof.
  rewrite <- not_true_iff_false, bySizeDesc_lt. split; [apply Qnot_lt_le | apply Qle_not_lt].
Qed.

Lemma sortBy_bySizeDesc (l : list (Position (num := Q))) :
  StronglySorted (fun p q => avgSizePercentAUM q <= avgSizePercentAUM p)
    (sortBy bySizeDesc l).
Proof.
  apply StronglySorted_mono with (R := notAfter bySizeDesc).
  { intros p q. apply bySizeDesc_ge. }
  apply (sortBy_sorted bySizeDesc (fun _ => True)).
  - intros p q _ _. rewrite bySizeDesc_lt, bySizeDesc_ge. lra.
  - intros p q r _ _ _. unfold notAfter. rewrite !bySizeDesc_ge. lra.
  - by apply Forall_forall.
Qed.

End DashboardFacts.

(** X25.  In exact arithmetic, and unless all positions are asked for, the
    side bar lists the positions that are not flagged small, each as often as
    the data has it, by descending average size; before a file is read it
    lists nothing.  The ticker selected after a file is read is that of a
    position of the largest average size among all positions, flagged small
    or not. *)
Theorem side_bar_lists_material_positions_by_size :
  forall (localeCompare : string -> string -> Z)
         (d : DashboardData (num := Q)) (selected : string),
    let shown := filteredPositions localeCompare (Some d) false in
    shown ≡ₚ List.filter (fun p => negb (isSmallPosition p)) (positions d) /\
    StronglySorted (fun p q => (avgSizePercentAUM q <= avgSizePercentAUM p)%Q) shown /\
    (forall showAll, filteredPositions (num := Q) localeCompare None showAll = []) /\
    (positions d <> [] ->
     exists p, p ∈ positions d /\ selectAfterUpload selected d = pos_ticker p /\
               forall q, q ∈ positions d ->
                         (avgSizePercentAUM q <= avgSizePercentAUM p)%Q).
Proof.
  intros lc d selected shown. unfold shown, filteredPositions. cbn [negb].
  split; [apply sortBy_Permutation|]. split; [apply sortBy_bySizeDesc|].
  split; [done|]. intros Hne. unfold selectAfterUpload.
  pose proof (sortBy_Permutation bySizeDesc (positions d)) as Hperm.
  pose proof (sortBy_bySizeDesc (positions d)) as Hsorted.
  destruct (positions d) as [|p0 r] eqn:Ep; [done|]. rewrite <- Ep in *.
  destruct (sortBy bySizeDesc (positions d)) as [|p s] eqn:Es.
  { apply Permutation_nil in Hperm. by rewrite Ep in Hperm. }
  exists p. split; [rewrite <- Hperm; apply list_elem_of_here|]. split; [done|].
  intros q Hq. rewrite <- Hperm in Hq. apply StronglySorted_inv in Hsorted as [_ Hall].
  apply elem_of_cons in Hq as [->|Hq]; [apply Qle_refl|].
  rewrite Forall_forall in Hall. by apply Hall.
Qed.

(** ** The dates of a finalized history *)

Section FinalizedDates.
Context {num : Type} `{JsNumber num}.

Lemma sliceHistory_segment (history : list (PositionHistoryPoint (num := num)))
    (startDate endDate : string) :
  exists before after,
    history = before ++ sliceHistory history startDate endDate ++ after.
Proof.
  unfold sliceHistory.
  destruct (nonEmpty startDate && nonEmpty endDate);
    [|exists [], []; by rewrite app_nil_r].
  destruct (findIndex _ history) as [a|]; [|exists [], []; by rewrite app_nil_r].
  destruct (findIndex _ history) as [b|]; [|exists [], []; by rewrite app_nil_r].
  exists (take (pred a) history),
         (drop (Nat.min (length history) (b + 2) - pred a) (drop (pred a) history)).
  by rewrite take_drop, take_drop.
Qed.

Lemma simulatePortfolio_lookup (allDates : list string) (trades : list (Trade (num := num)))
    (pm : PriceMap) (am : AumMap) (t : string) (ps : PosState) :
  (t, ps) ∈ positionStates (simulatePortfolio allDates trades pm am) ->
  aget (positionStates (simulatePortfolio allDates trades pm am)) t = Some ps.
Proof.
  intros Hin.
  assert (NoDup (map fst (positionStates (simulatePortfolio allDates trades pm am)))) as Hnd.
  { unfold simulatePortfolio. rewrite simulateFrom_posKeys. apply newSet_spec. }
  induction (positionStates (simulatePortfolio allDates trades pm am)) as [|[k x] r IH];
    [inversion Hin|].
  cbn in *. apply NoDup_cons in Hnd as [Hk Hnd].
  apply elem_of_cons in Hin as [[= -> ->]|Hin]; [by rewrite String.eqb_refl|].
  destruct (String.eqb t k) eqn:E; [|by apply IH].
  apply String.eqb_eq in E as ->. exfalso. apply Hk. apply elem_of_map. by exists (k, ps).
Qed.

End FinalizedDates.

(** X26.  The dates of the history of a finalized position are consecutive
    dates of the timeline, in order: the chart of a position skips no date
    between its first and its last point. *)
Theorem finalized_history_is_a_run_of_the_timeline :
  forall (num : Type) (N : JsNumber num) (allDates : list string)
         (trades : list (Trade (num := num))) (pm : PriceMap) (am : AumMap)
         (lastMap firstMap : list (string * string)) (p : Position),
    p ∈ finalizePositions (simulatePortfolio allDates trades pm am) trades lastMap firstMap ->
    exists before after,
      allDates = before ++ map hp_date (pos_history p) ++ after.
Proof.
  intros num N allDates trades pm am lastMap firstMap p Hp.
  unfold finalizePositions in Hp. apply elem_of_map in Hp as ([t ps] & -> & Hin).
  apply simulatePortfolio_lookup in Hin. cbn [fst snd finalizePosition pos_history].
  assert (histDatesInv allDates trades (length allDates) (length allDates)
            (positionStates (simulatePortfolio allDates trades pm am))) as Hd.
  { apply simulateFrom_hist; [done|apply posInv_init|]. intros t' ps'. cbn. done. }
  destruct (Hd t ps Hin) as (i & _ & Hdates).
  rewrite take_ge in Hdates by (rewrite length_drop; lia).
  match goal with
  | |- context [sliceHistory (st_history ps) ?s ?e] =>
      destruct (sliceHistory_segment (st_history ps) s e) as (b & a & Hseg)
  end.
  rewrite Hseg in Hdates at 1. rewrite !map_app in Hdates.
  exists (take (pred i) allDates ++ map hp_date b), (map hp_date a).
  rewrite <- app_assoc, Hdates. by rewrite take_drop.
Qed.

Lemma finalized_history_is_a_run_of_the_timeline_witness :
  let allDates := ["2023-12-29"; "2024-01-01"; "2024-01-02"; "2024-01-03"] in
  exists p,
    finalizePositions (simulatePortfolio allDates buyThenSell [] []) buyThenSell [] [] = [p] /\
    map hp_date (pos_history p) = ["2024-01-01"; "2024-01-02"; "2024-01-03"] /\
    exists before after, allDates = before ++ map hp_date (pos_history p) ++ after.
Proof.
  intros allDates. eexists. split; [vm_compute; reflexivity|]. split; [reflexivity|].
  apply (finalized_history_is_a_run_of_the_timeline float Float64 allDates buyThenSell
           [] [] [] []).
  vm_compute. apply list_elem_of_here.
Defined.

(** * The claims about lots, on the simulation *)

Section OnTheSimulation.
Context {num : Type} `{JsNumber num}.
Implicit Types (st : SimState (num := num)) (ps : PosState (num := num))
  (tr : Trade (num := num)).

Lemma simulateFrom_app allDates trades pm am (l1 l2 : list string) : forall i st,
  simulateFrom allDates trades pm am i (l1 ++ l2) st
  = simulateFrom allDates trades pm am (i + length l1) l2
      (simulateFrom allDates trades pm am i l1 st).
Proof.
  induction l1 as [|d r IH]; intros i st; cbn [app simulateFrom length].
  - by rewrite Nat.add_0_r.
  - rewrite IH. f_equal. lia.
Qed.

(** The points are the states the run goes through: from the point [(k, n)]
    the loop applies the rest of the trades of the date, prices and records
    the date, and goes on with the later dates. *)
Lemma pointState_on_the_run allDates trades pm am k n d :
  allDates !! k = Some d ->
  simulatePortfolio allDates trades pm am
  = simulateFrom allDates trades pm am (S k) (drop (S k) allDates)
      (snapshotStep am d
         (pricesStep pm d
            (fold_left (applyTrade allDates k pm) (drop n (daysTrades trades d))
               (pointState allDates trades pm am k n)))).
Proof.
  intros Hd. unfold simulatePortfolio, pointState. rewrite Hd. cbn [default].
  rewrite <- fold_left_app, take_drop.
  rewrite <- (take_drop k allDates) at 2.
  rewrite simulateFrom_app, (drop_S _ _ _ Hd). cbn [simulateFrom Nat.add].
  rewrite length_take, Nat.min_l by (apply lookup_lt_Some in Hd; lia).
  reflexivity.
Qed.

(** Past the last date the point is the final state. *)
Lemma pointState_final allDates trades pm am k n :
  length allDates <= k ->
  pointState allDates trades pm am k n = simulatePortfolio allDates trades pm am /\
  pointTrades allDates trades k n = appliedTrades allDates trades.
Proof.
  intros Hk. unfold pointState, pointTrades, simulatePortfolio.
  rewrite (lookup_ge_None_2 allDates k Hk), (take_ge allDates k Hk). cbn [default].
  assert (daysTrades trades "" = []) as ->.
  { unfold daysTrades. by rewrite groupByDate_lookup. }
  rewrite take_nil. cbn. by rewrite app_nil_r.
Qed.





(** A finalized position reports the share count and the realized P&L its
    trades make of a new position state. *)
Lemma finalized_core allDates trades pm am lastMap firstMap (p : Position) :
  p ∈ finalizePositions (simulatePortfolio allDates trades pm am) trades lastMap firstMap ->
  let made :=
    fold_left tradePos (tickerTrades (pos_ticker p) (appliedTrades allDates trades))
      newPosState in
  pos_shares p = st_shares made /\ pos_realizedPnL p = st_realizedPnL made.
Proof.
  intros Hp made. unfold finalizePositions in Hp.
  apply elem_of_map in Hp as ([t ps] & -> & Hin).
  apply simulatePortfolio_lookup in Hin.
  pose proof (simulatePortfolio_posInv allDates trades pm am t) as Hinv.
  rewrite Hin in Hinv. destruct Hinv as (_ & (Hs & _ & Hr) & _).
  cbn [fst snd finalizePosition pos_shares pos_realizedPnL pos_ticker] in *.
  by split.
Qed.

(** A tracked ticker with an applied trade has a finalized position. *)
Lemma finalized_exists allDates trades pm am lastMap firstMap (t : string) :
  t <> "" -> inheritedKey t = false ->
  tickerTrades t (appliedTrades allDates trades) <> [] ->
  exists p,
    p ∈ finalizePositions (simulatePortfolio allDates trades pm am) trades lastMap firstMap /\
    pos_ticker p = t.
Proof.
  intros Hne Hown Happ.
  pose proof (simulatePortfolio_posInv allDates trades pm am t) as Hinv.
  destruct (aget (positionStates (simulatePortfolio allDates trades pm am)) t)
    as [ps|] eqn:Eg.
  - destruct (finalizePositions_elem _ trades lastMap firstMap _ _ Eg) as (p & Hp & Ht & _).
    by exists p.
  - exfalso. apply Happ, Hinv. by apply tracked_true.
Qed.

End OnTheSimulation.

(** ** Realized P&L *)

(** C3.  For a ticker whose applied trades are one buy-like trade of 100
    shares at 10 and then one sell-like trade of 100 shares at 15, neither
    with fees or commissions, the simulation reports a cumulative realized
    P&L of exactly 500: every finalized position of the ticker carries it,
    bit for bit in binary64 and in exact arithmetic, and there is such a
    position unless the ticker is empty or names an inherited property. *)
Theorem realized_pnl_round_trip :
  (forall (allDates : list string) (trades : list (Trade (num := float)))
          (pm : PriceMap) (am : AumMap) (lastMap firstMap : list (string * string))
          (t : string) (b s : Trade),
      tickerTrades t (appliedTrades allDates trades) = [b; s] ->
      inList (txnType b) BUY_TYPES = true -> feeless b 100%float 10%float ->
      inList (txnType s) SELL_TYPES = true -> feeless s 100%float 15%float ->
      let positions :=
        finalizePositions (simulatePortfolio allDates trades pm am) trades lastMap firstMap in
      (forall p, p ∈ positions -> pos_ticker p = t -> pos_realizedPnL p = 500%float) /\
      (t <> "" -> inheritedKey t = false ->
       exists p, p ∈ positions /\ pos_ticker p = t /\ pos_realizedPnL p = 500%float)) /\
  (forall (allDates : list string) (trades : list (Trade (num := Q)))
          (pm : PriceMap) (am : AumMap) (lastMap firstMap : list (string * string))
          (t : string) (b s : Trade),
      tickerTrades t (appliedTrades allDates trades) = [b; s] ->
      inList (txnType b) BUY_TYPES = true -> feeless b 100%Q 10%Q ->
      inList (txnType s) SELL_TYPES = true -> feeless s 100%Q 15%Q ->
      let positions :=
        finalizePositions (simulatePortfolio allDates trades pm am) trades lastMap firstMap in
      (forall p, p ∈ positions -> pos_ticker p = t -> pos_realizedPnL p = 500%Q) /\
      (t <> "" -> inheritedKey t = false ->
       exists p, p ∈ positions /\ pos_ticker p = t /\ pos_realizedPnL p = 500%Q)).
Proof.
  split; intros allDates trades pm am lastMap firstMap t b s Hts Hb Fb Hs Fs positions.
  - assert (forall p, p ∈ positions -> pos_ticker p = t -> pos_realizedPnL p = 500%float)
      as Hall.
    { intros p Hp Ht. destruct (finalized_core _ _ _ _ _ _ p Hp) as [_ ->].
      rewrite Ht, Hts. by apply (proj1 round_trip_on_position_state). }
    split; [exact Hall|]. intros Hne Hown.
    destruct (finalized_exists allDates trades pm am lastMap firstMap t Hne Hown)
      as (p & Hp & Ht); [by rewrite Hts|].
    exists p. split; [done|]. split; [done|]. by apply Hall.
  - assert (forall p, p ∈ positions -> pos_ticker p = t -> pos_realizedPnL p = 500%Q)
      as Hall.
    { intros p Hp Ht. destruct (finalized_core _ _ _ _ _ _ p Hp) as [_ ->].
      rewrite Ht, Hts. by apply (proj2 round_trip_on_position_state). }
    split; [exact Hall|]. intros Hne Hown.
    destruct (finalized_exists allDates trades pm am lastMap firstMap t Hne Hown)
      as (p & Hp & Ht); [by rewrite Hts|].
    exists p. split; [done|]. split; [done|]. by apply Hall.
Qed.

Lemma realized_pnl_round_trip_witness :
  let dates := ["2024-01-02"; "2024-01-05"] in
  exists p,
    finalizePositions (simulatePortfolio dates roundTripTrades [] []) roundTripTrades [] []
    = [p] /\
    pos_ticker p = "ACME" /\ pos_realizedPnL p = 500%float.
Proof.
  intros dates. eexists. split; [vm_compute; reflexivity|]. split; [reflexivity|].
  refine (proj1 (proj1 realized_pnl_round_trip dates roundTripTrades [] [] [] [] "ACME"
                   _ _ _ _ _ _ _) _ _ _).
  - vm_compute. reflexivity.
  - reflexivity.
  - by repeat split.
  - reflexivity.
  - by repeat split.
  - vm_compute. apply list_elem_of_here.
  - reflexivity.
Defined.

(** ** Lot conservation *)




(** ** Highest cost first *)

(** C1, the failing input.  The example of the rule holds in the
    simulation, in binary64: with
    lots of 100 shares at 10 and at 20, a sale of 50 leaves 50 shares at 20
    and 100 at 10 and charges 1000; a sale of 150 empties the lot at 20 and
    leaves 50 shares at 10.  But a purchase of quantity 0 opens a lot whose
    cost per share is 0 / 0, not a number; the comparator of the sort is then
    not a number on every pair with that lot, the array stays as it is, and
    the sale of 50 is taken from the lot at 10 while the lot at 20 is held:
    500 is charged, not 1000.  Such a purchase is what [parseTradeBlotter]
    makes of a row whose quantity cell is blank, whatever the runtime. *)
Theorem blank_quantity_buy_defeats_hifo :
  (exists ps,
      aget (positionStates (simulatePortfolio hifoDates (hifoTrades 50%float) [] []))
           "ACME" = Some ps /\
      lots ps = [ mkTaxLot "2024-01-03" 50%float 20%float 1000%float;
                  mkTaxLot "2024-01-02" 100%float 10%float 1000%float ] /\
      st_realizedPnL ps = (50 * 15 - 1000)%float) /\
  (exists ps,
      aget (positionStates (simulatePortfolio hifoDates (hifoTrades 150%float) [] []))
           "ACME" = Some ps /\
      lots ps = [ mkTaxLot "2024-01-02" 50%float 10%float 500%float ] /\
      st_realizedPnL ps = (150 * 15 - (2000 + 500))%float) /\
  (exists ps,
      aget (positionStates (simulatePortfolio hifoDates blankBuyTrades [] []))
           "ACME" = Some ps /\
      map (fun t => PrimFloat.is_nan (costPerShare (openLot t))) blankBuyTrades
      = [false; true; false; false] /\
      lots ps = [ mkTaxLot "2024-01-02" 50%float 10%float 500%float;
                  mkTaxLot "2024-01-03" 100%float 20%float 2000%float ] /\
      st_realizedPnL ps = (50 * 15 - 500)%float) /\
  (forall (rt : JsRuntime float) (rnd : nat -> string),
      map (fun t => (tradeId t, txnType t, quantity t, price t))
          (parseTradeBlotter rnd [blankQuantityRow])
      = [("T1b", "Buy", 0%float, 0%float)]).
Proof.
  split; [|split; [|split]];
    [eexists; split; [vm_compute; reflexivity|]; repeat split ..|].
  intros rt rnd. unfold parseTradeBlotter. cbn [fold_left].
  unfold blotterRow, getUniqueTicker. cbn -[isOption parseExcelDate].
  reflexivity.
Qed.
